(** * OpeningHoursService: a shallow embedding of src/OpeningHoursService.ts

    The service keeps a weekly opening-hours schedule in one internal
    timezone.  Entries are converted between timezones endpoint by endpoint,
    split where the converted range crosses a local midnight, sorted, merged
    when adjacent and finally checked for integrity.

    Conventions of the embedding.
    - A JavaScript number is an [option Z]: [None] is NaN (or [undefined]
      used as a number), [Some z] an integer.  [Number] accepts runs of
      decimal digits (the empty run is 0, as in JavaScript); other numeric
      literal forms (signs, fractions, exponents, radix prefixes, blanks) are
      outside the modelled input domain and read as NaN.  A property that
      depends on what is a number says so with [plainTime] and [unreadable].
      The hours of [getTotalOpenHours], the one fraction of the program, are
      a double.
    - A thrown exception is the [Err] case of [result]; the payload of each
      constructor is what the source interpolates into the message.
    - Methods of the class run in the state-and-exception monad [M]: a throw
      leaves the fields of the object as they were at the throw.
    - The collaborators are parameters of [Section Collaborators]: the
      timezone library through the offset of a zone name (no offset for a
      name it rejects), the calendar through the day of month of the days
      around the reference week, the clocks of the machine and of the zones
      in that week, the recurring-schedule engine through its constructor.
    - Offsets are whole minutes.  What a zone or the machine does beyond
      a fixed offset in the reference week (an hour skipped or repeated when
      daylight time starts or ends) is the collaborator [Clock]; a property
      that needs the clocks to keep still says so with [steady].

    The file first gives the program, then the vocabulary of its
    specification, then the proofs: the methods as functions of the state,
    strings against numbers, the pipeline on numbers, the invariant of the
    object, and the properties of the service. *)

From Stdlib Require Import ZArith List String Ascii Bool Lia Sorted Permutation Floats.
Import ListNotations.

Open Scope string_scope.
Open Scope list_scope.
Open Scope Z_scope.

(** ** Errors and results *)

Inductive Error : Type :=
| InvalidWeekday (day : string)
    (* Invalid dayOfWeek: "day" *)
| InvalidTimeValue
    (* RangeError of the timezone library: Invalid time value *)
| InvalidTimeRange (day opens closes : string)
    (* Invalid time range on day: opens at .. but closes at .. *)
| InvalidOpeningTime (day : string)
    (* Invalid opening time on day: opens at 24:00 *)
| InvalidClosingTime (day closes : string)
    (* Invalid closing time on day: closes at .. *)
| OverlapError (day opens1 closes1 opens2 closes2 : string).
    (* Invalid time ranges: day [..-..] overlaps with day [..-..] *)

Inductive result (A : Type) : Type :=
| Ok (a : A)
| Err (e : Error).

Arguments Ok {A} a.
Arguments Err {A} e.

Definition rbind {A B : Type} (r : result A) (k : A -> result B) : result B :=
  match r with
  | Ok a => k a
  | Err e => Err e
  end.

Notation "x <- c ;; k" := (rbind c (fun x => k))
  (at level 61, c at next level, right associativity).

(** [Array.prototype.flatMap] with a callback that may throw: the first throw
    aborts the traversal. *)
Fixpoint flatMapR {A B : Type} (f : A -> result (list B)) (l : list A)
  : result (list B) :=
  match l with
  | [] => Ok []
  | x :: rest =>
      ys <- f x ;;
      zs <- flatMapR f rest ;;
      Ok (ys ++ zs)
  end.

(** ** JavaScript string helpers *)

(** [String.prototype.split] with a one-character separator. *)
Fixpoint split (sep : ascii) (s : string) : list string :=
  match s with
  | EmptyString => [EmptyString]
  | String c rest =>
      if Ascii.eqb c sep then EmptyString :: split sep rest
      else match split sep rest with
           | piece :: pieces => String c piece :: pieces
           | [] => [String c EmptyString]
           end
  end.

Definition digitValue (c : ascii) : option Z :=
  let n := Z.of_nat (nat_of_ascii c) in
  if (48 <=? n) && (n <=? 57) then Some (n - 48) else None.

Fixpoint digitsValue (acc : Z) (s : string) : option Z :=
  match s with
  | EmptyString => Some acc
  | String c rest =>
      match digitValue c with
      | Some d => digitsValue (10 * acc + d) rest
      | None => None
      end
  end.

(** [Number(s)] on the modelled domain. *)
Definition Number (s : string) : option Z := digitsValue 0 s.

Definition digitChar (n : Z) : ascii := ascii_of_nat (Z.to_nat (48 + n)).

(** Two-digit field of [format(date, 'HH:mm')]. *)
Definition pad2 (n : Z) : string :=
  String (digitChar (n / 10)) (String (digitChar (n mod 10)) EmptyString).

(** [format(date, 'HH:mm')] of a date whose wall clock stands [m] minutes
    after midnight. *)
Definition formatHHmm (m : Z) : string :=
  (pad2 (m / 60) ++ ":" ++ pad2 (m mod 60))%string.

(** [const [hours, minutes] = time.split(':').map(Number)]; a missing second
    piece is [undefined], which every later use treats as NaN. *)
Definition parseTime (time : string) : option Z * option Z :=
  match map Number (split ":"%char time) with
  | [] => (None, None)
  | [h] => (h, None)
  | h :: m :: _ => (h, m)
  end.

(** ** Data model *)

Record OpeningHoursSpecification : Type := mkSpec {
  type_ : string;        (* '@type' *)
  dayOfWeek : string;
  opens : string;
  closes : string
}.

(** The [dayOfWeek] of an entry handed in by a caller: the declared type is a
    string, and [normalizeAndSplitDays] also takes an array of strings. *)
Inductive DayOfWeekInput : Type :=
| OneDay (day : string)
| ManyDays (days : list string).

Record OpeningHoursInput : Type := mkInput {
  in_type : string;
  in_dayOfWeek : DayOfWeekInput;
  in_opens : string;
  in_closes : string
}.

Definition toInput (spec : OpeningHoursSpecification) : OpeningHoursInput :=
  mkInput (type_ spec) (OneDay (dayOfWeek spec)) (opens spec) (closes spec).

Record OpenRange : Type := mkRange {
  open : string;
  range_closes : string
}.

Record OpenRangePerDay : Type := mkPerDay {
  perday_type : string;
  perday_dayOfWeek : string;
  openRange : list OpenRange
}.

(** ** Private helpers that need no collaborator *)

Definition weekDays : list string :=
  ["Monday"; "Tuesday"; "Wednesday"; "Thursday"; "Friday"; "Saturday"; "Sunday"].

(** [Array.prototype.indexOf]: -1 when absent. *)
Fixpoint indexOf (x : string) (l : list string) : Z :=
  match l with
  | [] => -1
  | y :: rest =>
      if String.eqb y x then 0
      else let i := indexOf x rest in if i <? 0 then -1 else i + 1
  end.

(** [convertDayStringToNumber]: the table holds the seven weekdays.  (The
    property names that the table inherits from [Object.prototype] are
    outside the modelled domain: see [unknownDay].) *)
Definition convertDayStringToNumber (day : string) : result Z :=
  let i := indexOf day weekDays in
  if i <? 0 then Err (InvalidWeekday day) else Ok (i + 1).

Definition convertTimeToMinutes (time : string) : option Z :=
  match parseTime time with
  | (Some h, Some m) => if (h =? 24) && (m =? 0) then Some 1440 else Some (h * 60 + m)
  | _ => None
  end.

(** [a < b] on JavaScript numbers: false as soon as one side is NaN. *)
Definition js_lt (a b : option Z) : bool :=
  match a, b with
  | Some x, Some y => x <? y
  | _, _ => false
  end.

Definition js_le (a b : option Z) : bool :=
  match a, b with
  | Some x, Some y => x <=? y
  | _, _ => false
  end.

Definition js_sub (a b : option Z) : option Z :=
  match a, b with
  | Some x, Some y => Some (x - y)
  | _, _ => None
  end.

Definition timeIsBefore (time1 time2 : string) : bool :=
  js_lt (convertTimeToMinutes time1) (convertTimeToMinutes time2).

Definition areTimesAdjacent (time1 time2 : string) : bool :=
  match js_sub (convertTimeToMinutes time1) (convertTimeToMinutes time2) with
  | Some d => Z.abs d <=? 1
  | None => false
  end.

(** [array.pop()] of the pieces of [day.split('/')]. *)
Definition lastSegment (day : string) : string :=
  last (split "/"%char day) EmptyString.

Definition normalizeDayOfWeek (day : string) : string :=
  if String.prefix "https://schema.org/" day
  then match lastSegment day with
       | EmptyString => day
       | seg => seg
       end
  else day.

Definition normalizeAndSplitDays (hours : list OpeningHoursInput)
  : list OpeningHoursSpecification :=
  flat_map
    (fun spec =>
       let days := match in_dayOfWeek spec with
                   | OneDay d => [d]
                   | ManyDays ds => ds
                   end in
       map (fun day => mkSpec (in_type spec) (normalizeDayOfWeek day)
                              (in_opens spec) (in_closes spec)) days)
    hours.

Definition preprocessOpeningHours (hours : list OpeningHoursInput)
  : result (list OpeningHoursSpecification) :=
  let normalizedHours := normalizeAndSplitDays hours in
  flatMapR
    (fun spec =>
       if timeIsBefore (closes spec) (opens spec)
          || String.eqb (closes spec) (opens spec)
       then Err (InvalidTimeRange (dayOfWeek spec) (opens spec) (closes spec))
       else Ok [spec])
    normalizedHours.

Definition adjustDayOfWeek (day : string) (dayChange : Z) : string :=
  let currentIndex := indexOf day weekDays in
  let newIndex := Z.rem (currentIndex + dayChange) 7 in
  let newIndex := if newIndex <? 0 then newIndex + 7 else newIndex in
  nth (Z.to_nat newIndex) weekDays "undefined".

(** [Array.prototype.sort] with a comparator that may throw.  ECMAScript
    requires the sort to be stable and reads a NaN comparison as 0, so for a
    comparator that orders by a key the result is the one stable ordering;
    it is computed here by insertion from the right. *)
Definition precedes (v : option Z) : bool :=
  match v with
  | Some z => z <=? 0
  | None => true
  end.

Fixpoint insertBy {A : Type} (cmp : A -> A -> result (option Z)) (x : A)
  (l : list A) : result (list A) :=
  match l with
  | [] => Ok [x]
  | y :: rest =>
      v <- cmp x y ;;
      if precedes v then Ok (x :: y :: rest)
      else (r <- insertBy cmp x rest ;; Ok (y :: r))
  end.

Fixpoint sortBy {A : Type} (cmp : A -> A -> result (option Z)) (l : list A)
  : result (list A) :=
  match l with
  | [] => Ok []
  | x :: rest => r <- sortBy cmp rest ;; insertBy cmp x r
  end.

Definition compareOpeningHours (a b : OpeningHoursSpecification)
  : result (option Z) :=
  dayA <- convertDayStringToNumber (dayOfWeek a) ;;
  dayB <- convertDayStringToNumber (dayOfWeek b) ;;
  if negb (dayA =? dayB) then Ok (Some (dayA - dayB))
  else Ok (js_sub (convertTimeToMinutes (opens a))
                  (convertTimeToMinutes (opens b))).

Definition withCloses (spec : OpeningHoursSpecification) (c : string)
  : OpeningHoursSpecification :=
  mkSpec (type_ spec) (dayOfWeek spec) (opens spec) c.

(** The two loops of [combineAdjacentRanges]: [currentRange] absorbs the
    following entries while they are on its day and adjacent to its closing
    time; the first entry that is not starts the next range. *)
Fixpoint combineFrom (currentRange : OpeningHoursSpecification)
  (rest : list OpeningHoursSpecification) : list OpeningHoursSpecification :=
  match rest with
  | [] => [currentRange]
  | nextRange :: rest' =>
      if String.eqb (dayOfWeek currentRange) (dayOfWeek nextRange)
         && areTimesAdjacent (closes currentRange) (opens nextRange)
      then
        let updatedClosingTime :=
          if timeIsBefore (closes nextRange) (closes currentRange)
          then closes currentRange else closes nextRange in
        combineFrom (withCloses currentRange updatedClosingTime) rest'
      else currentRange :: combineFrom nextRange rest'
  end.

Definition combineAdjacentRanges (hours : list OpeningHoursSpecification)
  : list OpeningHoursSpecification :=
  match hours with
  | [] => []
  | first :: rest => combineFrom first rest
  end.

Definition checkEntry (current : OpeningHoursSpecification)
  (next : option OpeningHoursSpecification) : result unit :=
  let opensTime := convertTimeToMinutes (opens current) in
  let closesTime := convertTimeToMinutes (closes current) in
  if String.eqb (opens current) "24:00"
  then Err (InvalidOpeningTime (dayOfWeek current))
  else if js_le closesTime opensTime
  then Err (InvalidTimeRange (dayOfWeek current) (opens current) (closes current))
  else if js_lt (Some 1440) closesTime
  then Err (InvalidClosingTime (dayOfWeek current) (closes current))
  else match next with
       | Some next =>
           if String.eqb (dayOfWeek current) (dayOfWeek next)
              && js_lt (convertTimeToMinutes (opens next)) closesTime
           then Err (OverlapError (dayOfWeek current)
                                  (opens current) (closes current)
                                  (opens next) (closes next))
           else Ok tt
       | None => Ok tt
       end.

Fixpoint checkIntegrity (hours : list OpeningHoursSpecification)
  : result unit :=
  match hours with
  | [] => Ok tt
  | current :: rest =>
      _ <- checkEntry current (hd_error rest) ;;
      checkIntegrity rest
  end.

Definition combineAndCheckIntegrity (hours : list OpeningHoursSpecification)
  : result (list OpeningHoursSpecification) :=
  sortedHours <- sortBy compareOpeningHours hours ;;
  let combinedHours := combineAdjacentRanges sortedHours in
  _ <- checkIntegrity combinedHours ;;
  Ok combinedHours.

Definition convertDayOfWeekToShortForm (day : string) : string :=
  if String.eqb day "Monday" then "Mo"
  else if String.eqb day "Tuesday" then "Tu"
  else if String.eqb day "Wednesday" then "We"
  else if String.eqb day "Thursday" then "Th"
  else if String.eqb day "Friday" then "Fr"
  else if String.eqb day "Saturday" then "Sa"
  else if String.eqb day "Sunday" then "Su"
  else "undefined".

(** [Array.prototype.join]. *)
Fixpoint join (sep : string) (l : list string) : string :=
  match l with
  | [] => EmptyString
  | [x] => x
  | x :: rest => (x ++ sep ++ join sep rest)%string
  end.

(** The object [OpenRangePerDay] of [getOpenRangePerDay], its keys kept in
    insertion order; a key it does not hold yet is created at the end.
    (Property names inherited from [Object.prototype] are not modelled.) *)
Definition emptyWeek : list (string * list OpenRange) :=
  map (fun day => (day, [])) weekDays.

Fixpoint pushRange (day : string) (r : OpenRange)
  (table : list (string * list OpenRange)) : list (string * list OpenRange) :=
  match table with
  | [] => [(day, [r])]
  | (key, ranges) :: rest =>
      if String.eqb key day then (key, ranges ++ [r]) :: rest
      else (key, ranges) :: pushRange day r rest
  end.

Definition groupByDay (hours : list OpeningHoursSpecification)
  : list OpenRangePerDay :=
  let table :=
    fold_left (fun table spec =>
                 pushRange (dayOfWeek spec) (mkRange (opens spec) (closes spec)) table)
              hours emptyWeek in
  map (fun '(day, ranges) => mkPerDay "OpenRangePerDay" day ranges) table.

Definition hoursString (perDay : list OpenRangePerDay) : string :=
  join "; "
    (map (fun spec =>
            (convertDayOfWeekToShortForm (perday_dayOfWeek spec) ++ " " ++
             match openRange spec with
             | [] => "off"
             | ranges =>
                 join "," (map (fun range => open range ++ "-" ++ range_closes range)
                               ranges)
             end)%string)
         perDay).

Definition allDays : list string :=
  ["Monday"; "Tuesday"; "Wednesday"; "Thursday"; "Friday"; "Saturday"; "Sunday"].

(** [getNextDay]: [days[(currentIndex + 1) % 7]]; a name that is no weekday
    has index -1. *)
Definition getNextDay (day : string) : string :=
  let currentIndex := indexOf day weekDays in
  nth (Z.to_nat (Z.rem (currentIndex + 1) 7)) weekDays "undefined".

(** [convertNumberToDayString]: [days[index]] in a week that starts on
    Sunday; [undefined] ([None]) outside the list. *)
Definition convertNumberToDayString (index : Z) : option string :=
  if index <? 0 then None
  else nth_error
         ["Sunday"; "Monday"; "Tuesday"; "Wednesday"; "Thursday"; "Friday";
          "Saturday"]
         (Z.to_nat index).

(** The interface [OpeningHoursInstance] of a compiled schedule:
    [getState(date)] and [getNextChange(date)], [undefined] being [None].
    A [Date] is its time value, in milliseconds. *)
Class OpeningHoursInstance (Engine : Type) : Type := {
  instanceGetState : Engine -> Z -> bool;
  instanceGetNextChange : Engine -> Z -> option Z
}.

(** [NextChange]. *)
Inductive ChangeState : Type := StateOpen | StateClose.

Record NextChange : Type := mkNextChange {
  change_date : Z;
  change_state : ChangeState
}.

(** The clocks of the reference week, in minutes on the line that starts at
    the midnight of the anchor day of Monday.
    - [machineWall w]: the wall clock a [Date] shows once its local fields
      are set to [w] ([setHours], and the same inside [toZonedTime]); the
      machine moves a wall clock on that a change of its offset skips.
    - [shiftAtWall zone w]: by how much the offset of [zone] differs from
      its [zoneOffset] for the wall clock [w] ([fromZonedTime]).
    - [shiftAtInstant zone u]: the same at the instant [u], counted on the
      wall clock of UTC ([toZonedTime]). *)
Record Clock : Type := mkClock {
  machineWall : Z -> Z;
  shiftAtWall : string -> Z -> Z;
  shiftAtInstant : string -> Z -> Z
}.

(** ** A concrete setting for the examples

    Three zones with the offsets they have in the weeks the project's tests
    run in (New York on daylight time), a reference week that lies within
    one month, and an engine that is the schedule string it was built from. *)
Definition exampleZones (zone : string) : option Z :=
  if String.eqb zone "UTC" then Some 0
  else if String.eqb zone "Etc/GMT-2" then Some 120
  else if String.eqb zone "America/New_York" then Some (-240)
  else None.

Definition exampleDateOf (i : Z) : Z := 10 + i.

(** Clocks that keep still during the reference week. *)
Definition exampleClock : Clock :=
  mkClock (fun w => w) (fun _ _ => 0) (fun _ _ => 0).

(** The week in which New York, the zone of the machine, goes over to
    daylight time.  The anchor day of Monday is the Sunday that starts the
    week: on it the wall clock jumps from 02:00 to 03:00, the offset from
    -300 to the -240 of [exampleZones], at the instant 07:00 UTC.  A [Date]
    set to a wall clock in the skipped hour shows the time an hour later. *)
Definition springClock : Clock :=
  mkClock
    (fun w => if (120 <=? w) && (w <? 180) then w + 60 else w)
    (fun zone w =>
       if String.eqb zone "America/New_York" && (w <? 180) then -60 else 0)
    (fun zone u =>
       if String.eqb zone "America/New_York" && (u <? 420) then -60 else 0).

(** A reference week that runs over the end of a month of 31 days: the
    anchor day of Thursday is the 31st, that of Friday the 1st. *)
Definition monthEndDateOf (i : Z) : Z := if i <=? 3 then 28 + i else i - 3.

Definition exampleEngine (text : string) : string := text.

(** For the queries, an engine that is open every day from 09:00 to 17:00
    UTC, whatever the schedule it was built from. *)
Definition hourOf (t : Z) : Z := (t / 3600000) mod 24.

Definition exampleGetState (engine : string) (t : Z) : bool :=
  (9 <=? hourOf t) && (hourOf t <? 17).

Definition exampleGetNextChange (engine : string) (t : Z) : option Z :=
  let midnight := t - t mod 86400000 in
  Some (if hourOf t <? 9 then midnight + 9 * 3600000
        else if hourOf t <? 17 then midnight + 17 * 3600000
        else midnight + 33 * 3600000).

#[export] Instance exampleInstance : OpeningHoursInstance string := {
  instanceGetState := exampleGetState;
  instanceGetNextChange := exampleGetNextChange
}.

Definition entry (day o c : string) : OpeningHoursInput :=
  mkInput "OpeningHoursSpecification" (OneDay day) o c.

Definition stored (day o c : string) : OpeningHoursSpecification :=
  mkSpec "OpeningHoursSpecification" day o c.

Section Collaborators.

(** date-fns-tz: the offset from UTC, in minutes, of the wall clock of a
    zone in the reference week; [None] for a zone name it rejects (the
    date it then returns is invalid and [format] throws). *)
Variable zoneOffset : string -> option Z.

(** The calendar: [dateOf i] is [getDate()], the day of the month, of the day
    [i] days after the day on which the reference week anchors Monday. *)
Variable dateOf : Z -> Z.

(** What the machine and the zones do beyond those offsets. *)
Variable clock : Clock.

(** opening_hours: the compiled schedule and its constructor. *)
Variable Engine : Type.
Variable opening_hours : string -> Engine.

(** [convertTimeWithDayChange].  [wallFrom] and [wallTo] are the wall clocks
    that [dateInFromZone] and [dateInToZone] show, [instant] is [localDate]:
    [setHours] on the anchor day of [dayOfWeek], then [fromZonedTime], then
    [toZonedTime], which sets the local fields of the date it returns. *)
Definition convertTimeWithDayChange (time day fromTimezone toTimezone : string)
  : result (string * Z) :=
  let '(hours, minutes) := parseTime time in
  dayNumber <- convertDayStringToNumber day ;;
  let dayIndex := dayNumber - 1 in
  match hours, minutes, zoneOffset fromTimezone, zoneOffset toTimezone with
  | Some h, Some mi, Some offFrom, Some offTo =>
      let wallFrom := machineWall clock (1440 * dayIndex + (Z.rem h 24 * 60 + mi)) in
      let instant := wallFrom - (offFrom + shiftAtWall clock fromTimezone wallFrom) in
      let wallTo :=
        machineWall clock (instant + (offTo + shiftAtInstant clock toTimezone instant)) in
      let convertedTime := formatHHmm (wallTo mod 1440) in
      let dayDifference := dateOf (wallTo / 1440) - dateOf (wallFrom / 1440) in
      let dayDifference :=
        if String.eqb time "24:00" then dayDifference + 1 else dayDifference in
      Ok (convertedTime, dayDifference)
  | _, _, _, _ => Err InvalidTimeValue
  end.

Definition convertAndSplitEntry (spec : OpeningHoursSpecification)
  (fromTimezone toTimezone : string) : result (list OpeningHoursSpecification) :=
  opensConversion <-
    convertTimeWithDayChange (opens spec) (dayOfWeek spec) fromTimezone toTimezone ;;
  closesConversion <-
    convertTimeWithDayChange (closes spec) (dayOfWeek spec) fromTimezone toTimezone ;;
  let opensDayOfWeek := adjustDayOfWeek (dayOfWeek spec) (snd opensConversion) in
  let closesDayOfWeek := adjustDayOfWeek (dayOfWeek spec) (snd closesConversion) in
  if String.eqb opensDayOfWeek closesDayOfWeek
  then Ok [mkSpec "OpeningHoursSpecification" opensDayOfWeek
                  (fst opensConversion) (fst closesConversion)]
  else
    let firstEntry :=
      mkSpec "OpeningHoursSpecification" opensDayOfWeek (fst opensConversion) "24:00" in
    let secondEntry :=
      mkSpec "OpeningHoursSpecification" closesDayOfWeek "00:00" (fst closesConversion) in
    if negb (String.eqb (fst opensConversion) "24:00")
       && negb (String.eqb (fst closesConversion) "00:00")
    then Ok [firstEntry; secondEntry]
    else if String.eqb (fst opensConversion) "24:00"
            && String.eqb (fst closesConversion) "00:00"
    then Ok []
    else if String.eqb (fst opensConversion) "24:00"
    then Ok [secondEntry]
    else Ok [firstEntry].

(** The conversion step shared by set, add, export, remove and the range
    views: [hours.flatMap(spec => this.convertAndSplitEntry(spec, from, to))]. *)
Definition convertAll (hours : list OpeningHoursSpecification)
  (fromTimezone toTimezone : string) : result (list OpeningHoursSpecification) :=
  flatMapR (fun spec => convertAndSplitEntry spec fromTimezone toTimezone) hours.

(** ** The service object *)

Record Service : Type := mkService {
  openingHours : list OpeningHoursSpecification;
  userTimezone : string;
  openingHoursInstance : Engine
}.

Definition M (A : Type) : Type := Service -> result A * Service.

Definition mret {A : Type} (a : A) : M A := fun s => (Ok a, s).

Definition mbind {A B : Type} (c : M A) (k : A -> M B) : M B :=
  fun s =>
    match c s with
    | (Ok a, s') => k a s'
    | (Err e, s') => (Err e, s')
    end.

Notation "x <~ c ;; k" := (mbind c (fun x => k))
  (at level 61, c at next level, right associativity).

(** A private helper that throws or returns, and touches no field. *)
Definition liftR {A : Type} (r : result A) : M A := fun s => (r, s).

Definition getOpeningHours : M (list OpeningHoursSpecification) :=
  fun s => (Ok (openingHours s), s).

Definition getUserTimezone : M string :=
  fun s => (Ok (userTimezone s), s).

Definition putOpeningHours (hours : list OpeningHoursSpecification) : M unit :=
  fun s => (Ok tt, mkService hours (userTimezone s) (openingHoursInstance s)).

Definition putOpeningHoursInstance (engine : Engine) : M unit :=
  fun s => (Ok tt, mkService (openingHours s) (userTimezone s) engine).

(** [try { body } catch (error) { handler }]. *)
Definition tryCatch {A : Type} (body : M A) (handler : Error -> M A) : M A :=
  fun s =>
    match body s with
    | (Ok a, s') => (Ok a, s')
    | (Err e, s') => handler e s'
    end.

(** A parameter declared [timezone: string = this.userTimezone]. *)
Definition orUserTimezone (timezone : option string) : M string :=
  match timezone with
  | Some tz => mret tz
  | None => getUserTimezone
  end.

Definition getOpenRangePerDay (timezone : option string) : M (list OpenRangePerDay) :=
  timezone <~ orUserTimezone timezone ;;
  current <~ getOpeningHours ;;
  userTz <~ getUserTimezone ;;
  hours <~ (if negb (String.eqb timezone userTz)
            then liftR (convertedHours <- convertAll current userTz timezone ;;
                        combineAndCheckIntegrity convertedHours)
            else mret current) ;;
  mret (groupByDay hours).

Definition getOpenRangeForDay (day : string) (timezone : option string)
  : M OpenRangePerDay :=
  timezone <~ orUserTimezone timezone ;;
  perDay <~ getOpenRangePerDay (Some timezone) ;;
  mret match find (fun r => String.eqb (perday_dayOfWeek r) day) perDay with
       | Some r => r
       | None => mkPerDay "OpenRangePerDay" day []
       end.

Definition generateOpeningHoursInstance : M unit :=
  perDay <~ getOpenRangePerDay None ;;
  let hoursString := hoursString perDay in
  if String.eqb hoursString ""
  then putOpeningHoursInstance (opening_hours "Mo-Su closed")
  else putOpeningHoursInstance (opening_hours hoursString).

Definition setOpeningHours (hours : list OpeningHoursInput)
  (timezone : option string) : M unit :=
  timezone <~ orUserTimezone timezone ;;
  preprocessedHours <~ liftR (preprocessOpeningHours hours) ;;
  userTz <~ getUserTimezone ;;
  convertedHours <~ liftR (convertAll preprocessedHours timezone userTz) ;;
  combinedHours <~ liftR (combineAndCheckIntegrity convertedHours) ;;
  _ <~ putOpeningHours combinedHours ;;
  generateOpeningHoursInstance.

Definition exportOpeningHours (timezone : option string)
  : M (list OpeningHoursSpecification) :=
  timezone <~ orUserTimezone timezone ;;
  current <~ getOpeningHours ;;
  userTz <~ getUserTimezone ;;
  convertedHours <~ liftR (convertAll current userTz timezone) ;;
  liftR (combineAndCheckIntegrity convertedHours).

Definition addOpeningHoursBatch (hours : list OpeningHoursInput)
  (timezone : option string) : M unit :=
  timezone <~ orUserTimezone timezone ;;
  preprocessedEntry <~ liftR (preprocessOpeningHours hours) ;;
  userTz <~ getUserTimezone ;;
  convertedEntries <~ liftR (convertAll preprocessedEntry timezone userTz) ;;
  current <~ getOpeningHours ;;
  combinedHours <~ liftR (combineAndCheckIntegrity (current ++ convertedEntries)) ;;
  _ <~ putOpeningHours combinedHours ;;
  generateOpeningHoursInstance.

Definition addOpeningHour (day opens closes : string) (timezone : option string)
  : M unit :=
  timezone <~ orUserTimezone timezone ;;
  addOpeningHoursBatch
    [mkInput "OpeningHoursSpecification" (OneDay day) opens closes]
    (Some timezone).

Definition removeOpeningHoursForDay (day : string) (timezone : option string)
  : M unit :=
  timezone <~ orUserTimezone timezone ;;
  current <~ getOpeningHours ;;
  userTz <~ getUserTimezone ;;
  hours <~ (if negb (String.eqb timezone userTz)
            then liftR (convertedHours <- convertAll current userTz timezone ;;
                        combineAndCheckIntegrity convertedHours)
            else mret current) ;;
  let updatedHours :=
    filter (fun spec => negb (String.eqb (dayOfWeek spec) day)) hours in
  combinedHours <~ liftR (combineAndCheckIntegrity updatedHours) ;;
  setOpeningHours (map toInput combinedHours) (Some timezone).

Definition validateOpeningHours (hours : option (list OpeningHoursInput))
  : M bool :=
  hours <~ match hours with
           | Some hours => mret hours
           | None => current <~ getOpeningHours ;; mret (map toInput current)
           end ;;
  tryCatch
    (preprocessed <~ liftR (preprocessOpeningHours hours) ;;
     _ <~ liftR (checkIntegrity preprocessed) ;;
     mret true)
    (fun _ => mret false).



Definition getDaysWithoutOpeningHours : M (list string) :=
  current <~ getOpeningHours ;;
  let daysWithHours := map dayOfWeek current in
  mret (filter (fun day => negb (existsb (String.eqb day) daysWithHours)) allDays).

(** The field initialisers and the constructor; [envTimezone] is what
    [Intl.DateTimeFormat().resolvedOptions().timeZone] returns.  A throw in
    the constructor yields no object. *)
Definition freshService (envTimezone : string) : Service :=
  mkService [] envTimezone (opening_hours "Mo-Su closed").

Definition newService (envTimezone : string)
  (initialHours : option (list OpeningHoursInput)) (timezone : option string)
  : result Service :=
  let s := freshService envTimezone in
  let inputTimezone :=
    match timezone with
    | Some EmptyString | None => envTimezone
    | Some tz => tz
    end in
  match initialHours with
  | Some (spec :: rest) =>
      match setOpeningHours (spec :: rest) (Some inputTimezone) s with
      | (Ok _, s') => Ok s'
      | (Err e, _) => Err e
      end
  | _ => Ok s
  end.

(** *** Queries answered by the compiled engine

    Every [new Date()] that a method evaluates, in its body or as the
    default of its [date] parameter, is a parameter of the method here, in
    the order of evaluation.  A duration is a whole number of minutes. *)
Definition getOpeningHoursInstance : M Engine :=
  fun s => (Ok (openingHoursInstance s), s).

Definition isOpenNow `{OpeningHoursInstance Engine} (localNow : Z) : M bool :=
  engine <~ getOpeningHoursInstance ;;
  mret (instanceGetState engine localNow).

Definition isClosedNow `{OpeningHoursInstance Engine} (localNow : Z) : M bool :=
  openNow <~ isOpenNow localNow ;;
  mret (negb openNow).

Definition isOpenAt `{OpeningHoursInstance Engine} (date : Z) : M bool :=
  engine <~ getOpeningHoursInstance ;;
  mret (instanceGetState engine date).

Definition isClosedAt `{OpeningHoursInstance Engine} (date : Z) : M bool :=
  openAt <~ isOpenAt date ;;
  mret (negb openAt).

Definition getNextChange `{OpeningHoursInstance Engine} (date : Z) : M (option NextChange) :=
  engine <~ getOpeningHoursInstance ;;
  match instanceGetNextChange engine date with
  | None => mret None
  | Some nextChangeRaw =>
      let dateState := instanceGetState engine date in
      mret (Some (mkNextChange nextChangeRaw
                               (if dateState then StateClose else StateOpen)))
  end.

(** [this.isOpenNow() && this.getNextChange() === null]: the second clock
    reading is taken only when the first operand holds. *)
Definition isAlwaysOpen `{OpeningHoursInstance Engine} (now1 now2 : Z) : M bool :=
  openNow <~ isOpenNow now1 ;;
  if openNow
  then (nextChange <~ getNextChange now2 ;;
        mret match nextChange with None => true | Some _ => false end)
  else mret false.

Definition isAlwaysClosed `{OpeningHoursInstance Engine} (now1 now2 : Z) : M bool :=
  closedNow <~ isClosedNow now1 ;;
  if closedNow
  then (nextChange <~ getNextChange now2 ;;
        mret match nextChange with None => true | Some _ => false end)
  else mret false.

Definition maxTime : Z := 7 * 24 * 60.

Definition openMinutesWindow `{OpeningHoursInstance Engine} (date now1 now2 : Z) : M Z :=
  closed <~ isClosedAt date ;;
  if closed then mret 0
  else
    nextChange <~ getNextChange date ;;
    match nextChange with
    | None => mret maxTime
    | Some nextChange =>
        alwaysOpen <~ isAlwaysOpen now1 now2 ;;
        if alwaysOpen then mret maxTime
        else
          let timeUntilNextChange := change_date nextChange - date in
          mret (timeUntilNextChange / (60 * 1000))
    end.

Definition closeMinutesWindow `{OpeningHoursInstance Engine} (date now1 now2 : Z) : M Z :=
  isOpen <~ isOpenAt date ;;
  if isOpen then mret 0
  else
    nextChange <~ getNextChange date ;;
    match nextChange with
    | None => mret maxTime
    | Some nextChange =>
        alwaysClosed <~ isAlwaysClosed now1 now2 ;;
        if alwaysClosed then mret maxTime
        else
          let timeUntilNextChange := change_date nextChange - date in
          mret (timeUntilNextChange / (60 * 1000))
    end.

Definition isOpenForDuration `{OpeningHoursInstance Engine} (durationInMinutes date now1 now2 : Z) : M bool :=
  openWindow <~ openMinutesWindow date now1 now2 ;;
  mret (durationInMinutes <=? openWindow).

Definition isClosedForDuration `{OpeningHoursInstance Engine} (durationInMinutes date now1 now2 : Z) : M bool :=
  closeWindow <~ closeMinutesWindow date now1 now2 ;;
  mret (durationInMinutes <=? closeWindow).

(** The loop of [getNextOpeningTime] and [getNextClosingTime]: while the next
    change is one into [skipped], ask for the change after it.  [fuel] bounds
    the number of further changes asked for; the outer [None] says that the
    loop was still running when it was used up. *)
Fixpoint changeAfter `{OpeningHoursInstance Engine} (fuel : nat) (skipped : ChangeState)
  (nextChange : option NextChange) : M (option (option Z)) :=
  match nextChange with
  | None => mret (Some None)
  | Some change =>
      match change_state change, skipped with
      | StateOpen, StateClose | StateClose, StateOpen =>
          mret (Some (Some (change_date change)))
      | _, _ =>
          match fuel with
          | O => mret None
          | S fuel' =>
              nextChange <~ getNextChange (change_date change) ;;
              changeAfter fuel' skipped nextChange
          end
      end
  end.

Definition getNextOpeningTime `{OpeningHoursInstance Engine} (fuel : nat) (now : Z) : M (option (option Z)) :=
  nextChange <~ getNextChange now ;;
  changeAfter fuel StateClose nextChange.

Definition getNextClosingTime `{OpeningHoursInstance Engine} (fuel : nat) (now : Z) : M (option (option Z)) :=
  nextChange <~ getNextChange now ;;
  changeAfter fuel StateOpen nextChange.


(** ** Specification vocabulary *)

(** The Normalizer as one function: validate, convert, then sort, merge and
    check. *)
Definition normalize (hours : list OpeningHoursInput)
  (fromTimezone toTimezone : string) : result (list OpeningHoursSpecification) :=
  preprocessed <- preprocessOpeningHours hours ;;
  converted <- convertAll preprocessed fromTimezone toTimezone ;;
  combineAndCheckIntegrity converted.

(** The engine that [generateOpeningHoursInstance] compiles for a schedule. *)
Definition engineFor (hours : list OpeningHoursSpecification) : Engine :=
  let text := hoursString (groupByDay hours) in
  if String.eqb text "" then opening_hours "Mo-Su closed" else opening_hours text.

Definition zoneOr (timezone : option string) (s : Service) : string :=
  match timezone with
  | Some tz => tz
  | None => userTimezone s
  end.

(** The schedule as the range views see it in a zone. *)
Definition viewIn (timezone : string) (s : Service)
  : result (list OpeningHoursSpecification) :=
  if negb (String.eqb timezone (userTimezone s))
  then converted <- convertAll (openingHours s) (userTimezone s) timezone ;;
       combineAndCheckIntegrity converted
  else Ok (openingHours s).

(** States of a service object: a fresh object, then any number of mutating
    calls that returned (all in one reference week: the collaborators are
    those of the section). *)
Inductive reachable : Service -> Prop :=
| reach_fresh (envTimezone : string) :
    reachable (freshService envTimezone)
| reach_set (s s' : Service) hours timezone :
    reachable s ->
    setOpeningHours hours timezone s = (Ok tt, s') ->
    reachable s'
| reach_add (s s' : Service) day o c timezone :
    reachable s ->
    addOpeningHour day o c timezone s = (Ok tt, s') ->
    reachable s'
| reach_addBatch (s s' : Service) hours timezone :
    reachable s ->
    addOpeningHoursBatch hours timezone s = (Ok tt, s') ->
    reachable s'
| reach_remove (s s' : Service) day timezone :
    reachable s ->
    removeOpeningHoursForDay day timezone s = (Ok tt, s') ->
    reachable s'.


(** *** Well-formed times and the numeric reading of an entry *)

(** A slot is an entry read as numbers: the index of its weekday (Monday 0
    .. Sunday 6) and its two times in minutes after midnight. *)
Record Slot : Type := mkSlot {
  slotDay : Z;
  slotOpens : Z;
  slotCloses : Z
}.

Definition dayName (d : Z) : string := nth (Z.to_nat d) weekDays "undefined".

(** A closing time as the service writes it: the sentinel for 1440. *)
Definition formatCloses (c : Z) : string :=
  if c =? 1440 then "24:00" else formatHHmm c.

Definition render (x : Slot) : OpeningHoursSpecification :=
  mkSpec "OpeningHoursSpecification" (dayName (slotDay x))
         (formatHHmm (slotOpens x)) (formatCloses (slotCloses x)).

(** A time of the data model: HH:mm from 00:00 to 23:59, or 24:00. *)
Definition validTime (t : string) : Prop :=
  exists m, 0 <= m <= 1440 /\ t = formatCloses m.

Definition validDay (day : string) : Prop := In day weekDays.

(** The property names every object of JavaScript inherits from
    [Object.prototype]: looked up in the table of weekdays they are found,
    though they are no weekday. *)
Definition inheritedNames : list string :=
  ["constructor"; "__defineGetter__"; "__defineSetter__"; "hasOwnProperty";
   "__lookupGetter__"; "__lookupSetter__"; "isPrototypeOf";
   "propertyIsEnumerable"; "toString"; "valueOf"; "__proto__";
   "toLocaleString"].

(** A string that the table of weekdays does not hold, inherited names
    included: [convertDayStringToNumber] throws for it. *)
Definition unknownDay (day : string) : Prop :=
  ~ validDay day /\ ~ In day inheritedNames.

(** A time one of whose two fields reads as NaN. *)
Definition nanTime (t : string) : Prop :=
  fst (parseTime t) = None \/ snd (parseTime t) = None.

(** The character [c] occurs in [s]. *)
Fixpoint contains (c : ascii) (s : string) : bool :=
  match s with
  | EmptyString => false
  | String c' rest => Ascii.eqb c' c || contains c rest
  end.

(** The characters, digits apart, with which JavaScript writes a number:
    signs, the point, the exponent, the radix prefixes with the digits above
    9, and Infinity. *)
Definition numericLetters : string := "+-.abcdefABCDEFxXoOInity".

(** A visible ASCII character with which no number is written. *)
Definition neverNumeric (c : ascii) : bool :=
  let n := Z.of_nat (nat_of_ascii c) in
  (33 <=? n) && (n <=? 126) && negb ((48 <=? n) && (n <=? 57))
  && negb (contains c numericLetters).

(** A field that [Number] reads as NaN whatever else it holds: it holds a
    character with which no number is written. *)
Definition notANumber (field : string) : Prop :=
  exists c, contains c field = true /\ neverNumeric c = true.

(** A field that [Number] reads as the whole number it spells: at most 10
    decimal digits, so that the minutes are exact in a double and the date
    they are set on stays within the range of [Date]. *)
Definition plainNumber (field : string) : Prop :=
  (String.length field <= 10)%nat /\ digitsValue 0 field <> None.

(** A time that is not a number: its hour field or its minute field is not
    a number, or it has no minute field. *)
Definition unreadable (t : string) : Prop :=
  match split ":"%char t with
  | h :: mi :: _ => notANumber h \/ notANumber mi
  | _ => True
  end.

(** A time within the input domain of the embedding, which the source
    reads as the embedding does: each of its hour and minute fields is a
    plain number or not a number. *)
Definition plainTime (t : string) : Prop :=
  match split ":"%char t with
  | h :: mi :: _ =>
      (plainNumber h \/ notANumber h) /\ (plainNumber mi \/ notANumber mi)
  | [h] => plainNumber h \/ notANumber h
  | [] => True
  end.

Definition rangeZ (n : nat) : list Z := map Z.of_nat (seq 0 n).

(** Endpoints the conversion can produce: opens before 24:00, closes up to
    24:00; nothing yet about their order. *)
Definition slotOk (x : Slot) : Prop :=
  0 <= slotDay x < 7 /\ 0 <= slotOpens x < 1440 /\ 0 <= slotCloses x <= 1440.

Definition slotValid (x : Slot) : Prop :=
  0 <= slotDay x < 7 /\ 0 <= slotOpens x /\ slotOpens x < slotCloses x <= 1440.


(** *** The pipeline on slots *)

Definition compareSlots (x y : Slot) : Z :=
  if slotDay x =? slotDay y then slotOpens x - slotOpens y
  else slotDay x - slotDay y.

Fixpoint insertSlot (x : Slot) (l : list Slot) : list Slot :=
  match l with
  | [] => [x]
  | y :: rest =>
      if compareSlots x y <=? 0 then x :: y :: rest else y :: insertSlot x rest
  end.

Fixpoint sortSlots (l : list Slot) : list Slot :=
  match l with
  | [] => []
  | x :: rest => insertSlot x (sortSlots rest)
  end.

Definition adjacentSlots (x y : Slot) : bool :=
  (slotDay x =? slotDay y) && (Z.abs (slotCloses x - slotOpens y) <=? 1).

Fixpoint combineSlotsFrom (cur : Slot) (rest : list Slot) : list Slot :=
  match rest with
  | [] => [cur]
  | next :: rest' =>
      if adjacentSlots cur next
      then combineSlotsFrom
             (mkSlot (slotDay cur) (slotOpens cur)
                     (if slotCloses next <? slotCloses cur
                      then slotCloses cur else slotCloses next))
             rest'
      else cur :: combineSlotsFrom next rest'
  end.

Definition combineSlots (l : list Slot) : list Slot :=
  match l with
  | [] => []
  | first :: rest => combineSlotsFrom first rest
  end.

(** What [checkIntegrity] accepts, on slots with representable endpoints. *)
Fixpoint integral (l : list Slot) : Prop :=
  match l with
  | [] => True
  | x :: rest =>
      slotOpens x < slotCloses x /\
      match rest with
      | y :: _ => slotDay x = slotDay y -> slotCloses x <= slotOpens y
      | [] => True
      end /\
      integral rest
  end.

(** The order the sort establishes, and the order of a canonical schedule:
    a later day, or the same day at least two minutes after the close. *)
Definition keyLe (x y : Slot) : Prop :=
  slotDay x < slotDay y \/ (slotDay x = slotDay y /\ slotOpens x <= slotOpens y).

Definition follows (x y : Slot) : Prop :=
  slotDay x < slotDay y \/ (slotDay x = slotDay y /\ slotCloses x + 2 <= slotOpens y).

(** Consecutive entries after the merge: in key order and not adjacent. *)
Definition apart (x y : Slot) : Prop := keyLe x y /\ adjacentSlots x y = false.

Definition canonicalSlots (l : list Slot) : Prop :=
  Forall slotValid l /\ Sorted follows l.

Definition canonicalHours (hours : list OpeningHoursSpecification) : Prop :=
  exists slots, hours = map render slots /\ canonicalSlots slots.

(** The invariant of the object: a canonical schedule, held in a zone the
    timezone library knows as soon as the schedule has an entry. *)
Definition serviceInvariant (s : Service) : Prop :=
  canonicalHours (openingHours s) /\
  (openingHours s <> [] -> zoneOffset (userTimezone s) <> None).

(** *** The conversion on slots *)

(** [setHours(hours % 24, minutes)]: 24:00 is set as 00:00 of the same day. *)
Definition wallOf (t : Z) : Z := if t =? 1440 then 0 else t.

Definition convertedTime (shift t : Z) : Z := (wallOf t + shift) mod 1440.

Definition dayChange (shift d t : Z) : Z :=
  dateOf (d + (wallOf t + shift) / 1440) - dateOf d
  + (if t =? 1440 then 1 else 0).

Definition shiftDay (d change : Z) : Z := (d + change) mod 7.

Definition convertSlot (shift : Z) (x : Slot) : list Slot :=
  let opensTime := convertedTime shift (slotOpens x) in
  let closesTime := convertedTime shift (slotCloses x) in
  let opensDay := shiftDay (slotDay x) (dayChange shift (slotDay x) (slotOpens x)) in
  let closesDay := shiftDay (slotDay x) (dayChange shift (slotDay x) (slotCloses x)) in
  if opensDay =? closesDay then [mkSlot opensDay opensTime closesTime]
  else if closesTime =? 0 then [mkSlot opensDay opensTime 1440]
  else [mkSlot opensDay opensTime 1440; mkSlot closesDay 0 closesTime].


(** *** The canonical schedule in the words of the source *)

(** An entry the integrity check accepts: it does not open at 24:00, and
    its times are minutes with opens before closes and closes at most 1440. *)
Definition entryWellFormed (spec : OpeningHoursSpecification) : Prop :=
  opens spec <> "24:00" /\
  exists o c,
    convertTimeToMinutes (opens spec) = Some o /\
    convertTimeToMinutes (closes spec) = Some c /\
    o < c /\ c <= 1440.

(** [a] comes before [b]: on an earlier weekday (Monday 1 .. Sunday 7), or on
    the same weekday, opening no later and closing no later than [b] opens. *)
Definition entriesInOrder (a b : OpeningHoursSpecification) : Prop :=
  exists da db,
    convertDayStringToNumber (dayOfWeek a) = Ok da /\
    convertDayStringToNumber (dayOfWeek b) = Ok db /\
    (da < db \/
     (da = db /\
      exists oa ca ob,
        convertTimeToMinutes (opens a) = Some oa /\
        convertTimeToMinutes (closes a) = Some ca /\
        convertTimeToMinutes (opens b) = Some ob /\
        oa <= ob /\ ca <= ob)).

(** The ranges of one weekday, in schedule order. *)
Definition rangesOf (day : string) (hours : list OpeningHoursSpecification)
  : list OpenRange :=
  map (fun spec => mkRange (opens spec) (closes spec))
      (filter (fun spec => String.eqb (dayOfWeek spec) day) hours).

Definition opensEarlier (r1 r2 : OpenRange) : Prop :=
  exists o1 o2,
    convertTimeToMinutes (open r1) = Some o1 /\
    convertTimeToMinutes (open r2) = Some o2 /\ o1 < o2.


(** [follows] between well-formed slots, which makes it transitive. *)
Definition followsValid (x y : Slot) : Prop :=
  slotValid x /\ slotValid y /\ follows x y.


(** The table of [getOpenRangePerDay] once the entries [hours] are pushed. *)
Definition tableOf (hours : list OpeningHoursSpecification)
  : list (string * list OpenRange) :=
  map (fun day => (day, rangesOf day hours)) weekDays.


(** *** The week as a line of minutes *)

(** A slot on the line of the 10080 minutes of a week that starts on Monday
    at 00:00; [covered x p] reads [p] modulo the week. *)
Definition slotStart (x : Slot) : Z := 1440 * slotDay x + slotOpens x.
Definition slotEnd (x : Slot) : Z := 1440 * slotDay x + slotCloses x.

Definition covered (x : Slot) (p : Z) : Prop :=
  slotStart x <= p mod 10080 < slotEnd x.

Definition covers (l : list Slot) (p : Z) : Prop :=
  exists x, In x l /\ covered x p.

(** [x] lies wholly before [y] in the week. *)
Definition before (x y : Slot) : Prop :=
  slotDay x < slotDay y \/ (slotDay x = slotDay y /\ slotCloses x <= slotOpens y).

Definition separate (x y : Slot) : Prop := before x y \/ before y x.

(** A minute between two slots of a day that is the whole gap between them
    lies in a third slot. *)
Definition gapsFilled (l : list Slot) : Prop :=
  forall x y, In x l -> In y l ->
    slotDay x = slotDay y -> slotCloses x + 1 = slotOpens y ->
    exists z, In z l /\ slotDay z = slotDay x /\
              slotOpens z <= slotCloses x < slotCloses z.

Definition noIsolatedGap (cov : Z -> Prop) : Prop :=
  forall p, cov (p - 1) -> cov (p + 1) -> cov p.

(** Two slots one minute apart, the minute next to a midnight between them. *)
Definition midnightNearMiss (x y : Slot) : Prop :=
  slotDay y = (slotDay x + 1) mod 7 /\
  ((slotCloses x = 1439 /\ slotOpens y = 0) \/
   (slotCloses x = 1440 /\ slotOpens y = 1)).

(** The same on entries: [a] closes at 23:59 and [b] opens at 00:00 of the
    next weekday, or [a] closes at 24:00 and [b] opens at 00:01 of it. *)
Definition oneMinuteApartAcrossMidnight (a b : OpeningHoursSpecification) : Prop :=
  adjustDayOfWeek (dayOfWeek a) 1 = dayOfWeek b /\
  ((closes a = "23:59" /\ opens b = "00:00") \/
   (closes a = "24:00" /\ opens b = "00:01")).

(** The reference week lies within one calendar month: from two days before
    the anchor day of Monday to two days after that of Sunday, the day of the
    month grows with the day. *)
Definition weekWithinMonth : Prop :=
  forall i j, -2 <= i <= 8 -> -2 <= j <= 8 -> dateOf j - dateOf i = j - i.

(** No clock changes in the reference week where a conversion from or to
    [zone] looks: the machine shows the wall clock it is set to, and [zone]
    keeps the offset [zoneOffset] gives it (no start or end of daylight
    time among the reference instants). *)
Definition steady (zone : string) : Prop :=
  (forall w, machineWall clock w = w) /\
  (forall w, shiftAtWall clock zone w = 0) /\
  (forall u, shiftAtInstant clock zone u = 0).

(** The offsets of the zones of the world, UTC-12:00 to UTC+14:00; between
    two of them a wall clock moves by less than 26 hours either way. *)
Definition offsetInRange (off : Z) : Prop := -720 <= off <= 840.

Definition calendarFits (shift : Z) : Prop :=
  weekWithinMonth /\ -1560 <= shift <= 1560.


(** Two slots that share at most one minute: the tolerance of the merge. *)
Definition nearlyBefore (x y : Slot) : Prop :=
  slotDay x < slotDay y \/
  (slotDay x = slotDay y /\ slotCloses x <= slotOpens y + 1).

Definition nearlySeparate (x y : Slot) : Prop :=
  nearlyBefore x y \/ nearlyBefore y x.



(** Two entries of one weekday whose ranges have two minutes or more in
    common. *)
Definition shareTwoMinutes (a b : OpeningHoursSpecification) : Prop :=
  dayOfWeek a = dayOfWeek b /\
  exists oa ca ob cb,
    convertTimeToMinutes (opens a) = Some oa /\
    convertTimeToMinutes (closes a) = Some ca /\
    convertTimeToMinutes (opens b) = Some ob /\
    convertTimeToMinutes (closes b) = Some cb /\
    oa + 2 <= ca /\ ob + 2 <= cb /\ oa + 2 <= cb /\ ob + 2 <= ca.

(** [a] and [b] are two of the entries of [l], [a] standing first. *)
Definition twoOf (a b : OpeningHoursSpecification)
  (l : list OpeningHoursSpecification) : Prop :=
  exists l1 l2 l3, l = l1 ++ a :: l2 ++ b :: l3.

Definition isOverlapError (e : Error) : Prop :=
  exists day o1 c1 o2 c2, e = OverlapError day o1 c1 o2 c2.

(** What [validateOpeningHours] answers for a list of entries. *)
Definition validates (hours : list OpeningHoursInput) : bool :=
  match (preprocessed <- preprocessOpeningHours hours ;;
         checkIntegrity preprocessed) with
  | Ok _ => true
  | Err _ => false
  end.

(** *** Vocabulary of the further properties *)

(** The test of the inner loop of [combineAdjacentRanges]. *)
Definition mergeable (a b : OpeningHoursSpecification) : bool :=
  String.eqb (dayOfWeek a) (dayOfWeek b)
  && areTimesAdjacent (closes a) (opens b).

(** The ranges of a view by weekday, read back as entries. *)
Definition ungroup (perDay : list OpenRangePerDay)
  : list OpeningHoursSpecification :=
  flat_map
    (fun record =>
       map (fun range => mkSpec "OpeningHoursSpecification"
                                (perday_dayOfWeek record)
                                (open range) (range_closes range))
           (openRange record))
    perDay.

(** Minute [p] of the week, counted from Monday 00:00 and read modulo the
    week, lies in an entry of [hours]. *)
Definition openAtMinute (hours : list OpeningHoursSpecification) (p : Z) : Prop :=
  exists spec d o c,
    In spec hours /\
    convertDayStringToNumber (dayOfWeek spec) = Ok d /\
    convertTimeToMinutes (opens spec) = Some o /\
    convertTimeToMinutes (closes spec) = Some c /\
    1440 * (d - 1) + o <= p mod 10080 < 1440 * (d - 1) + c.

(** The errors a conversion followed by the merge and the check can throw. *)
Definition thrownByNormalizer (e : Error) : Prop :=
  match e with
  | InvalidWeekday _ | InvalidTimeValue | InvalidTimeRange _ _ _
  | OverlapError _ _ _ _ _ => True
  | InvalidOpeningTime _ | InvalidClosingTime _ _ => False
  end.

(** The minutes of the entries of a schedule, added up. *)
Definition totalMinutes (l : list Slot) : Z :=
  fold_right (fun x total => slotCloses x - slotOpens x + total) 0 l.


(** ** The monad: running the methods *)

Lemma getOpenRangePerDay_run (timezone : option string) (s : Service) :
  getOpenRangePerDay timezone s =
  (match viewIn (zoneOr timezone s) s with
   | Ok hours => Ok (groupByDay hours)
   | Err e => Err e
   end, s).
Proof.
  unfold getOpenRangePerDay, viewIn, mbind, orUserTimezone.
  destruct timezone as [tz|]; cbn.
  - destruct (negb (tz =? userTimezone s)%string); cbn; [|reflexivity].
    unfold liftR.
    destruct (convertAll (openingHours s) (userTimezone s) tz); cbn; [|reflexivity].
    destruct (combineAndCheckIntegrity a); reflexivity.
  - rewrite String.eqb_refl. reflexivity.
Qed.

Lemma viewIn_own (s : Service) : viewIn (userTimezone s) s = Ok (openingHours s).
Proof. unfold viewIn. now rewrite String.eqb_refl. Qed.

Lemma generateOpeningHoursInstance_run (s : Service) :
  generateOpeningHoursInstance s =
  (Ok tt, mkService (openingHours s) (userTimezone s) (engineFor (openingHours s))).
Proof.
  unfold generateOpeningHoursInstance, mbind.
  rewrite getOpenRangePerDay_run. cbn [zoneOr]. rewrite viewIn_own.
  unfold engineFor.
  destruct (hoursString (groupByDay (openingHours s)) =? "")%string; reflexivity.
Qed.

Lemma setOpeningHours_run hours timezone (s : Service) :
  setOpeningHours hours timezone s =
  match normalize hours (zoneOr timezone s) (userTimezone s) with
  | Ok combined =>
      (Ok tt, mkService combined (userTimezone s) (engineFor combined))
  | Err e => (Err e, s)
  end.
Proof.
  unfold setOpeningHours, normalize, mbind, orUserTimezone, liftR.
  destruct timezone as [tz|]; cbn;
    (destruct (preprocessOpeningHours hours) as [pre|]; cbn; [|reflexivity]);
    (destruct (convertAll pre _ (userTimezone s)) as [conv|]; cbn; [|reflexivity]);
    (destruct (combineAndCheckIntegrity conv) as [comb|]; cbn; [|reflexivity]);
    now rewrite generateOpeningHoursInstance_run.
Qed.

Lemma addOpeningHoursBatch_run hours timezone (s : Service) :
  addOpeningHoursBatch hours timezone s =
  match (preprocessed <- preprocessOpeningHours hours ;;
         converted <- convertAll preprocessed (zoneOr timezone s) (userTimezone s) ;;
         combineAndCheckIntegrity (openingHours s ++ converted)) with
  | Ok combined =>
      (Ok tt, mkService combined (userTimezone s) (engineFor combined))
  | Err e => (Err e, s)
  end.
Proof.
  unfold addOpeningHoursBatch, mbind, orUserTimezone, liftR.
  destruct timezone as [tz|]; cbn;
    (destruct (preprocessOpeningHours hours) as [pre|]; cbn; [|reflexivity]);
    (destruct (convertAll pre _ (userTimezone s)) as [conv|]; cbn; [|reflexivity]);
    (destruct (combineAndCheckIntegrity (openingHours s ++ conv)) as [comb|];
     cbn; [|reflexivity]);
    now rewrite generateOpeningHoursInstance_run.
Qed.

Lemma addOpeningHour_run day o c timezone (s : Service) :
  addOpeningHour day o c timezone s =
  addOpeningHoursBatch
    [mkInput "OpeningHoursSpecification" (OneDay day) o c]
    (Some (zoneOr timezone s)) s.
Proof.
  unfold addOpeningHour, mbind, orUserTimezone.
  destruct timezone; reflexivity.
Qed.

Lemma removeOpeningHoursForDay_run day timezone (s : Service) :
  removeOpeningHoursForDay day timezone s =
  match (hours <- viewIn (zoneOr timezone s) s ;;
         combineAndCheckIntegrity
           (filter (fun spec => negb (String.eqb (dayOfWeek spec) day)) hours)) with
  | Ok combined =>
      setOpeningHours (map toInput combined) (Some (zoneOr timezone s)) s
  | Err e => (Err e, s)
  end.
Proof.
  unfold removeOpeningHoursForDay, viewIn, mbind, orUserTimezone, liftR.
  destruct timezone as [tz|]; cbn.
  - destruct (negb (tz =? userTimezone s)%string); cbn.
    + destruct (convertAll (openingHours s) (userTimezone s) tz); cbn; [|reflexivity].
      destruct (combineAndCheckIntegrity a); cbn; [|reflexivity].
      destruct (combineAndCheckIntegrity (filter _ a0)); reflexivity.
    + destruct (combineAndCheckIntegrity (filter _ (openingHours s))); reflexivity.
  - rewrite String.eqb_refl. cbn.
    destruct (combineAndCheckIntegrity (filter _ (openingHours s))); reflexivity.
Qed.

Lemma exportOpeningHours_run timezone (s : Service) :
  exportOpeningHours timezone s =
  (converted <- convertAll (openingHours s) (userTimezone s) (zoneOr timezone s) ;;
   combineAndCheckIntegrity converted, s).
Proof.
  unfold exportOpeningHours, mbind, orUserTimezone, liftR.
  destruct timezone as [tz|]; cbn;
    destruct (convertAll (openingHours s) (userTimezone s) _); reflexivity.
Qed.



(** ** Times and weekdays as strings *)

Lemma in_rangeZ (n : nat) (m : Z) : 0 <= m < Z.of_nat n -> In m (rangeZ n).
Proof.
  intros H. unfold rangeZ. apply in_map_iff. exists (Z.to_nat m). split.
  - lia.
  - apply in_seq. lia.
Qed.

Lemma forallb_rangeZ (P : Z -> bool) (n : nat) :
  forallb P (rangeZ n) = true -> forall m, 0 <= m < Z.of_nat n -> P m = true.
Proof.
  intros H m Hm. rewrite forallb_forall in H. apply H, in_rangeZ, Hm.
Qed.

Lemma parseTime_formatHHmm (m : Z) :
  0 <= m < 1440 -> parseTime (formatHHmm m) = (Some (m / 60), Some (m mod 60)).
Proof.
  intros Hm.
  pose (P := fun m =>
               match parseTime (formatHHmm m) with
               | (Some h, Some mi) => (h =? m / 60) && (mi =? m mod 60)
               | _ => false
               end).
  assert (HP : P m = true).
  { apply (forallb_rangeZ P 1440); [vm_compute; reflexivity | lia]. }
  unfold P in HP.
  destruct (parseTime (formatHHmm m)) as [[h|] [mi|]]; try discriminate.
  apply andb_true_iff in HP. destruct HP as [H1 H2].
  apply Z.eqb_eq in H1, H2. now subst.
Qed.

Lemma minutes_formatHHmm (m : Z) :
  0 <= m < 1440 -> convertTimeToMinutes (formatHHmm m) = Some m.
Proof.
  intros Hm. unfold convertTimeToMinutes. rewrite parseTime_formatHHmm by assumption.
  assert (m / 60 < 24) by (apply Z.div_lt_upper_bound; lia).
  replace (m / 60 =? 24) with false by (symmetry; apply Z.eqb_neq; lia).
  cbn. f_equal. pose proof (Z.div_mod m 60). lia.
Qed.

Lemma minutes_formatCloses (c : Z) :
  0 <= c <= 1440 -> convertTimeToMinutes (formatCloses c) = Some c.
Proof.
  intros Hc. unfold formatCloses. destruct (Z.eqb_spec c 1440) as [->|Hne].
  - reflexivity.
  - apply minutes_formatHHmm. lia.
Qed.

Lemma formatHHmm_eqb (m n : Z) :
  0 <= m < 1440 -> 0 <= n < 1440 ->
  String.eqb (formatHHmm m) (formatHHmm n) = (m =? n).
Proof.
  intros Hm Hn. destruct (Z.eqb_spec m n) as [->|Hne].
  - apply String.eqb_refl.
  - apply String.eqb_neq. intros Heq.
    pose proof (minutes_formatHHmm m Hm) as H1.
    rewrite Heq, minutes_formatHHmm in H1 by assumption. congruence.
Qed.

Lemma formatCloses_eqb (m n : Z) :
  0 <= m <= 1440 -> 0 <= n <= 1440 ->
  String.eqb (formatCloses m) (formatCloses n) = (m =? n).
Proof.
  intros Hm Hn. destruct (Z.eqb_spec m n) as [->|Hne].
  - apply String.eqb_refl.
  - apply String.eqb_neq. intros Heq.
    pose proof (minutes_formatCloses m Hm) as H1.
    rewrite Heq, minutes_formatCloses in H1 by assumption. congruence.
Qed.

Lemma formatHHmm_not_sentinel (m : Z) :
  0 <= m < 1440 -> String.eqb (formatHHmm m) "24:00" = false.
Proof.
  intros Hm. apply String.eqb_neq. intros Heq.
  pose proof (minutes_formatHHmm m Hm) as H1. rewrite Heq in H1.
  cbv in H1. inversion H1. lia.
Qed.

Lemma formatHHmm_midnight (m : Z) :
  0 <= m < 1440 -> String.eqb (formatHHmm m) "00:00" = (m =? 0).
Proof.
  intros Hm. change "00:00" with (formatHHmm 0). apply formatHHmm_eqb; lia.
Qed.

Lemma formatCloses_sentinel (c : Z) :
  0 <= c <= 1440 -> String.eqb (formatCloses c) "24:00" = (c =? 1440).
Proof.
  intros Hc. change "24:00" with (formatCloses 1440). apply formatCloses_eqb; lia.
Qed.

Lemma day_cases (d : Z) :
  0 <= d < 7 -> d = 0 \/ d = 1 \/ d = 2 \/ d = 3 \/ d = 4 \/ d = 5 \/ d = 6.
Proof. lia. Qed.

Ltac each_day H :=
  let C := fresh in
  pose proof (day_cases _ H) as C;
  repeat (destruct C as [C|C]; [subst|]); subst.

Lemma indexOf_dayName (d : Z) : 0 <= d < 7 -> indexOf (dayName d) weekDays = d.
Proof. intros H. each_day H; reflexivity. Qed.

Lemma dayName_valid (d : Z) : 0 <= d < 7 -> validDay (dayName d).
Proof. intros H. unfold validDay. each_day H; cbn; tauto. Qed.

Lemma validDay_dayName (day : string) :
  validDay day -> exists d, 0 <= d < 7 /\ day = dayName d.
Proof.
  unfold validDay. cbn. intros H.
  repeat (destruct H as [H|H];
          [first [exists 0; split; [lia|now subst]
                 |exists 1; split; [lia|now subst]
                 |exists 2; split; [lia|now subst]
                 |exists 3; split; [lia|now subst]
                 |exists 4; split; [lia|now subst]
                 |exists 5; split; [lia|now subst]
                 |exists 6; split; [lia|now subst]]|]).
  contradiction.
Qed.

Lemma dayName_eqb (d1 d2 : Z) :
  0 <= d1 < 7 -> 0 <= d2 < 7 ->
  String.eqb (dayName d1) (dayName d2) = (d1 =? d2).
Proof. intros H1 H2. each_day H1; each_day H2; reflexivity. Qed.

Lemma convertDayStringToNumber_dayName (d : Z) :
  0 <= d < 7 -> convertDayStringToNumber (dayName d) = Ok (d + 1).
Proof.
  intros H. unfold convertDayStringToNumber. rewrite indexOf_dayName by assumption.
  destruct (Z.ltb_spec d 0); [lia|reflexivity].
Qed.

Lemma indexOf_absent (x : string) (l : list string) :
  ~ In x l -> indexOf x l = -1.
Proof.
  induction l as [|y l IH]; intros H; [reflexivity|].
  cbn [indexOf]. destruct (String.eqb_spec y x) as [->|Hne].
  - exfalso. apply H. now left.
  - rewrite IH by (intros Hin; apply H; now right). reflexivity.
Qed.

Lemma convertDayStringToNumber_invalid (day : string) :
  ~ validDay day -> convertDayStringToNumber day = Err (InvalidWeekday day).
Proof.
  intros H. unfold convertDayStringToNumber.
  rewrite indexOf_absent by exact H. reflexivity.
Qed.

Lemma normalizeDayOfWeek_dayName (d : Z) :
  0 <= d < 7 -> normalizeDayOfWeek (dayName d) = dayName d.
Proof. intros H. each_day H; reflexivity. Qed.


(** ** The pipeline on rendered slots *)

Lemma minutes_opens_render (x : Slot) :
  slotOk x -> convertTimeToMinutes (opens (render x)) = Some (slotOpens x).
Proof. intros (_ & Ho & _). apply minutes_formatHHmm, Ho. Qed.

Lemma minutes_closes_render (x : Slot) :
  slotOk x -> convertTimeToMinutes (closes (render x)) = Some (slotCloses x).
Proof. intros (_ & _ & Hc). apply minutes_formatCloses, Hc. Qed.

Lemma day_render_eqb (x y : Slot) :
  slotOk x -> slotOk y ->
  String.eqb (dayOfWeek (render x)) (dayOfWeek (render y))
  = (slotDay x =? slotDay y).
Proof. intros (Hx & _) (Hy & _). now apply dayName_eqb. Qed.

Lemma compareOpeningHours_render (x y : Slot) :
  slotOk x -> slotOk y ->
  compareOpeningHours (render x) (render y) = Ok (Some (compareSlots x y)).
Proof.
  intros Hx Hy. unfold compareOpeningHours, compareSlots.
  rewrite minutes_opens_render, minutes_opens_render by assumption.
  destruct Hx as (Hx & _), Hy as (Hy & _). cbn [render dayOfWeek].
  rewrite !convertDayStringToNumber_dayName by assumption. cbn [rbind js_sub].
  destruct (Z.eqb_spec (slotDay x) (slotDay y)) as [Heq|Hne].
  - rewrite Heq, Z.eqb_refl. reflexivity.
  - replace (slotDay x + 1 =? slotDay y + 1) with false
      by (symmetry; apply Z.eqb_neq; lia).
    cbn. do 2 f_equal. lia.
Qed.

Lemma insertSlot_ok (x : Slot) (l : list Slot) :
  slotOk x -> Forall slotOk l -> Forall slotOk (insertSlot x l).
Proof.
  intros Hx. induction 1 as [|y rest Hy Hrest IH]; cbn.
  - now constructor.
  - destruct (compareSlots x y <=? 0).
    + constructor; [assumption|]. constructor; assumption.
    + constructor; assumption.
Qed.

Lemma sortSlots_ok (l : list Slot) : Forall slotOk l -> Forall slotOk (sortSlots l).
Proof.
  induction 1 as [|x rest Hx Hrest IH]; cbn; [constructor|].
  now apply insertSlot_ok.
Qed.

Lemma insertBy_render (x : Slot) (l : list Slot) :
  slotOk x -> Forall slotOk l ->
  insertBy compareOpeningHours (render x) (map render l)
  = Ok (map render (insertSlot x l)).
Proof.
  intros Hx. induction 1 as [|y rest Hy Hrest IH]; cbn [map insertBy insertSlot].
  - reflexivity.
  - rewrite compareOpeningHours_render by assumption. cbn [rbind precedes].
    destruct (compareSlots x y <=? 0); [reflexivity|].
    rewrite IH. reflexivity.
Qed.

Lemma sortBy_render (l : list Slot) :
  Forall slotOk l ->
  sortBy compareOpeningHours (map render l) = Ok (map render (sortSlots l)).
Proof.
  induction 1 as [|x rest Hx Hrest IH]; cbn [map sortBy sortSlots]; [reflexivity|].
  rewrite IH. cbn [rbind]. apply insertBy_render; [assumption|].
  now apply sortSlots_ok.
Qed.

Lemma areTimesAdjacent_render (x y : Slot) :
  slotOk x -> slotOk y ->
  areTimesAdjacent (closes (render x)) (opens (render y))
  = (Z.abs (slotCloses x - slotOpens y) <=? 1).
Proof.
  intros Hx Hy. unfold areTimesAdjacent.
  rewrite minutes_closes_render, minutes_opens_render by assumption. reflexivity.
Qed.

Lemma timeIsBefore_closes_render (x y : Slot) :
  slotOk x -> slotOk y ->
  timeIsBefore (closes (render x)) (closes (render y))
  = (slotCloses x <? slotCloses y).
Proof.
  intros Hx Hy. unfold timeIsBefore.
  rewrite !minutes_closes_render by assumption. reflexivity.
Qed.

Lemma combineFrom_render (rest : list Slot) :
  Forall slotOk rest -> forall cur, slotOk cur ->
  combineFrom (render cur) (map render rest)
  = map render (combineSlotsFrom cur rest) /\
  Forall slotOk (combineSlotsFrom cur rest).
Proof.
  induction 1 as [|next rest' Hnext Hrest IH]; intros cur Hcur;
    cbn [map combineFrom combineSlotsFrom].
  - split; [reflexivity|]. constructor; [assumption|constructor].
  - rewrite day_render_eqb, areTimesAdjacent_render, timeIsBefore_closes_render
      by assumption.
    unfold adjacentSlots.
    destruct ((slotDay cur =? slotDay next)
              && (Z.abs (slotCloses cur - slotOpens next) <=? 1)).
    + match goal with
      | |- combineFrom ?r _ = map render (combineSlotsFrom ?c _) /\ _ =>
          assert (Hc : slotOk c /\ r = render c)
      end.
      { destruct Hcur as (Hd & Ho & Hc), Hnext as (Hd' & Ho' & Hc').
        split.
        - unfold slotOk. cbn. destruct (slotCloses next <? slotCloses cur); lia.
        - unfold withCloses, render. cbn.
          destruct (slotCloses next <? slotCloses cur); reflexivity. }
      destruct Hc as [Hok ->]. apply IH, Hok.
    + destruct (IH next Hnext) as [-> Hall]. split; [reflexivity|].
      now constructor.
Qed.

Lemma combineAdjacentRanges_render (l : list Slot) :
  Forall slotOk l ->
  combineAdjacentRanges (map render l) = map render (combineSlots l) /\
  Forall slotOk (combineSlots l).
Proof.
  intros H. destruct H as [|x rest Hx Hrest]; cbn [map combineAdjacentRanges combineSlots].
  - split; [reflexivity|constructor].
  - now apply combineFrom_render.
Qed.

Lemma checkEntry_render (x : Slot) (next : option Slot) :
  slotOk x ->
  match next with Some y => slotOk y | None => True end ->
  checkEntry (render x) (option_map render next) =
  if slotCloses x <=? slotOpens x
  then Err (InvalidTimeRange (dayOfWeek (render x)) (opens (render x))
                             (closes (render x)))
  else match next with
       | Some y =>
           if (slotDay x =? slotDay y) && (slotOpens y <? slotCloses x)
           then Err (OverlapError (dayOfWeek (render x))
                                  (opens (render x)) (closes (render x))
                                  (opens (render y)) (closes (render y)))
           else Ok tt
       | None => Ok tt
       end.
Proof.
  intros Hx Hnext. unfold checkEntry.
  rewrite minutes_opens_render, minutes_closes_render by assumption.
  assert (Hs : String.eqb (opens (render x)) "24:00" = false)
    by (apply formatHHmm_not_sentinel, Hx).
  rewrite Hs. cbn [js_le js_lt].
  destruct (slotCloses x <=? slotOpens x); [reflexivity|].
  replace (1440 <? slotCloses x) with false
    by (symmetry; apply Z.ltb_ge; destruct Hx as (_ & _ & Hc); lia).
  destruct next as [y|]; cbn [option_map]; [|reflexivity].
  rewrite day_render_eqb, minutes_opens_render by assumption. reflexivity.
Qed.

Lemma hd_error_map {A B : Type} (f : A -> B) (l : list A) :
  hd_error (map f l) = option_map f (hd_error l).
Proof. destruct l; reflexivity. Qed.

Lemma checkIntegrity_render (l : list Slot) :
  Forall slotOk l ->
  checkIntegrity (map render l) = Ok tt <-> integral l.
Proof.
  induction 1 as [|x rest Hx Hrest IH]; cbn [map checkIntegrity integral].
  - tauto.
  - rewrite hd_error_map, checkEntry_render; [|assumption|].
    2:{ destruct Hrest; cbn; [exact I|assumption]. }
    destruct (Z.leb_spec (slotCloses x) (slotOpens x)).
    { cbn. split; [discriminate|intros [H' _]; lia]. }
    destruct rest as [|y rest']; cbn [hd_error rbind].
    + rewrite IH. cbn in *. intuition lia.
    + destruct (Z.eqb_spec (slotDay x) (slotDay y)),
               (Z.ltb_spec (slotOpens y) (slotCloses x)); cbn [andb rbind];
        rewrite ?IH; cbn [integral] in *; intuition (try discriminate; try lia).
Qed.

Lemma slotValid_ok (x : Slot) : slotValid x -> slotOk x.
Proof. unfold slotValid, slotOk. lia. Qed.

(** With every range well-formed, the only complaint of [checkIntegrity] is
    an overlap. *)
Lemma checkIntegrity_valid_slots (l : list Slot) :
  Forall slotValid l ->
  checkIntegrity (map render l) = Ok tt \/
  exists day o1 c1 o2 c2,
    checkIntegrity (map render l) = Err (OverlapError day o1 c1 o2 c2).
Proof.
  induction 1 as [|x rest Hx Hrest IH]; cbn [map checkIntegrity]; [now left|].
  assert (Hok : Forall slotOk (x :: rest)).
  { constructor; [now apply slotValid_ok|].
    eapply Forall_impl; [|exact Hrest]. apply slotValid_ok. }
  rewrite hd_error_map, checkEntry_render.
  2:{ now inversion Hok. }
  2:{ inversion Hok as [|? ? _ Hr]; subst. destruct Hr; cbn; [exact I|assumption]. }
  replace (slotCloses x <=? slotOpens x) with false
    by (symmetry; apply Z.leb_gt; unfold slotValid in Hx; lia).
  destruct rest as [|y rest']; cbn [hd_error].
  - cbn. now left.
  - destruct ((slotDay x =? slotDay y) && (slotOpens y <? slotCloses x)).
    + right. cbn. eauto 10.
    + cbn [rbind]. exact IH.
Qed.


(** ** Sorting and merging slots *)

Lemma compareSlots_keyLe (x y : Slot) : compareSlots x y <= 0 <-> keyLe x y.
Proof.
  unfold compareSlots, keyLe.
  destruct (Z.eqb_spec (slotDay x) (slotDay y)); lia.
Qed.

Lemma keyLe_total (x y : Slot) : ~ keyLe x y -> keyLe y x.
Proof. unfold keyLe. lia. Qed.

Lemma keyLe_trans (x y z : Slot) : keyLe x y -> keyLe y z -> keyLe x z.
Proof. unfold keyLe. lia. Qed.

Lemma insertSlot_hd (R : Slot -> Slot -> Prop) (a x : Slot) (l : list Slot) :
  R a x -> HdRel R a l -> HdRel R a (insertSlot x l).
Proof.
  intros Hax Hal. destruct l as [|y rest]; cbn.
  - now constructor.
  - destruct (compareSlots x y <=? 0); constructor; [assumption|].
    now inversion Hal.
Qed.

Lemma insertSlot_sorted (x : Slot) (l : list Slot) :
  Sorted keyLe l -> Sorted keyLe (insertSlot x l).
Proof.
  induction 1 as [|y rest Hrest IH Hhd]; cbn.
  - repeat constructor.
  - destruct (Z.leb_spec (compareSlots x y) 0) as [Hle|Hgt].
    + constructor; [now constructor|]. constructor. now apply compareSlots_keyLe.
    + constructor; [exact IH|]. apply insertSlot_hd; [|exact Hhd].
      apply keyLe_total. rewrite <- compareSlots_keyLe. lia.
Qed.

Lemma sortSlots_sorted (l : list Slot) : Sorted keyLe (sortSlots l).
Proof.
  induction l as [|x rest IH]; cbn; [constructor|]. now apply insertSlot_sorted.
Qed.

Lemma insertSlot_perm (x : Slot) (l : list Slot) :
  Permutation (x :: l) (insertSlot x l).
Proof.
  induction l as [|y rest IH]; cbn; [reflexivity|].
  destruct (compareSlots x y <=? 0); [reflexivity|].
  rewrite perm_swap. now constructor.
Qed.

Lemma sortSlots_perm (l : list Slot) : Permutation l (sortSlots l).
Proof.
  induction l as [|x rest IH]; cbn; [constructor|].
  rewrite <- insertSlot_perm. now constructor.
Qed.

(** A sorted list is left as it is. *)
Lemma insertSlot_first (x : Slot) (l : list Slot) :
  HdRel keyLe x l -> insertSlot x l = x :: l.
Proof.
  intros H. destruct l as [|y rest]; cbn; [reflexivity|].
  inversion H as [|? ? Hxy]; subst. apply compareSlots_keyLe in Hxy.
  destruct (Z.leb_spec (compareSlots x y) 0); [reflexivity|lia].
Qed.

Lemma sortSlots_sorted_id (l : list Slot) : Sorted keyLe l -> sortSlots l = l.
Proof.
  induction 1 as [|x rest Hrest IH Hhd]; cbn; [reflexivity|].
  rewrite IH. now apply insertSlot_first.
Qed.

Lemma combineSlotsFrom_sorted (rest : list Slot) :
  forall cur, Sorted keyLe (cur :: rest) ->
  Sorted apart (combineSlotsFrom cur rest) /\
  exists c tl, combineSlotsFrom cur rest = mkSlot (slotDay cur) (slotOpens cur) c :: tl.
Proof.
  induction rest as [|next rest' IH]; intros cur Hs; cbn [combineSlotsFrom].
  - split; [repeat constructor|]. destruct cur; cbn; eauto.
  - inversion Hs as [|? ? Hrest Hhd]; subst.
    inversion Hhd as [|? ? Hcn]; subst.
    destruct (adjacentSlots cur next) eqn:Hadj.
    + match goal with
      | |- Sorted apart (combineSlotsFrom ?c _) /\ _ =>
          destruct (IH c) as [Hsorted (c' & tl & Heq)]
      end.
      { inversion Hrest as [|? ? Hrest' Hhd']; subst.
        constructor; [assumption|].
        destruct rest' as [|z rest'']; constructor.
        inversion Hhd' as [|? ? Hnz]; subst.
        pose proof (keyLe_trans _ _ _ Hcn Hnz) as H. unfold keyLe in *. cbn. exact H. }
      split; [exact Hsorted|]. cbn in Heq. eauto.
    + destruct (IH next Hrest) as [Hsorted (c' & tl & Heq)].
      split.
      * constructor; [exact Hsorted|]. rewrite Heq. constructor.
        split; [exact Hcn|]. unfold adjacentSlots in *. cbn. exact Hadj.
      * destruct cur; cbn; eauto.
Qed.

Lemma combineSlots_sorted (l : list Slot) :
  Sorted keyLe l -> Sorted apart (combineSlots l).
Proof.
  intros H. destruct l as [|x rest]; cbn; [constructor|].
  now apply combineSlotsFrom_sorted.
Qed.

Lemma apart_integral_canonical (l : list Slot) :
  Forall slotOk l -> Sorted apart l -> integral l -> canonicalSlots l.
Proof.
  unfold canonicalSlots.
  induction 1 as [|x rest Hx Hrest IH]; intros Hs Hi; [split; constructor|].
  inversion Hs as [|? ? Hs' Hhd]; subst. cbn [integral] in Hi.
  destruct Hi as (Hoc & Hnext & Hi'). destruct (IH Hs' Hi') as [Hvalid Hsorted].
  split.
  - constructor; [|exact Hvalid]. unfold slotOk, slotValid in *. lia.
  - constructor; [exact Hsorted|].
    destruct rest as [|y rest']; constructor.
    inversion Hhd as [|? ? [Hkey Hadj]]; subst.
    unfold keyLe, follows, adjacentSlots in *.
    destruct Hkey as [Hlt|[Heq Hle]]; [now left|right].
    split; [exact Heq|]. specialize (Hnext Heq).
    rewrite Heq, Z.eqb_refl in Hadj. cbn in Hadj. apply Z.leb_gt in Hadj. lia.
Qed.

(** The same facts read backwards: a canonical list passes the pipeline
    unchanged. *)
Lemma follows_keyLe (x y : Slot) : slotValid x -> follows x y -> keyLe x y.
Proof. unfold slotValid, follows, keyLe. lia. Qed.

Lemma canonical_sorted_keyLe (l : list Slot) :
  canonicalSlots l -> Sorted keyLe l.
Proof.
  intros [Hv Hs]. induction Hs as [|x rest Hrest IH Hhd]; [constructor|].
  inversion Hv; subst. constructor; [now apply IH|].
  destruct Hhd; constructor. now apply follows_keyLe.
Qed.

Lemma follows_not_adjacent (x y : Slot) : follows x y -> adjacentSlots x y = false.
Proof.
  unfold follows, adjacentSlots. intros [H|[H1 H2]].
  - replace (slotDay x =? slotDay y) with false; [reflexivity|].
    symmetry. apply Z.eqb_neq. lia.
  - rewrite H1, Z.eqb_refl. cbn. apply Z.leb_gt. lia.
Qed.

Lemma combineSlotsFrom_canonical (rest : list Slot) (cur : Slot) :
  Sorted follows (cur :: rest) -> combineSlotsFrom cur rest = cur :: rest.
Proof.
  revert cur. induction rest as [|next rest' IH]; intros cur Hs; [reflexivity|].
  inversion Hs as [|? ? Hrest Hhd]; subst. inversion Hhd; subst.
  cbn [combineSlotsFrom]. rewrite follows_not_adjacent by assumption.
  now rewrite IH.
Qed.

Lemma combineSlots_canonical (l : list Slot) :
  canonicalSlots l -> combineSlots l = l.
Proof.
  intros [_ Hs]. destruct l; [reflexivity|]. now apply combineSlotsFrom_canonical.
Qed.

Lemma canonical_integral (l : list Slot) : canonicalSlots l -> integral l.
Proof.
  intros [Hv Hs]. induction Hs as [|x rest Hrest IH Hhd]; [exact I|].
  inversion Hv as [|? ? Hx Hv']; subst. cbn [integral].
  split; [unfold slotValid in Hx; lia|]. split; [|now apply IH].
  destruct Hhd as [|y rest' Hxy]; [exact I|].
  unfold follows in Hxy. lia.
Qed.

Lemma canonical_ok (l : list Slot) : canonicalSlots l -> Forall slotOk l.
Proof. intros [Hv _]. eapply Forall_impl; [|exact Hv]. apply slotValid_ok. Qed.

(** [combineAndCheckIntegrity] on rendered slots. *)
Lemma combineAndCheckIntegrity_render (l : list Slot) :
  Forall slotOk l ->
  combineAndCheckIntegrity (map render l) =
  (_ <- checkIntegrity (map render (combineSlots (sortSlots l))) ;;
   Ok (map render (combineSlots (sortSlots l)))).
Proof.
  intros H. unfold combineAndCheckIntegrity.
  rewrite sortBy_render by assumption. cbn [rbind].
  destruct (combineAdjacentRanges_render (sortSlots l) (sortSlots_ok l H)) as [-> _].
  reflexivity.
Qed.

Lemma combineAndCheckIntegrity_canonical (l : list Slot)
  (combined : list OpeningHoursSpecification) :
  Forall slotOk l ->
  combineAndCheckIntegrity (map render l) = Ok combined ->
  combined = map render (combineSlots (sortSlots l)) /\
  canonicalSlots (combineSlots (sortSlots l)).
Proof.
  intros H. rewrite combineAndCheckIntegrity_render by assumption.
  destruct (checkIntegrity _) as [[]|] eqn:Hcheck; [|discriminate].
  cbn. intros Heq. inversion Heq; subst. split; [reflexivity|].
  destruct (combineAdjacentRanges_render (sortSlots l) (sortSlots_ok l H)) as [_ Hok].
  apply apart_integral_canonical.
  - exact Hok.
  - apply combineSlots_sorted, sortSlots_sorted.
  - now apply checkIntegrity_render.
Qed.

Lemma combineAndCheckIntegrity_id (l : list Slot) :
  canonicalSlots l -> combineAndCheckIntegrity (map render l) = Ok (map render l).
Proof.
  intros H. rewrite combineAndCheckIntegrity_render by now apply canonical_ok.
  rewrite sortSlots_sorted_id by now apply canonical_sorted_keyLe.
  rewrite combineSlots_canonical by assumption.
  replace (checkIntegrity (map render l)) with (@Ok unit tt); [reflexivity|].
  symmetry. apply checkIntegrity_render; [now apply canonical_ok|].
  now apply canonical_integral.
Qed.


(** ** The conversion on rendered slots *)

Lemma rem_fixup (a : Z) :
  (if Z.rem a 7 <? 0 then Z.rem a 7 + 7 else Z.rem a 7) = a mod 7.
Proof.
  pose proof (Z.quot_rem' a 7) as Hqr.
  assert (Hb : Z.abs (Z.rem a 7) < Z.abs 7) by (apply Z.rem_bound_abs; lia).
  destruct (Z.ltb_spec (Z.rem a 7) 0) as [Hneg|Hpos].
  - apply Z.mod_unique_pos with (q := a ÷ 7 - 1); lia.
  - apply Z.mod_unique_pos with (q := a ÷ 7); lia.
Qed.

Lemma adjustDayOfWeek_dayName (d change : Z) :
  0 <= d < 7 -> adjustDayOfWeek (dayName d) change = dayName (shiftDay d change).
Proof.
  intros Hd. unfold adjustDayOfWeek. rewrite indexOf_dayName by assumption.
  cbv zeta. rewrite rem_fixup. reflexivity.
Qed.

Lemma shiftDay_range (d change : Z) : 0 <= shiftDay d change < 7.
Proof. unfold shiftDay. apply Z.mod_pos_bound. lia. Qed.

Lemma convertedTime_range (shift t : Z) : 0 <= convertedTime shift t < 1440.
Proof. unfold convertedTime. apply Z.mod_pos_bound. lia. Qed.

Lemma validDay_of_number (day : string) (n : Z) :
  convertDayStringToNumber day = Ok n -> validDay day.
Proof.
  intros H. destruct (in_dec string_dec day weekDays) as [Hin|Hout]; [exact Hin|].
  rewrite convertDayStringToNumber_invalid in H by exact Hout. discriminate.
Qed.

(** Whatever the strings given, a conversion that returns yields a time
    HH:mm before 24:00. *)
Lemma convertTimeWithDayChange_shape (time day fromTimezone toTimezone : string)
  (t : string) (change : Z) :
  convertTimeWithDayChange time day fromTimezone toTimezone = Ok (t, change) ->
  validDay day /\
  zoneOffset fromTimezone <> None /\ zoneOffset toTimezone <> None /\
  exists m, 0 <= m < 1440 /\ t = formatHHmm m.
Proof.
  unfold convertTimeWithDayChange. destruct (parseTime time) as [h mi].
  destruct (convertDayStringToNumber day) as [n|] eqn:Hday; [|discriminate].
  cbn [rbind]. apply validDay_of_number in Hday.
  destruct h as [h|]; [|discriminate]. destruct mi as [mi|]; [|discriminate].
  destruct (zoneOffset fromTimezone); [|discriminate].
  destruct (zoneOffset toTimezone); [|discriminate].
  intros H. inversion H; subst. repeat split; try assumption; try discriminate.
  eexists. split; [|reflexivity]. apply Z.mod_pos_bound. lia.
Qed.

Lemma render_same_day (d o c : Z) :
  0 <= c < 1440 ->
  mkSpec "OpeningHoursSpecification" (dayName d) (formatHHmm o) (formatHHmm c)
  = render (mkSlot d o c).
Proof.
  intros Hc. unfold render, formatCloses. cbn.
  replace (c =? 1440) with false by (symmetry; apply Z.eqb_neq; lia). reflexivity.
Qed.

Lemma convertAndSplitEntry_shape (spec : OpeningHoursSpecification)
  (fromTimezone toTimezone : string) (out : list OpeningHoursSpecification) :
  convertAndSplitEntry spec fromTimezone toTimezone = Ok out ->
  (zoneOffset fromTimezone <> None /\ zoneOffset toTimezone <> None) /\
  exists slots, out = map render slots /\ Forall slotOk slots.
Proof.
  unfold convertAndSplitEntry.
  destruct (convertTimeWithDayChange (opens spec) _ _ _) as [[to co]|] eqn:Ho;
    [|discriminate].
  destruct (convertTimeWithDayChange (closes spec) _ _ _) as [[tc cc]|] eqn:Hc;
    [|discriminate].
  apply convertTimeWithDayChange_shape in Ho, Hc.
  destruct Ho as (Hday & Hf & Ht & mo & Hmo & ->).
  destruct Hc as (_ & _ & _ & mc & Hmc & ->).
  destruct (validDay_dayName _ Hday) as (d & Hd & Hname).
  cbn [rbind fst snd]. rewrite Hname, !adjustDayOfWeek_dayName by assumption.
  rewrite formatHHmm_not_sentinel, formatHHmm_midnight by assumption.
  pose proof (shiftDay_range d co). pose proof (shiftDay_range d cc).
  intros H'. split; [now split|].
  destruct (String.eqb _ _).
  - inversion H'; subst. exists [mkSlot (shiftDay d co) mo mc].
    rewrite render_same_day by assumption. split; [reflexivity|].
    repeat constructor; cbn; lia.
  - cbn [negb andb] in H'. destruct (Z.eqb_spec mc 0) as [->|Hne]; cbn in H'.
    + inversion H'; subst. exists [mkSlot (shiftDay d co) mo 1440].
      split; [reflexivity|]. repeat constructor; cbn; lia.
    + inversion H'; subst.
      exists [mkSlot (shiftDay d co) mo 1440; mkSlot (shiftDay d cc) 0 mc].
      cbn [map]. rewrite <- (render_same_day (shiftDay d cc) 0 mc) by assumption.
      split; [reflexivity|]. repeat constructor; cbn; lia.
Qed.

Lemma convertAll_shape (specs : list OpeningHoursSpecification)
  (fromTimezone toTimezone : string) (out : list OpeningHoursSpecification) :
  convertAll specs fromTimezone toTimezone = Ok out ->
  (specs <> [] -> zoneOffset fromTimezone <> None /\ zoneOffset toTimezone <> None) /\
  exists slots, out = map render slots /\ Forall slotOk slots.
Proof.
  unfold convertAll. revert out.
  induction specs as [|spec rest IH]; intros out; cbn [flatMapR].
  - intros H. inversion H; subst. split; [congruence|]. exists []. split; constructor.
  - destruct (convertAndSplitEntry spec _ _) as [o1|] eqn:H1; [|discriminate].
    destruct (flatMapR _ rest) as [o2|]; [|discriminate].
    cbn. intros H. inversion H; subst.
    apply convertAndSplitEntry_shape in H1. destruct H1 as (Hz & s1 & -> & Hs1).
    destruct (IH o2 eq_refl) as (_ & s2 & -> & Hs2).
    split; [intros _; exact Hz|]. exists (s1 ++ s2).
    rewrite map_app. split; [reflexivity|]. apply Forall_app. now split.
Qed.

(** The conversion of a rendered endpoint, in numbers. *)
Lemma parseTime_formatCloses (t : Z) :
  0 <= t <= 1440 ->
  exists h mi, parseTime (formatCloses t) = (Some h, Some mi) /\
               Z.rem h 24 * 60 + mi = wallOf t.
Proof.
  intros Ht. unfold formatCloses, wallOf.
  destruct (Z.eqb_spec t 1440) as [->|Hne].
  - exists 24, 0. split; reflexivity.
  - exists (t / 60), (t mod 60). split; [apply parseTime_formatHHmm; lia|].
    assert (0 <= t / 60 < 24).
    { split; [apply Z.div_pos; lia|apply Z.div_lt_upper_bound; lia]. }
    rewrite Z.rem_small by assumption.
    pose proof (Z.div_mod t 60). lia.
Qed.

Lemma convertTimeWithDayChange_render (d t offFrom offTo : Z)
  (fromTimezone toTimezone : string) :
  steady fromTimezone -> steady toTimezone ->
  0 <= d < 7 -> 0 <= t <= 1440 ->
  zoneOffset fromTimezone = Some offFrom -> zoneOffset toTimezone = Some offTo ->
  convertTimeWithDayChange (formatCloses t) (dayName d) fromTimezone toTimezone
  = Ok (formatHHmm (convertedTime (offTo - offFrom) t),
        dayChange (offTo - offFrom) d t).
Proof.
  intros (Hm & Hw & _) (_ & _ & Hu) Hd Ht Hf Hto. unfold convertTimeWithDayChange.
  destruct (parseTime_formatCloses t Ht) as (h & mi & -> & Hwall).
  rewrite convertDayStringToNumber_dayName by assumption. cbn [rbind].
  rewrite Hf, Hto, Hwall, formatCloses_sentinel by assumption.
  cbv zeta. rewrite !Hm, Hw, Hu.
  unfold convertedTime, dayChange.
  replace (d + 1 - 1) with d by lia.
  replace (1440 * d + wallOf t - (offFrom + 0) + (offTo + 0))
    with (wallOf t + (offTo - offFrom) + d * 1440) by lia.
  replace (1440 * d + wallOf t) with (wallOf t + d * 1440) by lia.
  rewrite Z.mod_add, !Z.div_add by lia.
  assert (Hwall0 : wallOf t / 1440 = 0).
  { unfold wallOf. destruct (Z.eqb_spec t 1440); [reflexivity|].
    apply Z.div_small. lia. }
  rewrite Hwall0, Z.add_0_l, (Z.add_comm _ d).
  destruct (t =? 1440); [reflexivity|now rewrite Z.add_0_r].
Qed.

Lemma formatCloses_opens (o : Z) : 0 <= o < 1440 -> formatCloses o = formatHHmm o.
Proof.
  intros H. unfold formatCloses.
  replace (o =? 1440) with false by (symmetry; apply Z.eqb_neq; lia). reflexivity.
Qed.

Lemma convertAndSplitEntry_render (x : Slot) (offFrom offTo : Z)
  (fromTimezone toTimezone : string) :
  steady fromTimezone -> steady toTimezone ->
  slotOk x ->
  zoneOffset fromTimezone = Some offFrom -> zoneOffset toTimezone = Some offTo ->
  convertAndSplitEntry (render x) fromTimezone toTimezone
  = Ok (map render (convertSlot (offTo - offFrom) x)).
Proof.
  intros Hsf Hst (Hd & Ho & Hc) Hf Hto. unfold convertAndSplitEntry.
  cbn [render opens closes dayOfWeek].
  rewrite <- (formatCloses_opens (slotOpens x)) by assumption.
  rewrite !(convertTimeWithDayChange_render _ _ offFrom offTo) by (assumption || lia).
  cbn [rbind fst snd]. rewrite !adjustDayOfWeek_dayName by assumption.
  set (shift := offTo - offFrom).
  pose proof (convertedTime_range shift (slotOpens x)) as Hto'.
  pose proof (convertedTime_range shift (slotCloses x)) as Htc'.
  rewrite formatHHmm_not_sentinel, formatHHmm_midnight by assumption.
  rewrite dayName_eqb by apply shiftDay_range.
  unfold convertSlot. fold shift.
  destruct (shiftDay _ _ =? shiftDay _ _).
  - cbn [map]. now rewrite render_same_day.
  - cbn [negb andb]. destruct (convertedTime shift (slotCloses x) =? 0); cbn [negb map].
    + reflexivity.
    + now rewrite <- (render_same_day _ 0) by assumption.
Qed.

Lemma convertAll_render (slots : list Slot) (offFrom offTo : Z)
  (fromTimezone toTimezone : string) :
  steady fromTimezone -> steady toTimezone ->
  Forall slotOk slots ->
  zoneOffset fromTimezone = Some offFrom -> zoneOffset toTimezone = Some offTo ->
  convertAll (map render slots) fromTimezone toTimezone
  = Ok (map render (flat_map (convertSlot (offTo - offFrom)) slots)).
Proof.
  intros Hsf Hst H Hf Hto. unfold convertAll.
  induction H as [|x rest Hx _ IH]; cbn [map flatMapR flat_map]; [reflexivity|].
  rewrite (convertAndSplitEntry_render x offFrom offTo) by assumption.
  cbn [rbind]. rewrite IH. cbn. now rewrite map_app.
Qed.

(** Without a change of zone a well-formed slot converts to itself: a close
    at 24:00 comes back as 00:00 of the next day and the split restores it. *)
Lemma convertedTime_same_zone (t : Z) :
  0 <= t <= 1440 -> convertedTime 0 t = if t =? 1440 then 0 else t.
Proof.
  intros H. unfold convertedTime, wallOf.
  destruct (Z.eqb_spec t 1440); [reflexivity|].
  rewrite Z.add_0_r. apply Z.mod_small. lia.
Qed.

Lemma dayChange_same_zone (d t : Z) :
  0 <= t <= 1440 -> dayChange 0 d t = if t =? 1440 then 1 else 0.
Proof.
  intros H. unfold dayChange, wallOf.
  destruct (Z.eqb_spec t 1440).
  - cbn. rewrite Z.add_0_r. lia.
  - rewrite Z.add_0_r, Z.div_small, Z.add_0_r by lia. lia.
Qed.

Lemma convertSlot_same_zone (x : Slot) : slotValid x -> convertSlot 0 x = [x].
Proof.
  destruct x as [d o c]. unfold slotValid. cbn [slotDay slotOpens slotCloses].
  intros (Hd & Ho & Hc). unfold convertSlot. cbn [slotDay slotOpens slotCloses].
  rewrite !convertedTime_same_zone, !dayChange_same_zone by lia.
  replace (o =? 1440) with false by (symmetry; apply Z.eqb_neq; lia).
  unfold shiftDay. rewrite Z.add_0_r, (Z.mod_small d) by lia.
  destruct (Z.eqb_spec c 1440) as [->|Hne].
  - replace (d =? (d + 1) mod 7) with false; [reflexivity|].
    symmetry. apply Z.eqb_neq. each_day Hd; cbn; lia.
  - rewrite Z.add_0_r, (Z.mod_small d), Z.eqb_refl by lia. reflexivity.
Qed.

Lemma flat_map_singleton {A : Type} (f : A -> list A) (l : list A) :
  Forall (fun x => f x = [x]) l -> flat_map f l = l.
Proof.
  induction 1 as [|x rest Hx _ IH]; cbn; [reflexivity|]. now rewrite Hx, IH.
Qed.

Lemma convertAll_same_zone (slots : list Slot) (timezone : string) :
  steady timezone ->
  canonicalSlots slots -> zoneOffset timezone <> None ->
  convertAll (map render slots) timezone timezone = Ok (map render slots).
Proof.
  intros Hsteady Hcan Hz. destruct (zoneOffset timezone) as [off|] eqn:Hoff; [|congruence].
  rewrite (convertAll_render slots off off) by (try assumption; now apply canonical_ok).
  rewrite Z.sub_diag, flat_map_singleton; [reflexivity|].
  destruct Hcan as [Hv _]. eapply Forall_impl; [|exact Hv].
  apply convertSlot_same_zone.
Qed.


(** ** The invariant of the object *)

Lemma normalize_canonical (hours : list OpeningHoursInput)
  (fromTimezone toTimezone : string) (combined : list OpeningHoursSpecification) :
  normalize hours fromTimezone toTimezone = Ok combined ->
  canonicalHours combined /\
  (combined <> [] -> zoneOffset toTimezone <> None).
Proof.
  unfold normalize.
  destruct (preprocessOpeningHours hours) as [pre|]; [|discriminate]. cbn [rbind].
  destruct (convertAll pre fromTimezone toTimezone) as [conv|] eqn:Hconv;
    [|discriminate]. cbn [rbind].
  assert (Hzone : pre <> [] -> zoneOffset toTimezone <> None)
    by (intros Hpre; now apply (convertAll_shape _ _ _ _ Hconv)).
  assert (Hnil : pre = [] -> conv = [])
    by (intros ->; cbn in Hconv; now inversion Hconv).
  apply convertAll_shape in Hconv. destruct Hconv as (_ & slots & -> & Hok).
  intros H. apply combineAndCheckIntegrity_canonical in H; [|assumption].
  destruct H as [-> Hcan]. split; [now eexists|].
  intros Hne. apply Hzone. intros Hpre. apply Hne.
  apply Hnil, map_eq_nil in Hpre. now subst.
Qed.

Lemma canonicalHours_nil : canonicalHours [].
Proof. exists []. split; [reflexivity|]. split; constructor. Qed.

Lemma setOpeningHours_invariant (s s' : Service) hours timezone :
  setOpeningHours hours timezone s = (Ok tt, s') ->
  serviceInvariant s' /\ userTimezone s' = userTimezone s.
Proof.
  rewrite setOpeningHours_run.
  destruct (normalize _ _ _) as [combined|] eqn:Hn; [|discriminate].
  intros H. inversion H; subst. cbn.
  apply normalize_canonical in Hn. split; [exact Hn|reflexivity].
Qed.

Lemma addOpeningHoursBatch_invariant (s s' : Service) hours timezone :
  serviceInvariant s ->
  addOpeningHoursBatch hours timezone s = (Ok tt, s') ->
  serviceInvariant s' /\ userTimezone s' = userTimezone s.
Proof.
  intros [(slots0 & Hs0 & Hcan0) Hz0]. rewrite addOpeningHoursBatch_run.
  destruct (preprocessOpeningHours hours) as [pre|]; [|discriminate]. cbn [rbind].
  destruct (convertAll pre _ _) as [conv|] eqn:Hconv; [|discriminate]. cbn [rbind].
  destruct (combineAndCheckIntegrity _) as [combined|] eqn:Hcomb; [|discriminate].
  intros H. inversion H; subst. cbn. split; [|reflexivity].
  assert (Hzone : pre <> [] -> zoneOffset (userTimezone s) <> None)
    by (intros Hpre; now apply (convertAll_shape _ _ _ _ Hconv)).
  assert (Hnil : pre = [] -> conv = [])
    by (intros ->; cbn in Hconv; now inversion Hconv).
  apply convertAll_shape in Hconv. destruct Hconv as (_ & slots1 & -> & Hok1).
  rewrite Hs0, <- map_app in Hcomb.
  apply combineAndCheckIntegrity_canonical in Hcomb.
  2:{ apply Forall_app. split; [now apply canonical_ok|assumption]. }
  destruct Hcomb as [-> Hcan]. split; [now eexists|]. cbn.
  intros Hne.
  destruct (openingHours s) as [|e rest] eqn:Hcur; [|apply Hz0; discriminate].
  apply Hzone. intros Hpre. apply Hne.
  symmetry in Hs0. apply map_eq_nil in Hs0. apply Hnil, map_eq_nil in Hpre.
  now subst.
Qed.

Lemma reachable_invariant (s : Service) : reachable s -> serviceInvariant s.
Proof.
  induction 1 as [env|s s' hours tz _ _ Hrun|s s' day o c tz _ IH Hrun
                 |s s' hours tz _ IH Hrun|s s' day tz _ _ Hrun].
  - split; [apply canonicalHours_nil|]. cbn. congruence.
  - now apply setOpeningHours_invariant in Hrun.
  - rewrite addOpeningHour_run in Hrun.
    now apply addOpeningHoursBatch_invariant in Hrun.
  - now apply addOpeningHoursBatch_invariant in Hrun.
  - rewrite removeOpeningHoursForDay_run in Hrun.
    destruct (rbind _ _) as [combined|]; [|discriminate].
    now apply setOpeningHours_invariant in Hrun.
Qed.


(** ** The canonical schedule *)

Lemma followsValid_trans (x y z : Slot) :
  followsValid x y -> followsValid y z -> followsValid x z.
Proof. unfold followsValid, slotValid, follows. lia. Qed.

Lemma canonical_strongly_sorted (l : list Slot) :
  canonicalSlots l -> StronglySorted followsValid l.
Proof.
  intros [Hv Hs]. apply Sorted_StronglySorted.
  - intros x y z. apply followsValid_trans.
  - induction Hs as [|x rest Hrest IH Hhd]; [constructor|].
    inversion Hv as [|? ? Hx Hv']; subst. constructor; [now apply IH|].
    destruct Hhd as [|y rest' Hxy]; constructor.
    inversion Hv'; subst. split; [assumption|]. split; assumption.
Qed.

Lemma render_wellFormed (x : Slot) : slotValid x -> entryWellFormed (render x).
Proof.
  intros Hx. pose proof (slotValid_ok x Hx) as Hok. split.
  - apply String.eqb_neq, formatHHmm_not_sentinel. unfold slotValid in Hx. lia.
  - exists (slotOpens x), (slotCloses x).
    rewrite minutes_opens_render, minutes_closes_render by assumption.
    unfold slotValid in Hx. repeat split; lia.
Qed.

Lemma render_inOrder (x y : Slot) :
  followsValid x y -> entriesInOrder (render x) (render y).
Proof.
  intros (Hx & Hy & Hf). exists (slotDay x + 1), (slotDay y + 1).
  pose proof (slotValid_ok x Hx) as Hokx. pose proof (slotValid_ok y Hy) as Hoky.
  cbn [render dayOfWeek].
  rewrite !convertDayStringToNumber_dayName by (apply Hokx || apply Hoky).
  repeat split.
  unfold follows in Hf. destruct Hf as [Hlt|[Heq Hgap]]; [left; lia|right].
  split; [lia|]. exists (slotOpens x), (slotCloses x), (slotOpens y).
  change (formatHHmm (slotOpens x)) with (opens (render x)).
  change (formatHHmm (slotOpens y)) with (opens (render y)).
  change (formatCloses (slotCloses x)) with (closes (render x)).
  rewrite !minutes_opens_render, minutes_closes_render by assumption.
  unfold slotValid in *. repeat split; lia.
Qed.

Lemma canonicalHours_properties (hours : list OpeningHoursSpecification) :
  canonicalHours hours ->
  Forall entryWellFormed hours /\ StronglySorted entriesInOrder hours.
Proof.
  intros (slots & -> & Hcan). split.
  - apply Forall_map. destruct Hcan as [Hv _].
    eapply Forall_impl; [|exact Hv]. apply render_wellFormed.
  - apply canonical_strongly_sorted in Hcan.
    induction Hcan as [|x rest Hrest IH Hall]; cbn; constructor; [exact IH|].
    apply Forall_map. eapply Forall_impl; [|exact Hall]. apply render_inOrder.
Qed.

(** C3. In every state a service reaches through mutating calls that
    returned, the stored schedule is sorted by weekday (Monday 1 .. Sunday 7)
    and then by opens; no entry opens at 24:00; every entry closes after it
    opens and at most at 1440 minutes; and a same-day entry opens no earlier
    than every earlier same-day entry closes. *)
Theorem stored_schedule_is_canonical (s : Service) :
  reachable s ->
  Forall entryWellFormed (openingHours s) /\
  StronglySorted entriesInOrder (openingHours s).
Proof.
  intros H. apply canonicalHours_properties. now apply reachable_invariant.
Qed.

(** ** Re-running the Normalizer *)

Lemma preprocess_canonical (slots : list Slot) :
  canonicalSlots slots ->
  preprocessOpeningHours (map toInput (map render slots)) = Ok (map render slots).
Proof.
  intros [Hv _]. unfold preprocessOpeningHours.
  induction Hv as [|x rest Hx _ IH]; [reflexivity|].
  cbn [map normalizeAndSplitDays flat_map toInput in_dayOfWeek in_type in_opens
       in_closes app flatMapR] in *.
  pose proof (slotValid_ok x Hx) as Hok.
  change (type_ (render x)) with "OpeningHoursSpecification".
  change (dayOfWeek (render x)) with (dayName (slotDay x)).
  rewrite normalizeDayOfWeek_dayName by apply Hok.
  change (mkSpec "OpeningHoursSpecification" (dayName (slotDay x))
                 (opens (render x)) (closes (render x))) with (render x).
  cbn [opens closes].
  unfold timeIsBefore.
  rewrite minutes_closes_render, minutes_opens_render by assumption.
  cbn [js_lt]. unfold slotValid in Hx.
  replace (slotCloses x <? slotOpens x) with false
    by (symmetry; apply Z.ltb_ge; lia).
  cbn [render opens closes orb].
  rewrite <- (formatCloses_opens (slotOpens x)), formatCloses_eqb by lia.
  replace (slotCloses x =? slotOpens x) with false
    by (symmetry; apply Z.eqb_neq; lia).
  cbn [rbind]. unfold normalizeAndSplitDays, timeIsBefore in IH. rewrite IH.
  reflexivity.
Qed.

Lemma normalize_canonical_id (slots : list Slot) (timezone : string) :
  steady timezone ->
  canonicalSlots slots ->
  (slots <> [] -> zoneOffset timezone <> None) ->
  normalize (map toInput (map render slots)) timezone timezone
  = Ok (map render slots) /\
  (converted <- convertAll (map render slots) timezone timezone ;;
   combineAndCheckIntegrity converted) = Ok (map render slots).
Proof.
  intros Hsteady Hcan Hz. unfold normalize.
  rewrite preprocess_canonical by assumption. cbn [rbind].
  assert (Hconv : convertAll (map render slots) timezone timezone
                  = Ok (map render slots)).
  { destruct slots as [|x rest]; [reflexivity|].
    apply convertAll_same_zone; [assumption|assumption|]. apply Hz. discriminate. }
  rewrite Hconv. cbn [rbind].
  rewrite combineAndCheckIntegrity_id by assumption. now split.
Qed.

(** C5. When no clock changes in the reference week, neither that of the
    internal zone nor that of the machine (no start or end of daylight
    time), then in every reachable state the Normalizer with the internal
    zone as source and destination returns the stored schedule as it is:
    export into the internal zone (by default or by name) yields exactly the
    stored entries, and the Normalizer run on that export, as
    [setOpeningHours] runs it, yields them again. *)
Theorem normalizer_is_idempotent (s : Service) :
  steady (userTimezone s) ->
  reachable s ->
  exportOpeningHours None s = (Ok (openingHours s), s) /\
  exportOpeningHours (Some (userTimezone s)) s = (Ok (openingHours s), s) /\
  normalize (map toInput (openingHours s)) (userTimezone s) (userTimezone s)
  = Ok (openingHours s).
Proof.
  intros Hsteady H. apply reachable_invariant in H.
  destruct H as [(slots & Hs & Hcan) Hz]. rewrite !exportOpeningHours_run.
  cbn [zoneOr]. rewrite Hs.
  destruct (normalize_canonical_id slots (userTimezone s) Hsteady Hcan) as [Hn He].
  { intros Hne. apply Hz. rewrite Hs. destruct slots; [congruence|discriminate]. }
  rewrite He, Hn. repeat split.
Qed.



(** ** The view by weekday *)

Lemma rangesOf_snoc (day : string) (hours : list OpeningHoursSpecification)
  (spec : OpeningHoursSpecification) :
  rangesOf day (hours ++ [spec]) =
  rangesOf day hours ++
  (if String.eqb (dayOfWeek spec) day
   then [mkRange (opens spec) (closes spec)] else []).
Proof.
  unfold rangesOf. rewrite filter_app, map_app. cbn [filter].
  destruct (String.eqb (dayOfWeek spec) day); reflexivity.
Qed.

Lemma pushRange_tableOf (hours : list OpeningHoursSpecification)
  (spec : OpeningHoursSpecification) :
  validDay (dayOfWeek spec) ->
  pushRange (dayOfWeek spec) (mkRange (opens spec) (closes spec)) (tableOf hours)
  = tableOf (hours ++ [spec]).
Proof.
  unfold validDay, tableOf, weekDays. cbn [In map]. rewrite !rangesOf_snoc.
  intros H.
  repeat (destruct H as [H|H];
          [rewrite <- H; cbn; rewrite ?app_nil_r; reflexivity|]).
  contradiction.
Qed.

Lemma fold_pushRange (hours acc : list OpeningHoursSpecification) :
  Forall (fun spec => validDay (dayOfWeek spec)) hours ->
  fold_left
    (fun table spec =>
       pushRange (dayOfWeek spec) (mkRange (opens spec) (closes spec)) table)
    hours (tableOf acc)
  = tableOf (acc ++ hours).
Proof.
  intros H. revert acc.
  induction H as [|spec rest Hspec _ IH]; intros acc; cbn [fold_left].
  - now rewrite app_nil_r.
  - rewrite pushRange_tableOf by assumption. rewrite IH, <- app_assoc. reflexivity.
Qed.

Lemma groupByDay_valid (hours : list OpeningHoursSpecification) :
  Forall (fun spec => validDay (dayOfWeek spec)) hours ->
  groupByDay hours =
  map (fun day => mkPerDay "OpenRangePerDay" day (rangesOf day hours)) weekDays.
Proof.
  intros H. unfold groupByDay. change emptyWeek with (tableOf []).
  rewrite fold_pushRange by assumption. unfold tableOf. rewrite map_map.
  reflexivity.
Qed.

Lemma canonical_days_valid (slots : list Slot) :
  canonicalSlots slots ->
  Forall (fun spec => validDay (dayOfWeek spec)) (map render slots).
Proof.
  intros [Hv _]. apply Forall_map. eapply Forall_impl; [|exact Hv].
  intros x Hx. apply dayName_valid, Hx.
Qed.

Lemma rangesOf_sorted (day : string) (slots : list Slot) :
  StronglySorted followsValid slots ->
  StronglySorted opensEarlier (rangesOf day (map render slots)).
Proof.
  unfold rangesOf.
  induction 1 as [|x rest Hrest IH Hall]; cbn [map filter]; [constructor|].
  destruct (String.eqb_spec (dayOfWeek (render x)) day) as [Hday|Hday];
    [|exact IH].
  cbn [map]. constructor; [exact IH|].
  apply Forall_map. apply Forall_forall. intros spec Hin.
  apply filter_In in Hin. destruct Hin as [Hin Hsame].
  apply in_map_iff in Hin. destruct Hin as (y & <- & Hy).
  rewrite Forall_forall in Hall. destruct (Hall y Hy) as (Hx & Hvy & Hf).
  apply String.eqb_eq in Hsame. rewrite <- Hday in Hsame.
  pose proof (slotValid_ok x Hx) as Hokx. pose proof (slotValid_ok y Hvy) as Hoky.
  assert (Hd : slotDay y = slotDay x).
  { apply Z.eqb_eq. rewrite <- dayName_eqb by (apply Hokx || apply Hoky).
    apply String.eqb_eq. exact Hsame. }
  exists (slotOpens x), (slotOpens y). cbn [open].
  rewrite !minutes_opens_render by assumption.
  unfold follows, slotValid in *. repeat split; lia.
Qed.

(** C10. In every reachable state getOpenRangePerDay in the internal zone
    (by default or by name) returns seven records, for Monday, Tuesday,
    Wednesday, Thursday, Friday, Saturday, Sunday in this order; the record
    of a weekday lists the ranges of the stored entries of that weekday (none
    for a weekday without entries), each opening strictly later than the
    ones before it. *)
Theorem open_ranges_per_day (s : Service) :
  reachable s ->
  let expected :=
    map (fun day => mkPerDay "OpenRangePerDay" day
                             (rangesOf day (openingHours s)))
        ["Monday"; "Tuesday"; "Wednesday"; "Thursday"; "Friday"; "Saturday";
         "Sunday"] in
  getOpenRangePerDay None s = (Ok expected, s) /\
  getOpenRangePerDay (Some (userTimezone s)) s = (Ok expected, s) /\
  forall day, StronglySorted opensEarlier (rangesOf day (openingHours s)).
Proof.
  intros H expected. apply reachable_invariant in H.
  destruct H as [(slots & Hs & Hcan) _].
  rewrite !getOpenRangePerDay_run. cbn [zoneOr]. rewrite viewIn_own.
  rewrite groupByDay_valid by (rewrite Hs; now apply canonical_days_valid).
  repeat split. intros day. rewrite Hs.
  now apply rangesOf_sorted, canonical_strongly_sorted.
Qed.

(** ** Failure atomicity and the read operations *)

(** C2. A mutating call that throws leaves the object as it was: the
    canonical schedule (and with it the zone and the compiled engine) after
    the failed call is the one before it, for setOpeningHours,
    addOpeningHour, addOpeningHoursBatch and removeOpeningHoursForDay. *)
Theorem failed_mutation_keeps_state (s s' : Service) (e : Error) :
  (forall hours timezone,
      setOpeningHours hours timezone s = (Err e, s') -> s' = s) /\
  (forall day o c timezone,
      addOpeningHour day o c timezone s = (Err e, s') -> s' = s) /\
  (forall hours timezone,
      addOpeningHoursBatch hours timezone s = (Err e, s') -> s' = s) /\
  (forall day timezone,
      removeOpeningHoursForDay day timezone s = (Err e, s') -> s' = s).
Proof.
  assert (Hset : forall hours timezone,
             setOpeningHours hours timezone s = (Err e, s') -> s' = s).
  { intros hours timezone. rewrite setOpeningHours_run.
    destruct (normalize _ _ _); intros H; inversion H; reflexivity. }
  assert (Hbatch : forall hours timezone,
             addOpeningHoursBatch hours timezone s = (Err e, s') -> s' = s).
  { intros hours timezone. rewrite addOpeningHoursBatch_run.
    match goal with |- match ?r with _ => _ end = _ -> _ => destruct r end;
      intros H; inversion H; reflexivity. }
  repeat split.
  - exact Hset.
  - intros day o c timezone. rewrite addOpeningHour_run. apply Hbatch.
  - exact Hbatch.
  - intros day timezone. rewrite removeOpeningHoursForDay_run.
    match goal with |- match ?r with _ => _ end = _ -> _ => destruct r end.
    + apply Hset.
    + intros H; inversion H; reflexivity.
Qed.

(** ** Rejected input *)

Lemma preprocess_rejects (specs : list OpeningHoursSpecification)
  (spec : OpeningHoursSpecification) :
  In spec specs ->
  timeIsBefore (closes spec) (opens spec)
  || String.eqb (closes spec) (opens spec) = true ->
  exists day o c,
    flatMapR
      (fun spec =>
         if timeIsBefore (closes spec) (opens spec)
            || String.eqb (closes spec) (opens spec)
         then Err (InvalidTimeRange (dayOfWeek spec) (opens spec) (closes spec))
         else Ok [spec])
      specs = Err (InvalidTimeRange day o c).
Proof.
  induction specs as [|x rest IH]; intros Hin Hbad; [contradiction|].
  cbn [flatMapR].
  destruct (timeIsBefore (closes x) (opens x) || String.eqb (closes x) (opens x))
    eqn:Hx.
  - cbn. eauto.
  - destruct Hin as [->|Hin]; [congruence|].
    destruct (IH Hin Hbad) as (day & o & c & ->). cbn. eauto.
Qed.

Lemma closes_not_after_opens_detected (o c : string) :
  validTime o -> validTime c ->
  js_le (convertTimeToMinutes c) (convertTimeToMinutes o) = true ->
  timeIsBefore c o || String.eqb c o = true.
Proof.
  intros (mo & Hmo & ->) (mc & Hmc & ->). unfold timeIsBefore.
  rewrite !minutes_formatCloses by assumption. cbn.
  rewrite formatCloses_eqb by assumption.
  intros H. apply Z.leb_le in H. apply orb_true_iff.
  destruct (Z.eq_dec mc mo) as [->|Hne].
  - right. apply Z.eqb_refl.
  - left. apply Z.ltb_lt. lia.
Qed.

(** C8. A candidate interval of the data model (opens and closes HH:mm
    times between 00:00 and 24:00) whose closes is not after its opens in
    minutes makes setOpeningHours, addOpeningHoursBatch and addOpeningHour
    throw an invalid-time-range error, with nothing stored: the object is
    unchanged. *)
Theorem closes_not_after_opens_rejected (s : Service) :
  (forall hours timezone spec,
      In spec (normalizeAndSplitDays hours) ->
      validTime (opens spec) -> validTime (closes spec) ->
      js_le (convertTimeToMinutes (closes spec))
            (convertTimeToMinutes (opens spec)) = true ->
      exists day o c,
        setOpeningHours hours timezone s = (Err (InvalidTimeRange day o c), s) /\
        addOpeningHoursBatch hours timezone s = (Err (InvalidTimeRange day o c), s)) /\
  (forall day o c timezone,
      validTime o -> validTime c ->
      js_le (convertTimeToMinutes c) (convertTimeToMinutes o) = true ->
      addOpeningHour day o c timezone s =
      (Err (InvalidTimeRange (normalizeDayOfWeek day) o c), s)).
Proof.
  split.
  - intros hours timezone spec Hin Ho Hc Hle.
    destruct (preprocess_rejects _ _ Hin
                (closes_not_after_opens_detected _ _ Ho Hc Hle))
      as (day & o & c & Hpre).
    exists day, o, c.
    rewrite setOpeningHours_run, addOpeningHoursBatch_run.
    unfold normalize, preprocessOpeningHours. rewrite Hpre. cbn. split; reflexivity.
  - intros day o c timezone Ho Hc Hle.
    rewrite addOpeningHour_run, addOpeningHoursBatch_run.
    unfold preprocessOpeningHours. cbn [normalizeAndSplitDays flat_map in_dayOfWeek
      map app flatMapR in_type in_opens in_closes opens closes dayOfWeek].
    rewrite (closes_not_after_opens_detected _ _ Ho Hc Hle). reflexivity.
Qed.

Lemma reversed_range_rejected (s : Service) (day o c : string)
  (timezone : option string) :
  timeIsBefore c o = true ->
  addOpeningHour day o c timezone s =
  (Err (InvalidTimeRange (normalizeDayOfWeek day) o c), s).
Proof.
  intros H. rewrite addOpeningHour_run, addOpeningHoursBatch_run.
  unfold preprocessOpeningHours. cbn. rewrite H. reflexivity.
Qed.

Lemma convertTimeWithDayChange_error (time day fromTimezone toTimezone : string) :
  validDay day ->
  (exists r, convertTimeWithDayChange time day fromTimezone toTimezone = Ok r /\
             ~ nanTime time /\ zoneOffset fromTimezone <> None /\
             zoneOffset toTimezone <> None) \/
  convertTimeWithDayChange time day fromTimezone toTimezone = Err InvalidTimeValue.
Proof.
  intros Hday. destruct (validDay_dayName _ Hday) as (d & Hd & ->).
  unfold convertTimeWithDayChange, nanTime.
  destruct (parseTime time) as [h mi].
  rewrite convertDayStringToNumber_dayName by assumption. cbn [rbind fst snd].
  destruct h as [h|]; [|now right].
  destruct mi as [mi|]; [|now right].
  destruct (zoneOffset fromTimezone); [|now right].
  destruct (zoneOffset toTimezone); [|now right].
  left. eexists. split; [reflexivity|].
  repeat split; try discriminate. intros [H|H]; discriminate.
Qed.

Lemma convertAndSplitEntry_error (spec : OpeningHoursSpecification)
  (fromTimezone toTimezone : string) :
  validDay (dayOfWeek spec) ->
  (exists r, convertAndSplitEntry spec fromTimezone toTimezone = Ok r /\
             ~ nanTime (opens spec) /\ ~ nanTime (closes spec) /\
             zoneOffset fromTimezone <> None /\ zoneOffset toTimezone <> None) \/
  convertAndSplitEntry spec fromTimezone toTimezone = Err InvalidTimeValue.
Proof.
  intros Hday. unfold convertAndSplitEntry.
  destruct (convertTimeWithDayChange_error (opens spec) _ fromTimezone toTimezone Hday)
    as [(ro & -> & Ho & Hf & Ht)| ->]; [|now right].
  destruct (convertTimeWithDayChange_error (closes spec) _ fromTimezone toTimezone Hday)
    as [(rc & -> & Hc & _ & _)| ->]; [|now right].
  left. cbn [rbind].
  match goal with
  | |- exists r, ?e = Ok r /\ _ =>
      assert (exists r, e = Ok r) as [r ->]
        by (repeat match goal with
                   | |- context [if ?b then _ else _] => destruct b
                   end; eauto)
  end.
  eauto 10.
Qed.

Lemma convertAll_error (specs : list OpeningHoursSpecification)
  (fromTimezone toTimezone : string) :
  Forall (fun spec => validDay (dayOfWeek spec)) specs ->
  (exists r, convertAll specs fromTimezone toTimezone = Ok r /\
             Forall (fun spec => ~ nanTime (opens spec) /\ ~ nanTime (closes spec)) specs /\
             (specs <> [] ->
              zoneOffset fromTimezone <> None /\ zoneOffset toTimezone <> None)) \/
  convertAll specs fromTimezone toTimezone = Err InvalidTimeValue.
Proof.
  unfold convertAll. induction 1 as [|spec rest Hday _ IH].
  - left. exists []. repeat split; [constructor|congruence|congruence].
  - cbn [flatMapR].
    destruct (convertAndSplitEntry_error spec fromTimezone toTimezone Hday)
      as [(r & -> & Ho & Hc & Hf & Ht)| ->]; [|now right].
    destruct IH as [(r' & -> & Hall & _)| ->]; [|now right].
    left. cbn. eexists. split; [reflexivity|]. split; [|tauto].
    constructor; tauto.
Qed.

Lemma neverNumeric_digitValue (c : ascii) :
  neverNumeric c = true -> digitValue c = None.
Proof.
  unfold neverNumeric, digitValue. cbv zeta.
  destruct ((48 <=? Z.of_nat (nat_of_ascii c))
            && (Z.of_nat (nat_of_ascii c) <=? 57)); [|reflexivity].
  rewrite andb_false_r. discriminate.
Qed.

Lemma notANumber_Number (field : string) : notANumber field -> Number field = None.
Proof.
  intros (c & Hin & Hc). unfold Number. generalize 0.
  induction field as [|c' rest IH]; intros acc; [discriminate|].
  cbn [contains] in Hin. cbn [digitsValue].
  destruct (digitValue c') as [d|] eqn:Hd; [|reflexivity].
  destruct (Ascii.eqb_spec c' c) as [->|_].
  - rewrite (neverNumeric_digitValue c Hc) in Hd. discriminate.
  - apply IH. exact Hin.
Qed.

Lemma unreadable_nanTime (t : string) : unreadable t -> nanTime t.
Proof.
  unfold unreadable, nanTime, parseTime.
  destruct (split ":" t) as [|h [|mi rest]]; cbn [map fst snd]; try (now right).
  intros [H|H]; [left|right]; now apply notANumber_Number.
Qed.

(** C7, as the code has it. Take a batch whose entries all name one of the
    seven weekdays, have times within the input domain and pass the range
    pre-check. setOpeningHours, addOpeningHoursBatch and addOpeningHour
    throw the timezone library's invalid-time-value error, leaving the
    object unchanged, as soon as an opens or closes is not a number (an hour
    or minute field holds a character with which no number is written, or
    the minute field is missing), or the batch is not empty and the zone
    name given is one the library rejects. exportOpeningHours into a zone
    the library rejects, and removeOpeningHoursForDay in such a zone, throw
    it in every reachable state whose schedule is not empty. With nothing to
    convert no zone name is looked at: setting an empty batch returns, and
    so does exporting an empty schedule. *)
Theorem unreadable_time_or_zone_rejected (s : Service) :
  (forall hours timezone preprocessed,
      preprocessOpeningHours hours = Ok preprocessed ->
      Forall (fun spec => validDay (dayOfWeek spec)) preprocessed ->
      Forall (fun spec => plainTime (opens spec) /\ plainTime (closes spec))
             preprocessed ->
      (exists spec, In spec preprocessed /\
                    (unreadable (opens spec) \/ unreadable (closes spec))) \/
      (preprocessed <> [] /\ zoneOffset (zoneOr timezone s) = None) ->
      setOpeningHours hours timezone s = (Err InvalidTimeValue, s) /\
      addOpeningHoursBatch hours timezone s = (Err InvalidTimeValue, s)) /\
  (forall day o c timezone,
      validDay (normalizeDayOfWeek day) -> plainTime o -> plainTime c ->
      timeIsBefore c o || String.eqb c o = false ->
      unreadable o \/ unreadable c \/ zoneOffset (zoneOr timezone s) = None ->
      addOpeningHour day o c timezone s = (Err InvalidTimeValue, s)) /\
  (forall timezone,
      reachable s -> openingHours s <> [] -> zoneOffset timezone = None ->
      exportOpeningHours (Some timezone) s = (Err InvalidTimeValue, s)) /\
  (forall day timezone,
      reachable s -> openingHours s <> [] -> zoneOffset timezone = None ->
      removeOpeningHoursForDay day (Some timezone) s = (Err InvalidTimeValue, s)) /\
  (forall timezone,
      setOpeningHours [] timezone s
      = (Ok tt, mkService [] (userTimezone s) (engineFor []))) /\
  (forall timezone,
      openingHours s = [] -> exportOpeningHours timezone s = (Ok [], s)).
Proof.
  assert (Hbatch : forall hours timezone preprocessed,
      preprocessOpeningHours hours = Ok preprocessed ->
      Forall (fun spec => validDay (dayOfWeek spec)) preprocessed ->
      (exists spec, In spec preprocessed /\
                    (unreadable (opens spec) \/ unreadable (closes spec))) \/
      (preprocessed <> [] /\ zoneOffset (zoneOr timezone s) = None) ->
      setOpeningHours hours timezone s = (Err InvalidTimeValue, s) /\
      addOpeningHoursBatch hours timezone s = (Err InvalidTimeValue, s)).
  { intros hours timezone preprocessed Hpre Hdays Hbad.
    assert (Hconv : convertAll preprocessed (zoneOr timezone s) (userTimezone s)
                    = Err InvalidTimeValue).
    { destruct (convertAll_error preprocessed (zoneOr timezone s) (userTimezone s)
                  Hdays) as [(r & _ & Hall & Hzones)|H]; [exfalso|exact H].
      destruct Hbad as [(spec & Hin & Hnan)|[Hne Hzone]].
      - rewrite Forall_forall in Hall. specialize (Hall spec Hin).
        destruct Hnan as [Hnan|Hnan]; apply unreadable_nanTime in Hnan; tauto.
      - destruct (Hzones Hne) as [Hf _]. contradiction. }
    rewrite setOpeningHours_run, addOpeningHoursBatch_run.
    unfold normalize. rewrite Hpre. cbn [rbind]. rewrite Hconv. cbn.
    split; reflexivity. }
  assert (Hview : forall timezone,
      reachable s -> openingHours s <> [] -> zoneOffset timezone = None ->
      convertAll (openingHours s) (userTimezone s) timezone = Err InvalidTimeValue).
  { intros timezone Hreach Hne Hzone. apply reachable_invariant in Hreach.
    destruct Hreach as [(slots & Hs & Hcan) _].
    destruct (convertAll_error (openingHours s) (userTimezone s) timezone)
      as [(r & _ & _ & Hzones)|H]; [| |exact H].
    + rewrite Hs. now apply canonical_days_valid.
    + destruct (Hzones Hne) as [_ Ht]. contradiction. }
  split; [|split; [|split; [|split; [|split]]]].
  - intros hours timezone preprocessed Hpre Hdays _. now apply Hbatch.
  - intros day o c timezone Hday _ _ Hrange Hbad. rewrite addOpeningHour_run.
    apply (Hbatch _ (Some (zoneOr timezone s))
                  [mkSpec "OpeningHoursSpecification" (normalizeDayOfWeek day) o c]).
    + unfold preprocessOpeningHours.
      cbn [normalizeAndSplitDays flat_map in_dayOfWeek map app flatMapR in_type
           in_opens in_closes opens closes dayOfWeek].
      rewrite Hrange. reflexivity.
    + constructor; [exact Hday|constructor].
    + cbn [zoneOr]. destruct Hbad as [H|[H|H]].
      * left. eexists. split; [now left|]. now left.
      * left. eexists. split; [now left|]. now right.
      * right. split; [discriminate|exact H].
  - intros timezone Hreach Hne Hzone.
    rewrite exportOpeningHours_run. cbn [zoneOr].
    now rewrite (Hview timezone Hreach Hne Hzone).
  - intros day timezone Hreach Hne Hzone.
    rewrite removeOpeningHoursForDay_run. cbn [zoneOr]. unfold viewIn.
    destruct (String.eqb_spec timezone (userTimezone s)) as [Heq|_].
    + exfalso. apply reachable_invariant in Hreach. destruct Hreach as [_ Hz].
      apply (Hz Hne). now rewrite <- Heq.
    + cbn [negb]. now rewrite (Hview timezone Hreach Hne Hzone).
  - intros timezone. now rewrite setOpeningHours_run.
  - intros timezone Hempty. rewrite exportOpeningHours_run, Hempty. reflexivity.
Qed.

(** ** Conversion on the line of minutes *)

Ltac lia_div := Z.to_euclidean_division_equations; lia.

Lemma covers_nil (p : Z) : covers [] p <-> False.
Proof. unfold covers. cbn. firstorder. Qed.

Lemma covers_cons (x : Slot) (l : list Slot) (p : Z) :
  covers (x :: l) p <-> covered x p \/ covers l p.
Proof.
  unfold covers. cbn. split.
  - intros (y & [<-|Hin] & Hc); [now left|right; eauto].
  - intros [Hc|(y & Hin & Hc)]; eauto.
Qed.

Lemma covers_app (l1 l2 : list Slot) (p : Z) :
  covers (l1 ++ l2) p <-> covers l1 p \/ covers l2 p.
Proof.
  unfold covers. split.
  - intros (y & Hin & Hc). apply in_app_iff in Hin. destruct Hin; eauto.
  - intros [(y & Hin & Hc)|(y & Hin & Hc)]; exists y;
      (split; [apply in_app_iff; tauto|assumption]).
Qed.

Lemma covers_perm (l1 l2 : list Slot) (p : Z) :
  Permutation l1 l2 -> covers l1 p <-> covers l2 p.
Proof.
  intros H. unfold covers. split; intros (y & Hin & Hc); exists y;
    (split; [|assumption]).
  - now apply (Permutation_in _ H).
  - now apply (Permutation_in _ (Permutation_sym H)).
Qed.

Lemma convertedTime_linear (shift t : Z) :
  0 <= t <= 1440 -> convertedTime shift t = (t + shift) mod 1440.
Proof.
  intros H. unfold convertedTime, wallOf.
  destruct (Z.eqb_spec t 1440); [subst|reflexivity]. lia_div.
Qed.

Lemma dayChange_linear (shift d t : Z) :
  calendarFits shift -> 0 <= d < 7 -> 0 <= t <= 1440 ->
  dayChange shift d t = (t + shift) / 1440.
Proof.
  intros [Hlin Hshift] Hd H. unfold dayChange, wallOf.
  destruct (Z.eqb_spec t 1440); [subst|]; rewrite Hlin by lia_div; lia_div.
Qed.

Lemma convertSlot_linear (shift : Z) (x : Slot) :
  calendarFits shift -> slotValid x ->
  convertSlot shift x =
  let opensDay := (slotDay x + (slotOpens x + shift) / 1440) mod 7 in
  let closesDay := (slotDay x + (slotCloses x + shift) / 1440) mod 7 in
  if opensDay =? closesDay
  then [mkSlot opensDay ((slotOpens x + shift) mod 1440)
               ((slotCloses x + shift) mod 1440)]
  else if (slotCloses x + shift) mod 1440 =? 0
       then [mkSlot opensDay ((slotOpens x + shift) mod 1440) 1440]
       else [mkSlot opensDay ((slotOpens x + shift) mod 1440) 1440;
             mkSlot closesDay 0 ((slotCloses x + shift) mod 1440)].
Proof.
  intros Hlin (Hd & Ho & Hc). unfold convertSlot, shiftDay.
  rewrite !convertedTime_linear, !dayChange_linear by (assumption || lia).
  reflexivity.
Qed.

Lemma convertSlot_valid (shift : Z) (x : Slot) :
  calendarFits shift -> slotValid x -> Forall slotValid (convertSlot shift x).
Proof.
  intros Hlin Hx. rewrite convertSlot_linear by assumption.
  destruct x as [d o c]. unfold slotValid in *. cbn [slotDay slotOpens slotCloses] in *.
  destruct (Z.eqb_spec ((d + (o + shift) / 1440) mod 7)
                       ((d + (c + shift) / 1440) mod 7)) as [He|Hne].
  - repeat constructor; cbn [slotDay slotOpens slotCloses]; lia_div.
  - destruct (Z.eqb_spec ((c + shift) mod 1440) 0) as [Hz|Hnz];
      repeat constructor; cbn [slotDay slotOpens slotCloses]; lia_div.
Qed.

Lemma convertSlot_covers (shift : Z) (x : Slot) (p : Z) :
  calendarFits shift -> slotValid x ->
  covers (convertSlot shift x) p <-> covered x (p - shift).
Proof.
  intros Hlin Hx. rewrite convertSlot_linear by assumption.
  destruct x as [d o c]. unfold slotValid in *. cbn [slotDay slotOpens slotCloses] in *.
  destruct (Z.eqb_spec ((d + (o + shift) / 1440) mod 7)
                       ((d + (c + shift) / 1440) mod 7)) as [He|Hne].
  - rewrite covers_cons, covers_nil. unfold covered, slotStart, slotEnd. cbn [slotDay slotOpens slotCloses].
    lia_div.
  - destruct (Z.eqb_spec ((c + shift) mod 1440) 0) as [Hz|Hnz].
    + rewrite covers_cons, covers_nil. unfold covered, slotStart, slotEnd. cbn [slotDay slotOpens slotCloses].
      lia_div.
    + rewrite !covers_cons, covers_nil. unfold covered, slotStart, slotEnd. cbn [slotDay slotOpens slotCloses].
      lia_div.
Qed.


(** ** Pieces that do not meet *)

Lemma StronglySorted_perm {A : Type} (R : A -> A -> Prop) (l l' : list A) :
  (forall a b, R a b -> R b a) ->
  Permutation l l' -> StronglySorted R l -> StronglySorted R l'.
Proof.
  intros Hsym Hperm.
  induction Hperm as [|x l l' Hperm IH|x y l|l l' l'' _ IH1 _ IH2]; intros Hs.
  - constructor.
  - inversion Hs as [|? ? Hl Hall]; subst. constructor; [now apply IH|].
    now apply (Permutation_Forall Hperm).
  - inversion Hs as [|? ? Hxl Hy]; subst.
    inversion Hxl as [|? ? Hl Hx]; subst.
    inversion Hy as [|? ? Hyx Hyl]; subst.
    constructor; [now constructor|]. constructor; [now apply Hsym|assumption].
  - auto.
Qed.

Lemma StronglySorted_app {A : Type} (R : A -> A -> Prop) (l1 l2 : list A) :
  StronglySorted R l1 -> StronglySorted R l2 ->
  (forall a b, In a l1 -> In b l2 -> R a b) ->
  StronglySorted R (l1 ++ l2).
Proof.
  induction 1 as [|x l1 Hl1 IH Hx]; intros Hl2 Hcross; cbn; [assumption|].
  constructor.
  - apply IH; [assumption|]. intros a b Ha Hb. apply Hcross; [now right|assumption].
  - apply Forall_app. split; [assumption|].
    apply Forall_forall. intros b Hb. apply Hcross; [now left|assumption].
Qed.

Lemma StronglySorted_In {A : Type} (R : A -> A -> Prop) (l : list A) (a b : A) :
  StronglySorted R l -> In a l -> In b l -> a = b \/ R a b \/ R b a.
Proof.
  induction 1 as [|x l Hl IH Hx]; intros Ha Hb; [contradiction|].
  rewrite Forall_forall in Hx.
  destruct Ha as [<-|Ha], Hb as [<-|Hb]; auto.
Qed.

Lemma separate_sym (x y : Slot) : separate x y -> separate y x.
Proof. unfold separate. tauto. Qed.

Lemma covered_own_start (x : Slot) : slotValid x -> covered x (slotStart x).
Proof. unfold slotValid, covered, slotStart, slotEnd. intros Hx. lia_div. Qed.

Lemma meeting_or_separate (x y : Slot) :
  slotValid x -> slotValid y ->
  separate x y \/ exists p, covered x p /\ covered y p.
Proof.
  intros Hx Hy. unfold separate, before.
  destruct (Z.eq_dec (slotDay x) (slotDay y)) as [Hd|Hd]; [|left; lia].
  destruct (Z_le_gt_dec (slotCloses x) (slotOpens y)); [left; lia|].
  destruct (Z_le_gt_dec (slotCloses y) (slotOpens x)); [left; lia|].
  right. exists (Z.max (slotStart x) (slotStart y)).
  unfold slotValid, covered, slotStart, slotEnd in *. lia_div.
Qed.

Lemma followsValid_apart (x y : Slot) (p : Z) :
  followsValid x y -> covered x p -> covered y p -> False.
Proof.
  unfold followsValid, slotValid, follows, covered, slotStart, slotEnd. lia.
Qed.

Lemma convertSlot_separate (shift : Z) (x : Slot) :
  calendarFits shift -> slotValid x -> StronglySorted separate (convertSlot shift x).
Proof.
  intros Hlin Hx. rewrite convertSlot_linear by assumption. cbv zeta.
  destruct (_ =? _) eqn:Hday; [constructor; constructor|].
  destruct (_ =? 0); [constructor; constructor|].
  apply SSorted_cons; [constructor; constructor|].
  constructor; [|constructor].
  apply Z.eqb_neq in Hday. unfold separate, before.
  cbn [slotDay slotOpens slotCloses]. lia.
Qed.

Lemma convertAll_valid (shift : Z) (l : list Slot) :
  calendarFits shift -> Forall slotValid l ->
  Forall slotValid (flat_map (convertSlot shift) l).
Proof.
  intros Hlin. induction 1 as [|x rest Hx _ IH]; cbn [flat_map]; [constructor|].
  apply Forall_app. split; [now apply convertSlot_valid|assumption].
Qed.

Lemma convertAll_covers (shift : Z) (l : list Slot) (p : Z) :
  calendarFits shift -> Forall slotValid l ->
  covers (flat_map (convertSlot shift) l) p <-> covers l (p - shift).
Proof.
  intros Hlin. induction 1 as [|x rest Hx _ IH]; cbn [flat_map].
  - rewrite !covers_nil. tauto.
  - rewrite covers_app, covers_cons, convertSlot_covers, IH by assumption. tauto.
Qed.

Lemma convertAll_separate (shift : Z) (l : list Slot) :
  calendarFits shift -> Forall slotValid l -> StronglySorted followsValid l ->
  StronglySorted separate (flat_map (convertSlot shift) l).
Proof.
  intros Hlin Hv Hs. induction Hs as [|x rest Hrest IH Hx]; cbn [flat_map];
    [constructor|].
  inversion Hv as [|? ? Hvx Hvrest]; subst.
  apply StronglySorted_app; [now apply convertSlot_separate|now apply IH|].
  intros a b Ha Hb. apply in_flat_map in Hb. destruct Hb as (y & Hy & Hb).
  rewrite Forall_forall in Hx, Hvrest.
  pose proof (convertSlot_valid shift x Hlin Hvx) as Hva.
  pose proof (convertSlot_valid shift y Hlin (Hvrest y Hy)) as Hvb.
  rewrite Forall_forall in Hva, Hvb.
  destruct (meeting_or_separate a b (Hva a Ha) (Hvb b Hb)) as [Hsep|(p & Hpa & Hpb)];
    [exact Hsep|exfalso].
  apply (followsValid_apart x y (p - shift) (Hx y Hy)).
  - apply (convertSlot_covers shift x p Hlin Hvx). exists a. now split.
  - apply (convertSlot_covers shift y p Hlin (Hvrest y Hy)). exists b. now split.
Qed.

(** Sorted by key and pairwise separate is sorted by [before]. *)
Lemma sorted_separate_before (l : list Slot) :
  Forall slotValid l -> Sorted keyLe l -> StronglySorted separate l ->
  StronglySorted before l.
Proof.
  intros Hv Hk Hs.
  apply Sorted_StronglySorted in Hk; [|intros x y z; apply keyLe_trans].
  induction Hs as [|x rest Hrest IH Hx]; [constructor|].
  inversion Hv as [|? ? Hvx Hvrest]; subst.
  inversion Hk as [|? ? Hkrest Hkx]; subst.
  constructor; [now apply IH|].
  rewrite Forall_forall in *. intros y Hy.
  specialize (Hx y Hy). specialize (Hkx y Hy). specialize (Hvrest y Hy).
  unfold separate, before, keyLe, slotValid in *. lia.
Qed.

Lemma sortSlots_before (l : list Slot) :
  Forall slotValid l -> StronglySorted separate l ->
  StronglySorted before (sortSlots l) /\ Forall slotValid (sortSlots l).
Proof.
  intros Hv Hs. pose proof (sortSlots_perm l) as Hp.
  assert (Hv' : Forall slotValid (sortSlots l))
    by now apply (Permutation_Forall Hp).
  split; [|exact Hv'].
  apply sorted_separate_before; [exact Hv'|apply sortSlots_sorted|].
  apply (StronglySorted_perm separate l); [apply separate_sym|exact Hp|exact Hs].
Qed.


(** ** Merging pieces that touch *)

Lemma gapsFilled_tail (cur : Slot) (rest : list Slot) :
  Forall slotValid (cur :: rest) -> StronglySorted before (cur :: rest) ->
  gapsFilled (cur :: rest) -> gapsFilled rest.
Proof.
  intros Hv Hs Hg x y Hx Hy Hd Hgap.
  destruct (Hg x y (or_intror Hx) (or_intror Hy) Hd Hgap)
    as (z & [<-|Hz] & Hdz & Hoz); [exfalso|eauto].
  inversion Hs as [|? ? _ Hcur]; subst. inversion Hv as [|? ? _ Hvrest]; subst.
  rewrite Forall_forall in Hcur, Hvrest.
  specialize (Hcur x Hx). specialize (Hvrest x Hx).
  unfold before, slotValid in *. lia.
Qed.

Lemma adjacent_pieces_touch (cur next : Slot) (rest : list Slot) :
  Forall slotValid (cur :: next :: rest) ->
  StronglySorted before (cur :: next :: rest) ->
  gapsFilled (cur :: next :: rest) ->
  adjacentSlots cur next = true ->
  slotDay cur = slotDay next /\ slotCloses cur = slotOpens next.
Proof.
  intros Hv Hs Hg Hadj. unfold adjacentSlots in Hadj.
  apply andb_true_iff in Hadj. destruct Hadj as [Hd Habs].
  apply Z.eqb_eq in Hd. apply Z.leb_le in Habs. split; [exact Hd|].
  inversion Hs as [|? ? Hs' Hcur]; subst. inversion Hcur as [|? ? Hcn _]; subst.
  inversion Hs' as [|? ? _ Hnext]; subst.
  inversion Hv as [|? ? Hvc Hv']; subst. inversion Hv' as [|? ? Hvn Hvr]; subst.
  destruct (Z.eq_dec (slotCloses cur) (slotOpens next)) as [|Hne]; [assumption|].
  exfalso.
  assert (Hgap : slotCloses cur + 1 = slotOpens next)
    by (unfold before in Hcn; lia).
  destruct (Hg cur next (or_introl eq_refl) (or_intror (or_introl eq_refl)) Hd Hgap)
    as (z & [<-|[<-|Hz]] & Hdz & Hoz); [lia|lia|].
  rewrite Forall_forall in Hnext. specialize (Hnext z Hz).
  unfold before, slotValid in *. lia.
Qed.

Lemma gapsFilled_merge (cur next : Slot) (rest : list Slot) :
  Forall slotValid (cur :: next :: rest) ->
  gapsFilled (cur :: next :: rest) ->
  slotDay cur = slotDay next -> slotCloses cur = slotOpens next ->
  gapsFilled (mkSlot (slotDay cur) (slotOpens cur) (slotCloses next) :: rest).
Proof.
  intros Hv Hg Hd Htouch x y Hx Hy Hxy Hgap.
  inversion Hv as [|? ? Hvc Hv']; subst. inversion Hv' as [|? ? Hvn _]; subst.
  set (merged := mkSlot (slotDay cur) (slotOpens cur) (slotCloses next)) in *.
  assert (Hx0 : exists x0, In x0 (cur :: next :: rest) /\
                           slotDay x0 = slotDay x /\ slotCloses x0 = slotCloses x).
  { destruct Hx as [<-|Hx]; [exists next|exists x]; cbn; auto. }
  assert (Hy0 : exists y0, In y0 (cur :: next :: rest) /\
                           slotDay y0 = slotDay y /\ slotOpens y0 = slotOpens y).
  { destruct Hy as [<-|Hy]; [exists cur|exists y]; cbn; auto. }
  destruct Hx0 as (x0 & Hinx & Hdx & Hcx), Hy0 as (y0 & Hiny & Hdy & Hoy).
  destruct (Hg x0 y0 Hinx Hiny) as (z & Hz & Hdz & Hoz); [lia|lia|].
  assert (Hm : slotDay merged = slotDay cur /\ slotOpens merged = slotOpens cur /\
               slotCloses merged = slotCloses next) by (cbn; auto).
  destruct Hz as [<-|[<-|Hz]].
  - exists merged. split; [now left|]. unfold slotValid in *. lia.
  - exists merged. split; [now left|]. unfold slotValid in *. lia.
  - exists z. split; [now right|]. lia.
Qed.

Lemma covered_merge (cur next : Slot) (p : Z) :
  slotValid cur -> slotValid next ->
  slotDay cur = slotDay next -> slotCloses cur = slotOpens next ->
  covered (mkSlot (slotDay cur) (slotOpens cur) (slotCloses next)) p
  <-> covered cur p \/ covered next p.
Proof.
  unfold slotValid, covered, slotStart, slotEnd. cbn [slotDay slotOpens slotCloses].
  lia.
Qed.

Lemma combineSlotsFrom_touching (rest : list Slot) :
  forall cur,
    Forall slotValid (cur :: rest) -> StronglySorted before (cur :: rest) ->
    gapsFilled (cur :: rest) ->
    (forall p, covers (combineSlotsFrom cur rest) p <-> covers (cur :: rest) p) /\
    Forall slotValid (combineSlotsFrom cur rest) /\
    StronglySorted before (combineSlotsFrom cur rest) /\
    (forall w, Forall (before w) (cur :: rest) ->
               Forall (before w) (combineSlotsFrom cur rest)).
Proof.
  induction rest as [|next rest' IH]; intros cur Hv Hs Hg; cbn [combineSlotsFrom].
  - repeat split; auto; tauto.
  - inversion Hv as [|? ? Hvc Hv']; subst. inversion Hv' as [|? ? Hvn Hvr]; subst.
    inversion Hs as [|? ? Hs' Hcur]; subst.
    inversion Hs' as [|? ? Hs'' Hnext]; subst.
    destruct (adjacentSlots cur next) eqn:Hadj.
    + destruct (adjacent_pieces_touch cur next rest' Hv Hs Hg Hadj) as [Hd Htouch].
      replace (slotCloses next <? slotCloses cur) with false
        by (symmetry; apply Z.ltb_ge; unfold slotValid in *; lia).
      set (merged := mkSlot (slotDay cur) (slotOpens cur) (slotCloses next)).
      assert (Hvm : slotValid merged)
        by (unfold slotValid in *; cbn [merged slotDay slotOpens slotCloses]; lia).
      destruct (IH merged) as (Hcov & Hvalid & Hsorted & Hbefore).
      * now constructor.
      * constructor; [assumption|].
        eapply Forall_impl; [|exact Hnext]. intros z Hz.
        unfold before in *. cbn [merged slotDay slotOpens slotCloses]. lia.
      * now apply gapsFilled_merge.
      * repeat split; try assumption.
        -- intros Hp. apply Hcov in Hp. rewrite covers_cons in Hp.
           rewrite !covers_cons. unfold merged in Hp.
           rewrite covered_merge in Hp by assumption. tauto.
        -- intros Hp. apply Hcov. rewrite !covers_cons in Hp.
           rewrite covers_cons. unfold merged.
           rewrite covered_merge by assumption. tauto.
        -- intros w Hw. apply Hbefore.
           inversion Hw as [|? ? Hwc Hw']; subst. inversion Hw'; subst.
           constructor; [|assumption].
           unfold before in *. cbn [merged slotDay slotOpens slotCloses]. lia.
    + destruct (IH next Hv' Hs' (gapsFilled_tail cur _ Hv Hs Hg))
        as (Hcov & Hvalid & Hsorted & Hbefore).
      repeat split.
      * intros Hp. apply covers_cons in Hp. apply covers_cons.
        destruct Hp as [Hp|Hp]; [now left|right; now apply Hcov].
      * intros Hp. apply covers_cons in Hp. apply covers_cons.
        destruct Hp as [Hp|Hp]; [now left|right; now apply Hcov].
      * now constructor.
      * constructor; [assumption|]. now apply Hbefore.
      * intros w Hw. inversion Hw; subst. constructor; [assumption|].
        now apply Hbefore.
Qed.

Lemma before_integral (l : list Slot) :
  Forall slotValid l -> StronglySorted before l -> integral l.
Proof.
  intros Hv Hs. induction Hs as [|x rest Hrest IH Hx]; [exact I|].
  inversion Hv as [|? ? Hvx Hvrest]; subst. cbn [integral].
  split; [unfold slotValid in Hvx; lia|]. split; [|now apply IH].
  destruct rest as [|y rest']; [exact I|].
  inversion Hx as [|? ? Hxy _]; subst. unfold before in Hxy. lia.
Qed.

(** Sorting and merging pieces that are separate and leave no one-minute
    gap between two of them on a day: a canonical list with the same cover. *)
Lemma pipeline_touching (l : list Slot) :
  Forall slotValid l -> StronglySorted separate l -> gapsFilled l ->
  canonicalSlots (combineSlots (sortSlots l)) /\
  forall p, covers (combineSlots (sortSlots l)) p <-> covers l p.
Proof.
  intros Hv Hs Hg.
  destruct (sortSlots_before l Hv Hs) as [Hb Hv'].
  pose proof (sortSlots_perm l) as Hp.
  assert (Hg' : gapsFilled (sortSlots l)).
  { intros x y Hx Hy Hd Hgap.
    destruct (Hg x y) as (z & Hz & Hrest);
      try assumption; try (eapply Permutation_in; [apply Permutation_sym, Hp|]; assumption).
    exists z. split; [|assumption]. now apply (Permutation_in _ Hp). }
  pose proof (sortSlots_sorted l) as Hk.
  destruct (sortSlots l) as [|first rest] eqn:Hsorted.
  - cbn. split; [split; constructor|].
    intros p. rewrite covers_nil. split; [tauto|].
    intros (x & Hx & _). apply (Permutation_in _ Hp) in Hx. contradiction.
  - cbn [combineSlots].
    destruct (combineSlotsFrom_touching rest first Hv' Hb Hg')
      as (Hcov & Hvalid & Hbefore & _).
    split.
    + apply apart_integral_canonical.
      * eapply Forall_impl; [|exact Hvalid]. apply slotValid_ok.
      * now apply combineSlotsFrom_sorted.
      * now apply before_integral.
    + intros p. rewrite Hcov. symmetry. now apply covers_perm.
Qed.


(** ** A canonical schedule is determined by the minutes it covers *)

Lemma head_starts_first (x : Slot) (rest : list Slot) (z : Slot) :
  Forall (followsValid x) rest -> In z (x :: rest) -> slotStart x <= slotStart z.
Proof.
  intros Hx [<-|Hz]; [lia|]. rewrite Forall_forall in Hx.
  specialize (Hx z Hz). unfold followsValid, slotValid, follows, slotStart in *. lia.
Qed.

Lemma covers_start_bound (x : Slot) (l : list Slot) (y : Slot) (rest : list Slot) :
  slotValid x -> Forall slotValid (y :: rest) -> Forall (followsValid y) rest ->
  In x l -> (forall p, covers l p -> covers (y :: rest) p) ->
  slotStart y <= slotStart x.
Proof.
  intros Hx Hv Hy Hin Hsub.
  destruct (Hsub (slotStart x)) as (z & Hz & Hcz).
  { exists x. split; [assumption|now apply covered_own_start]. }
  pose proof (head_starts_first y rest z Hy Hz) as Hmin.
  rewrite Forall_forall in Hv. specialize (Hv z Hz).
  unfold slotValid, covered, slotStart, slotEnd in *. lia_div.
Qed.

Lemma head_end_bound (x1 x2 : Slot) (r1 : list Slot) :
  slotValid x1 -> slotValid x2 -> Forall (followsValid x1) r1 ->
  Forall slotValid r1 ->
  slotDay x1 = slotDay x2 -> slotOpens x1 = slotOpens x2 ->
  (forall p, covered x2 p -> covers (x1 :: r1) p) ->
  slotCloses x2 <= slotCloses x1.
Proof.
  intros Hv1 Hv2 Hf Hvr Hd Ho Hsub.
  destruct (Z_le_gt_dec (slotCloses x2) (slotCloses x1)) as [|Hgt]; [assumption|].
  exfalso. destruct (Hsub (slotEnd x1)) as (z & Hz & Hcz).
  { unfold slotValid, covered, slotStart, slotEnd in *. lia_div. }
  destruct Hz as [<-|Hz].
  - unfold slotValid, covered, slotStart, slotEnd in *. lia_div.
  - rewrite Forall_forall in Hf, Hvr. specialize (Hf z Hz). specialize (Hvr z Hz).
    unfold followsValid, follows, slotValid, covered, slotStart, slotEnd in *.
    lia_div.
Qed.

Lemma canonical_unique (l1 : list Slot) :
  forall l2,
    Forall slotValid l1 -> StronglySorted followsValid l1 ->
    Forall slotValid l2 -> StronglySorted followsValid l2 ->
    (forall p, covers l1 p <-> covers l2 p) -> l1 = l2.
Proof.
  induction l1 as [|x1 r1 IH]; intros l2 Hv1 Hs1 Hv2 Hs2 Hcov.
  - destruct l2 as [|x2 r2]; [reflexivity|exfalso].
    inversion Hv2; subst.
    apply (covers_nil (slotStart x2)), Hcov. exists x2.
    split; [now left|now apply covered_own_start].
  - destruct l2 as [|x2 r2].
    { exfalso. inversion Hv1; subst.
      apply (covers_nil (slotStart x1)), Hcov. exists x1.
      split; [now left|now apply covered_own_start]. }
    inversion Hv1 as [|? ? Hvx1 Hvr1]; subst.
    inversion Hv2 as [|? ? Hvx2 Hvr2]; subst.
    inversion Hs1 as [|? ? Hsr1 Hf1]; subst.
    inversion Hs2 as [|? ? Hsr2 Hf2]; subst.
    assert (Hstart : slotStart x1 = slotStart x2).
    { apply Z.le_antisymm.
      - apply (covers_start_bound x2 (x2 :: r2) x1 r1); auto; [now left|].
        intros p. apply Hcov.
      - apply (covers_start_bound x1 (x1 :: r1) x2 r2); auto; [now left|].
        intros p. apply Hcov. }
    assert (Hd : slotDay x1 = slotDay x2 /\ slotOpens x1 = slotOpens x2)
      by (unfold slotValid, slotStart in *; lia).
    destruct Hd as [Hd Ho].
    assert (Hc : slotCloses x1 = slotCloses x2).
    { apply Z.le_antisymm.
      - apply (head_end_bound x2 x1 r2); auto.
        intros p Hp. apply Hcov. exists x1. split; [now left|assumption].
      - apply (head_end_bound x1 x2 r1); auto.
        intros p Hp. apply Hcov. exists x2. split; [now left|assumption]. }
    assert (Heq : x1 = x2) by (destruct x1, x2; cbn in *; congruence).
    subst x2. f_equal. apply IH; try assumption.
    intros p. rewrite Forall_forall in Hf1, Hf2. split; intros (z & Hz & Hcz).
    + destruct (proj1 (Hcov p)) as (w & [<-|Hw] & Hcw).
      { exists z. split; [now right|assumption]. }
      * exfalso. exact (followsValid_apart _ _ p (Hf1 z Hz) Hcw Hcz).
      * now exists w.
    + destruct (proj2 (Hcov p)) as (w & [<-|Hw] & Hcw).
      { exists z. split; [now right|assumption]. }
      * exfalso. exact (followsValid_apart _ _ p (Hf2 z Hz) Hcw Hcz).
      * now exists w.
Qed.

(** ** No minute stands alone closed *)

Lemma canonical_noIsolatedGap (l : list Slot) :
  canonicalSlots l ->
  (forall x y, In x l -> In y l -> ~ midnightNearMiss x y) ->
  noIsolatedGap (covers l).
Proof.
  intros Hcan Hnm p (x & Hx & Hcx) (y & Hy & Hcy).
  pose proof (canonical_strongly_sorted l Hcan) as Hs.
  destruct Hcan as [Hv _]. rewrite Forall_forall in Hv.
  pose proof (Hv x Hx) as Hvx. pose proof (Hv y Hy) as Hvy.
  pose proof (Hnm x y Hx Hy) as Hxy.
  assert (H : covered x p \/ covered y p).
  { destruct (StronglySorted_In followsValid l x y Hs Hx Hy) as [Heq|[Hf|Hf]].
    - subst y.
      unfold midnightNearMiss, slotValid, covered, slotStart, slotEnd in *.
      lia_div.
    - unfold midnightNearMiss, followsValid, follows, slotValid, covered,
        slotStart, slotEnd in *. lia_div.
    - unfold midnightNearMiss, followsValid, follows, slotValid, covered,
        slotStart, slotEnd in *. lia_div. }
  destruct H; [exists x|exists y]; now split.
Qed.

Lemma noIsolatedGap_gapsFilled (l : list Slot) :
  Forall slotValid l -> noIsolatedGap (covers l) -> gapsFilled l.
Proof.
  intros Hv Hn x y Hx Hy Hd Hgap. rewrite Forall_forall in Hv.
  pose proof (Hv x Hx) as Hvx. pose proof (Hv y Hy) as Hvy.
  destruct (Hn (slotEnd x)) as (z & Hz & Hcz).
  - exists x. split; [assumption|].
    unfold slotValid, covered, slotStart, slotEnd in *. lia_div.
  - exists y. split; [assumption|].
    unfold slotValid, covered, slotStart, slotEnd in *. lia_div.
  - exists z. split; [assumption|]. pose proof (Hv z Hz) as Hvz.
    unfold slotValid, covered, slotStart, slotEnd in *. lia_div.
Qed.

Lemma noIsolatedGap_shift (cov cov' : Z -> Prop) (shift : Z) :
  (forall p, cov' p <-> cov (p - shift)) -> noIsolatedGap cov -> noIsolatedGap cov'.
Proof.
  intros Heq Hn p H1 H2. apply Heq, Hn.
  - replace (p - shift - 1) with (p - 1 - shift) by lia. now apply Heq.
  - replace (p - shift + 1) with (p + 1 - shift) by lia. now apply Heq.
Qed.

(** One leg of a round trip, on slots. *)
Lemma converted_leg (shift : Z) (l : list Slot) :
  calendarFits shift -> canonicalSlots l -> noIsolatedGap (covers l) ->
  let converted := combineSlots (sortSlots (flat_map (convertSlot shift) l)) in
  canonicalSlots converted /\
  (forall p, covers converted p <-> covers l (p - shift)) /\
  noIsolatedGap (covers converted).
Proof.
  intros Hlin Hcan Hn converted.
  pose proof (canonical_strongly_sorted l Hcan) as Hs.
  destruct Hcan as [Hv _].
  pose proof (convertAll_valid shift l Hlin Hv) as Hvp.
  assert (Hcovp : forall p, covers (flat_map (convertSlot shift) l) p
                            <-> covers l (p - shift))
    by (intros p; now apply convertAll_covers).
  destruct (pipeline_touching (flat_map (convertSlot shift) l)) as [Hcan' Hcov'].
  - exact Hvp.
  - now apply convertAll_separate.
  - apply noIsolatedGap_gapsFilled; [exact Hvp|].
    now apply (noIsolatedGap_shift (covers l) _ shift).
  - assert (Hcov : forall p, covers converted p <-> covers l (p - shift))
      by (intros p; unfold converted; rewrite Hcov'; apply Hcovp).
    split; [exact Hcan'|]. split; [exact Hcov|].
    now apply (noIsolatedGap_shift (covers l) _ shift).
Qed.

Lemma round_trip_slots (shift : Z) (l : list Slot) :
  calendarFits shift -> canonicalSlots l -> noIsolatedGap (covers l) ->
  let there := combineSlots (sortSlots (flat_map (convertSlot shift) l)) in
  let back := combineSlots (sortSlots (flat_map (convertSlot (- shift)) there)) in
  canonicalSlots there /\ canonicalSlots back /\ back = l.
Proof.
  intros Hlin Hcan Hn there back.
  destruct (converted_leg shift l Hlin Hcan Hn) as (Hcan1 & Hcov1 & Hn1).
  fold there in Hcan1, Hcov1, Hn1.
  assert (Hlin' : calendarFits (- shift))
    by (destruct Hlin as [Hm Hr]; split; [exact Hm|lia]).
  destruct (converted_leg (- shift) there Hlin' Hcan1 Hn1) as (Hcan2 & Hcov2 & _).
  fold back in Hcan2, Hcov2.
  split; [exact Hcan1|]. split; [exact Hcan2|].
  apply canonical_unique.
  - apply Hcan2.
  - now apply canonical_strongly_sorted.
  - apply Hcan.
  - now apply canonical_strongly_sorted.
  - intros p. rewrite Hcov2, Hcov1.
    replace (p - - shift - shift) with p by lia. tauto.
Qed.


(** ** What the overlap check does reject *)

Lemma StronglySorted_weaken {A : Type} (R R' : A -> A -> Prop) (l : list A) :
  (forall a b, R a b -> R' a b) -> StronglySorted R l -> StronglySorted R' l.
Proof.
  intros Himp. induction 1 as [|x rest Hrest IH Hx]; constructor; [exact IH|].
  eapply Forall_impl; [|exact Hx]. apply Himp.
Qed.

Lemma combineSlotsFrom_valid (rest : list Slot) :
  forall cur, Forall slotValid (cur :: rest) ->
              Forall slotValid (combineSlotsFrom cur rest).
Proof.
  induction rest as [|next rest' IH]; intros cur Hv; cbn [combineSlotsFrom];
    [assumption|].
  inversion Hv as [|? ? Hvc Hv']; subst. inversion Hv' as [|? ? Hvn Hvr]; subst.
  destruct (adjacentSlots cur next).
  - apply IH. constructor; [|assumption].
    unfold slotValid in *. cbn [slotDay slotOpens slotCloses].
    destruct (Z.ltb_spec (slotCloses next) (slotCloses cur)); lia.
  - constructor; [assumption|]. now apply IH.
Qed.

Lemma combineSlotsFrom_nearly (rest : list Slot) :
  forall cur,
    StronglySorted keyLe (cur :: rest) ->
    integral (combineSlotsFrom cur rest) ->
    StronglySorted nearlyBefore (cur :: rest).
Proof.
  induction rest as [|next rest' IH]; intros cur Hs Hi.
  - constructor; constructor.
  - inversion Hs as [|? ? Hs' Hcur]; subst.
    inversion Hcur as [|? ? Hcn Hcr]; subst.
    inversion Hs' as [|? ? Hs'' Hnext]; subst.
    cbn [combineSlotsFrom] in Hi.
    destruct (adjacentSlots cur next) eqn:Hadj.
    + set (merged := mkSlot (slotDay cur) (slotOpens cur)
                            (if slotCloses next <? slotCloses cur
                             then slotCloses cur else slotCloses next)) in *.
      assert (Hm : slotDay merged = slotDay cur /\ slotOpens merged = slotOpens cur /\
                   slotCloses cur <= slotCloses merged /\
                   slotCloses next <= slotCloses merged).
      { cbn [merged slotDay slotOpens slotCloses].
        destruct (Z.ltb_spec (slotCloses next) (slotCloses cur)); lia. }
      unfold adjacentSlots in Hadj. apply andb_true_iff in Hadj.
      destruct Hadj as [Hd Habs]. apply Z.eqb_eq in Hd. apply Z.leb_le in Habs.
      assert (Hsm : StronglySorted nearlyBefore (merged :: rest')).
      { apply IH; [|exact Hi].
        constructor; [assumption|]. eapply Forall_impl; [|exact Hcr].
        intros z Hz. unfold keyLe in *. lia. }
      inversion Hsm as [|? ? Hsr Hmr]; subst.
      constructor; [constructor; [assumption|]|constructor].
      * eapply Forall_impl; [|exact Hmr]. intros z Hz. unfold nearlyBefore in *. lia.
      * unfold nearlyBefore. lia.
      * eapply Forall_impl; [|exact Hmr]. intros z Hz. unfold nearlyBefore in *. lia.
    + destruct (combineSlotsFrom_sorted rest' next (StronglySorted_Sorted Hs'))
        as [_ (c & tl & Heq)].
      cbn [integral] in Hi. destruct Hi as (Hoc & Hhead & Hi').
      rewrite Heq in Hhead. cbn [slotDay slotOpens] in Hhead.
      pose proof (IH next Hs' Hi') as Hsn.
      constructor; [exact Hsn|]. constructor.
      * unfold nearlyBefore, keyLe in *. lia.
      * rewrite Forall_forall in *. intros z Hz.
        specialize (Hcr z Hz). specialize (Hnext z Hz).
        unfold nearlyBefore, keyLe in *. lia.
Qed.

Lemma nearlySeparate_sym (x y : Slot) : nearlySeparate x y -> nearlySeparate y x.
Proof. unfold nearlySeparate. tauto. Qed.

(** When [combineAndCheckIntegrity] returns, any two of the entries it was
    given share at most one minute. *)
Lemma returned_within_tolerance (l : list Slot)
  (combined : list OpeningHoursSpecification) :
  Forall slotOk l ->
  combineAndCheckIntegrity (map render l) = Ok combined ->
  StronglySorted nearlySeparate l.
Proof.
  intros Hok. rewrite combineAndCheckIntegrity_render by assumption.
  destruct (checkIntegrity _) as [[]|] eqn:Hcheck; [|discriminate]. intros _.
  apply checkIntegrity_render in Hcheck.
  2:{ apply (combineAdjacentRanges_render (sortSlots l)). now apply sortSlots_ok. }
  apply (StronglySorted_perm nearlySeparate (sortSlots l));
    [apply nearlySeparate_sym|apply Permutation_sym, sortSlots_perm|].
  apply (StronglySorted_weaken nearlyBefore); [unfold nearlySeparate; tauto|].
  pose proof (sortSlots_sorted l) as Hk.
  apply Sorted_StronglySorted in Hk; [|intros x y z; apply keyLe_trans].
  destruct (sortSlots l) as [|first rest]; [constructor|].
  now apply combineSlotsFrom_nearly.
Qed.

(** With every range well-formed, what it throws is the overlap error. *)
Lemma thrown_is_overlap (l : list Slot) (e : Error) :
  Forall slotValid l ->
  combineAndCheckIntegrity (map render l) = Err e -> isOverlapError e.
Proof.
  intros Hv.
  assert (Hok : Forall slotOk l)
    by (eapply Forall_impl; [|exact Hv]; apply slotValid_ok).
  rewrite combineAndCheckIntegrity_render by assumption.
  pose proof (sortSlots_perm l) as Hp.
  assert (Hvs : Forall slotValid (sortSlots l)) by now apply (Permutation_Forall Hp).
  assert (Hvm : Forall slotValid (combineSlots (sortSlots l))).
  { destruct (sortSlots l); [constructor|]. now apply combineSlotsFrom_valid. }
  destruct (checkIntegrity_valid_slots _ Hvm) as [->|(day & o1 & c1 & o2 & c2 & ->)];
    cbn; [discriminate|].
  intros H. inversion H; subst. unfold isOverlapError. eauto 10.
Qed.

Lemma StronglySorted_two {A : Type} (R : A -> A -> Prop) (l1 l2 l3 : list A)
  (a b : A) :
  StronglySorted R (l1 ++ a :: l2 ++ b :: l3) -> R a b.
Proof.
  induction l1 as [|x l1 IH]; cbn; intros H.
  - inversion H as [|? ? _ Ha]; subst. rewrite Forall_forall in Ha.
    apply Ha. apply in_app_iff. right. now left.
  - inversion H; subst. now apply IH.
Qed.

Lemma twoOf_render (a b : OpeningHoursSpecification) (l : list Slot) :
  twoOf a b (map render l) ->
  exists x y k1 k2 k3,
    l = k1 ++ x :: k2 ++ y :: k3 /\ render x = a /\ render y = b.
Proof.
  intros (l1 & l2 & l3 & H).
  apply map_eq_app in H. destruct H as (k1 & r1 & -> & <- & H).
  apply map_eq_cons in H. destruct H as (x & r2 & -> & <- & H).
  apply map_eq_app in H. destruct H as (k2 & r3 & -> & <- & H).
  apply map_eq_cons in H. destruct H as (y & k3 & -> & <- & <-).
  exists x, y, k1, k2, k3. repeat split.
Qed.

Lemma shareTwoMinutes_render (x y : Slot) :
  slotOk x -> slotOk y -> shareTwoMinutes (render x) (render y) ->
  ~ nearlySeparate x y.
Proof.
  intros Hx Hy [Hday (oa & ca & ob & cb & Hoa & Hca & Hob & Hcb & Hlen)].
  rewrite minutes_opens_render in Hoa, Hob by assumption.
  rewrite minutes_closes_render in Hca, Hcb by assumption.
  inversion Hoa; inversion Hca; inversion Hob; inversion Hcb; subst.
  assert (Hd : slotDay x = slotDay y).
  { apply Z.eqb_eq. rewrite <- day_render_eqb by assumption.
    apply String.eqb_eq, Hday. }
  unfold nearlySeparate, nearlyBefore. lia.
Qed.

Lemma wellFormed_slotValid (x : Slot) :
  slotOk x -> entryWellFormed (render x) -> slotValid x.
Proof.
  intros Hx [_ (o & c & Ho & Hc & Hoc)].
  rewrite minutes_opens_render in Ho by assumption.
  rewrite minutes_closes_render in Hc by assumption.
  inversion Ho; inversion Hc; subst. unfold slotOk, slotValid in *. lia.
Qed.

(** The pipeline on entries read as slots: two entries that share two
    minutes make it throw. *)
Lemma overlapping_pair_thrown (l : list Slot) (a b : OpeningHoursSpecification) :
  Forall slotOk l -> twoOf a b (map render l) -> shareTwoMinutes a b ->
  exists e, combineAndCheckIntegrity (map render l) = Err e /\
            (Forall slotValid l -> isOverlapError e).
Proof.
  intros Hok Htwo Hshare.
  destruct (combineAndCheckIntegrity (map render l)) as [combined|e] eqn:Hrun.
  - exfalso. apply (returned_within_tolerance l combined Hok) in Hrun.
    destruct (twoOf_render a b l Htwo) as (x & y & k1 & k2 & k3 & -> & <- & <-).
    apply StronglySorted_two in Hrun. revert Hrun.
    rewrite Forall_forall in Hok.
    apply shareTwoMinutes_render; try assumption; apply Hok;
      rewrite in_app_iff; right; [now left|].
    right. rewrite in_app_iff. right. now left.
  - exists e. split; [reflexivity|]. intros Hv. now apply (thrown_is_overlap l).
Qed.

(** ** Round trips through another zone *)

Lemma export_render (l : list Slot) (fromTimezone toTimezone : string)
  (offFrom offTo : Z) :
  steady fromTimezone -> steady toTimezone ->
  zoneOffset fromTimezone = Some offFrom -> zoneOffset toTimezone = Some offTo ->
  Forall slotValid l ->
  canonicalSlots
    (combineSlots (sortSlots (flat_map (convertSlot (offTo - offFrom)) l))) ->
  calendarFits (offTo - offFrom) ->
  (converted <- convertAll (map render l) fromTimezone toTimezone ;;
   combineAndCheckIntegrity converted)
  = Ok (map render
          (combineSlots (sortSlots (flat_map (convertSlot (offTo - offFrom)) l)))).
Proof.
  intros Hsf Hst Hf Ht Hv Hcan Hlin.
  assert (Hok : Forall slotOk l)
    by (eapply Forall_impl; [|exact Hv]; apply slotValid_ok).
  rewrite (convertAll_render l offFrom offTo) by assumption. cbn [rbind].
  rewrite combineAndCheckIntegrity_render.
  - replace (checkIntegrity _) with (@Ok unit tt); [reflexivity|].
    symmetry. apply checkIntegrity_render; [now apply canonical_ok|].
    now apply canonical_integral.
  - eapply Forall_impl; [apply slotValid_ok|]. now apply convertAll_valid.
Qed.

Lemma render_nearMiss (x y : Slot) :
  slotValid x -> slotValid y -> midnightNearMiss x y ->
  oneMinuteApartAcrossMidnight (render x) (render y).
Proof.
  intros Hx Hy [Hd Hgap]. unfold oneMinuteApartAcrossMidnight.
  cbn [render dayOfWeek opens closes]. split.
  - rewrite adjustDayOfWeek_dayName by apply Hx. unfold shiftDay. now rewrite <- Hd.
  - destruct Hgap as [[-> ->]|[-> ->]]; [left|right]; split; reflexivity.
Qed.

(** C4, as the code has it. Let the reference week lie within one month and
    let the internal zone and a second zone both be known to the timezone
    library, with fixed offsets between UTC-12:00 and UTC+14:00: no clock
    changes in the reference week, theirs or that of the machine. In every
    reachable state whose schedule has no two entries one minute apart across
    a midnight, exporting into the second zone succeeds, and converting that
    export back (setting a service of the internal zone from it, or exporting
    it from a service of the second zone) yields exactly the stored
    schedule. *)
Theorem round_trip_restores_schedule (s : Service) (zoneB : string)
  (offA offB : Z) :
  weekWithinMonth ->
  steady (userTimezone s) -> steady zoneB ->
  zoneOffset (userTimezone s) = Some offA -> offsetInRange offA ->
  zoneOffset zoneB = Some offB -> offsetInRange offB ->
  reachable s ->
  (forall a b, In a (openingHours s) -> In b (openingHours s) ->
               ~ oneMinuteApartAcrossMidnight a b) ->
  exists exported,
    exportOpeningHours (Some zoneB) s = (Ok exported, s) /\
    normalize (map toInput exported) zoneB (userTimezone s) = Ok (openingHours s) /\
    (converted <- convertAll exported zoneB (userTimezone s) ;;
     combineAndCheckIntegrity converted) = Ok (openingHours s).
Proof.
  intros Hlin HsA HsB HA HrA HB HrB Hreach Hnear. apply reachable_invariant in Hreach.
  destruct Hreach as [(slots & Hs & Hcan) _].
  assert (Hfit : calendarFits (offB - offA))
    by (unfold offsetInRange in *; split; [exact Hlin|lia]).
  assert (Hfit' : calendarFits (offA - offB))
    by (unfold offsetInRange in *; split; [exact Hlin|lia]).
  assert (Hn : noIsolatedGap (covers slots)).
  { apply canonical_noIsolatedGap; [assumption|].
    intros x y Hx Hy Hxy. destruct Hcan as [Hv _]. rewrite Forall_forall in Hv.
    apply (Hnear (render x) (render y)).
    - rewrite Hs. now apply in_map.
    - rewrite Hs. now apply in_map.
    - apply render_nearMiss; auto. }
  destruct (round_trip_slots (offB - offA) slots Hfit Hcan Hn)
    as (Hcan1 & Hcan2 & Hback).
  set (there := combineSlots
                  (sortSlots (flat_map (convertSlot (offB - offA)) slots))) in *.
  replace (- (offB - offA)) with (offA - offB) in Hcan2, Hback by lia.
  assert (Hleg : (converted <- convertAll (map render there) zoneB (userTimezone s) ;;
                  combineAndCheckIntegrity converted) = Ok (openingHours s)).
  { rewrite (export_render there zoneB (userTimezone s) offB offA);
      try assumption; [|apply Hcan1].
    rewrite Hback. now rewrite Hs. }
  exists (map render there). split; [|split].
  - rewrite exportOpeningHours_run. cbn [zoneOr]. rewrite Hs.
    rewrite (export_render slots (userTimezone s) zoneB offA offB);
      try assumption; [reflexivity|apply Hcan].
  - unfold normalize. rewrite preprocess_canonical by assumption. exact Hleg.
  - exact Hleg.
Qed.

(** The sentinel also survives a service that keeps another zone: while no
    clock changes, an interval up to 24:00 set in a zone and exported into
    that zone comes back as it was given. *)
Lemma sentinel_survives_foreign_service (day : string) (t : Z)
  (zoneA zoneB : string) (offA offB : Z) :
  weekWithinMonth -> steady zoneA -> steady zoneB ->
  validDay day -> 0 <= t < 1440 ->
  zoneOffset zoneA = Some offA -> offsetInRange offA ->
  zoneOffset zoneB = Some offB -> offsetInRange offB ->
  let entry := mkSpec "OpeningHoursSpecification" day (formatHHmm t) "24:00" in
  exists s',
    setOpeningHours [toInput entry] (Some zoneB) (freshService zoneA)
    = (Ok tt, s') /\
    exportOpeningHours (Some zoneB) s' = (Ok [entry], s').
Proof.
  intros Hlin HsA HsB Hday Ht HA HrA HB HrB entry.
  destruct (validDay_dayName _ Hday) as (d & Hd & ->).
  assert (Hfit : calendarFits (offB - offA))
    by (unfold offsetInRange in *; split; [exact Hlin|lia]).
  assert (Hfit' : calendarFits (offA - offB))
    by (unfold offsetInRange in *; split; [exact Hlin|lia]).
  set (slot := mkSlot d t 1440).
  assert (Hcan : canonicalSlots [slot]).
  { split; repeat constructor; cbn; lia. }
  assert (Hn : noIsolatedGap (covers [slot])).
  { apply canonical_noIsolatedGap; [assumption|].
    intros x y [<-|[]] [<-|[]] [Hnext _]. cbn in Hnext. lia_div. }
  destruct (round_trip_slots (offA - offB) [slot] Hfit' Hcan Hn)
    as (Hcan1 & Hcan2 & Hback).
  set (there := combineSlots
                  (sortSlots (flat_map (convertSlot (offA - offB)) [slot]))) in *.
  replace (- (offA - offB)) with (offB - offA) in Hcan2, Hback by lia.
  exists (mkService (map render there) zoneA (engineFor (map render there))).
  split.
  - rewrite setOpeningHours_run. cbn [zoneOr freshService userTimezone].
    unfold normalize.
    change [toInput entry] with (map toInput (map render [slot])).
    rewrite preprocess_canonical by assumption. cbn [rbind].
    rewrite (export_render [slot] zoneB zoneA offB offA);
      try assumption; [reflexivity|apply Hcan].
  - rewrite exportOpeningHours_run. cbn [zoneOr userTimezone openingHours].
    rewrite (export_render there zoneA zoneB offA offB);
      try assumption; [|apply Hcan1].
    rewrite Hback. reflexivity.
Qed.

(** C1 (as amended). Take a call of setOpeningHours, addOpeningHoursBatch or
    addOpeningHour whose entries pass the validation and are converted to
    the zone of the service, and two entries of one weekday, among the
    converted ones and, for the two additions, the stored ones, whose
    ranges have two minutes or more in common. The call throws and leaves
    the service as it was; when every converted entry is well-formed, what
    it throws is the overlap error. *)
Theorem overlapping_entries_rejected (s : Service)
  (hours : list OpeningHoursInput) (timezone : option string)
  (preprocessed converted : list OpeningHoursSpecification)
  (a b : OpeningHoursSpecification) :
  reachable s ->
  preprocessOpeningHours hours = Ok preprocessed ->
  convertAll preprocessed (zoneOr timezone s) (userTimezone s) = Ok converted ->
  shareTwoMinutes a b ->
  (twoOf a b converted ->
   exists e, setOpeningHours hours timezone s = (Err e, s) /\
             (Forall entryWellFormed converted -> isOverlapError e)) /\
  (twoOf a b (openingHours s ++ converted) ->
   exists e, addOpeningHoursBatch hours timezone s = (Err e, s) /\
             (Forall entryWellFormed converted -> isOverlapError e)) /\
  (forall day o c,
     hours = [mkInput "OpeningHoursSpecification" (OneDay day) o c] ->
     twoOf a b (openingHours s ++ converted) ->
     exists e, addOpeningHour day o c timezone s = (Err e, s) /\
               (Forall entryWellFormed converted -> isOverlapError e)).
Proof.
  intros Hreach Hpre Hconv Hshare.
  destruct (reachable_invariant s Hreach) as [(slots0 & Hs0 & Hcan0) _].
  pose proof (convertAll_shape _ _ _ _ Hconv) as (_ & slots1 & -> & Hok1).
  assert (Hvalid : Forall entryWellFormed (map render slots1) ->
                   Forall slotValid slots1).
  { rewrite Forall_map. intros Hw.
    rewrite Forall_forall in *. intros x Hx.
    apply wellFormed_slotValid; [apply Hok1|apply Hw]; assumption. }
  assert (Hadd : twoOf a b (openingHours s ++ map render slots1) ->
                 exists e, addOpeningHoursBatch hours timezone s = (Err e, s) /\
                           (Forall entryWellFormed (map render slots1) ->
                            isOverlapError e)).
  { intros Htwo. rewrite addOpeningHoursBatch_run, Hpre. cbn [rbind].
    rewrite Hconv. cbn [rbind].
    rewrite Hs0, <- map_app in Htwo |- *.
    destruct (overlapping_pair_thrown (slots0 ++ slots1) a b) as (e & -> & He);
      [apply Forall_app; split; [now apply canonical_ok|assumption]
      |assumption|assumption|].
    exists e. split; [reflexivity|]. intros Hw. apply He.
    apply Forall_app. split; [apply Hcan0|now apply Hvalid]. }
  split; [|split; [exact Hadd|]].
  - intros Htwo. rewrite setOpeningHours_run. unfold normalize.
    rewrite Hpre. cbn [rbind]. rewrite Hconv. cbn [rbind].
    destruct (overlapping_pair_thrown slots1 a b) as (e & -> & He);
      [assumption|assumption|assumption|].
    exists e. split; [reflexivity|]. intros Hw. now apply He, Hvalid.
  - intros day o c -> Htwo. rewrite addOpeningHour_run.
    destruct timezone as [tz|]; cbn [zoneOr] in *.
    + destruct (Hadd Htwo) as (e & Hrun & He). exists e. now split.
    + destruct (Hadd Htwo) as (e & Hrun & He). exists e. split; [|exact He].
      rewrite addOpeningHoursBatch_run in Hrun |- *. exact Hrun.
Qed.


(** * Further properties of the code *)

(** ** Times, weekdays and their names *)

(** X1. On the times of the data model, 00:00 to 23:59 and 24:00,
    timeIsBefore is the strict order of the minutes they stand for, 24:00
    coming after every other time; a time that cannot be read is before
    nothing and nothing is before it. *)
Theorem timeIsBefore_orders_times :
  (forall a b, 0 <= a <= 1440 -> 0 <= b <= 1440 ->
     timeIsBefore (formatCloses a) (formatCloses b) = (a <? b)) /\
  (forall t u, convertTimeToMinutes t = None ->
     timeIsBefore t u = false /\ timeIsBefore u t = false).
Proof.
  split.
  - intros a b Ha Hb. unfold timeIsBefore.
    now rewrite !minutes_formatCloses by assumption.
  - intros t u Ht. unfold timeIsBefore. rewrite Ht.
    destruct (convertTimeToMinutes u); split; reflexivity.
Qed.

(** X2. areTimesAdjacent does not depend on the order of its two times, and
    it holds only of two readable times at most one minute apart, whichever
    of the two is the later one. *)
Theorem areTimesAdjacent_symmetric :
  (forall t u, areTimesAdjacent t u = areTimesAdjacent u t) /\
  (forall t u, areTimesAdjacent t u = true ->
     exists a b, convertTimeToMinutes t = Some a /\
                 convertTimeToMinutes u = Some b /\ -1 <= a - b <= 1).
Proof.
  split; intros t u; unfold areTimesAdjacent;
    destruct (convertTimeToMinutes t) as [a|], (convertTimeToMinutes u) as [b|];
    cbn [js_sub]; try reflexivity; try discriminate.
  - replace (b - a) with (- (a - b)) by lia. now rewrite Z.abs_opp.
  - intros H. apply Z.leb_le in H. exists a, b. repeat split; lia.
Qed.

Lemma split_not_nil (sep : ascii) (s : string) : split sep s <> [].
Proof.
  destruct s as [|c rest]; cbn [split]; [discriminate|].
  destruct (Ascii.eqb c sep); [discriminate|].
  destruct (split sep rest); discriminate.
Qed.

Lemma split_app (sep : ascii) (s1 s2 : string) :
  split sep (s1 ++ String sep s2) = split sep s1 ++ split sep s2.
Proof.
  induction s1 as [|c s1 IH]; cbn [String.append split].
  - now rewrite Ascii.eqb_refl.
  - destruct (Ascii.eqb c sep); [now rewrite IH|].
    rewrite IH. pose proof (split_not_nil sep s1).
    destruct (split sep s1); [contradiction|reflexivity].
Qed.

Lemma split_no_sep (sep : ascii) (s : string) :
  contains sep s = false -> split sep s = [s].
Proof.
  induction s as [|c rest IH]; cbn [contains split]; [reflexivity|].
  intros H. apply orb_false_iff in H. destruct H as [Hc Hrest].
  rewrite Hc, IH by assumption. reflexivity.
Qed.

Lemma last_app_not_nil {A : Type} (l1 l2 : list A) (d : A) :
  l2 <> [] -> last (l1 ++ l2) d = last l2 d.
Proof.
  intros H. induction l1 as [|x l1 IH]; [reflexivity|].
  cbn [app]. rewrite <- IH. cbn [last].
  destruct (l1 ++ l2) eqn:Heq; [|reflexivity].
  apply app_eq_nil in Heq. destruct Heq. contradiction.
Qed.

Lemma lastSegment_no_slash (day : string) :
  contains "/" (lastSegment day) = false.
Proof.
  unfold lastSegment. induction day as [|c rest IH]; [reflexivity|].
  cbn [split]. destruct (Ascii.eqb c "/") eqn:Hc.
  - pose proof (split_not_nil "/" rest).
    cbn [last]. destruct (split "/" rest); [contradiction|exact IH].
  - pose proof (split_not_nil "/" rest).
    destruct (split "/" rest) as [|piece pieces]; [contradiction|].
    destruct pieces as [|piece' pieces'].
    + cbn [last] in *. cbn [contains]. now rewrite Hc, IH.
    + exact IH.
Qed.

Lemma prefix_contains (c : ascii) (p s : string) :
  String.prefix p s = true -> contains c p = true -> contains c s = true.
Proof.
  revert s. induction p as [|a p IH]; intros s Hp Hc; [discriminate|].
  destruct s as [|b s]; [discriminate|]. cbn [String.prefix] in Hp.
  destruct (ascii_dec a b) as [->|]; [|discriminate].
  cbn [contains] in *. apply orb_true_iff in Hc. apply orb_true_iff.
  destruct Hc as [Hc|Hc]; [now left|right; now apply IH].
Qed.

(** X3. normalizeDayOfWeek turns a schema.org address into the name after
    its last slash: the address followed by a name without slash yields that
    name, and the bare address, which has no name to yield, is returned as it
    is; a string that does not start with the address is returned as it is. *)
Theorem normalizeDayOfWeek_strips_address (name : string) :
  (contains "/" name = false ->
   normalizeDayOfWeek ("https://schema.org/" ++ name)%string =
   match name with
   | EmptyString => "https://schema.org/"
   | _ => name
   end) /\
  (String.prefix "https://schema.org/" name = false ->
   normalizeDayOfWeek name = name).
Proof.
  split.
  - intros Hname. unfold normalizeDayOfWeek, lastSegment.
    change ("https://schema.org/" ++ name)%string
      with ("https://schema.org" ++ String "/" name)%string.
    rewrite split_app, (split_no_sep "/" name) by assumption.
    rewrite last_app_not_nil by discriminate. cbn [last].
    change ("https://schema.org" ++ String "/" name)%string
      with (String "h" ("ttps://schema.org/" ++ name))%string.
    destruct name; reflexivity.
  - intros H. unfold normalizeDayOfWeek. now rewrite H.
Qed.

(** X4. normalizeDayOfWeek is idempotent on every string: what it returns,
    it returns unchanged. *)
Theorem normalizeDayOfWeek_idempotent (day : string) :
  normalizeDayOfWeek (normalizeDayOfWeek day) = normalizeDayOfWeek day.
Proof.
  unfold normalizeDayOfWeek at 2 3.
  destruct (String.prefix "https://schema.org/" day) eqn:Hp.
  - destruct (lastSegment day) as [|a seg] eqn:Hl.
    + unfold normalizeDayOfWeek. now rewrite Hp, Hl.
    + unfold normalizeDayOfWeek.
      destruct (String.prefix "https://schema.org/" (String a seg)) eqn:Hs;
        [exfalso|reflexivity].
      apply (prefix_contains "/") in Hs; [|reflexivity].
      rewrite <- Hl, lastSegment_no_slash in Hs. discriminate.
  - unfold normalizeDayOfWeek. now rewrite Hp.
Qed.

(** X5. On the seven weekday names adjustDayOfWeek moves around the week:
    it returns a weekday name for every change of days, negative ones
    included, a change of 0 or of a whole week returns the name it was
    given, and two changes in a row are the change by their sum. *)
Theorem adjustDayOfWeek_moves_around_week (day : string) (a b : Z) :
  validDay day ->
  validDay (adjustDayOfWeek day a) /\
  adjustDayOfWeek day 0 = day /\
  adjustDayOfWeek day (a + 7) = adjustDayOfWeek day a /\
  adjustDayOfWeek (adjustDayOfWeek day a) b = adjustDayOfWeek day (a + b).
Proof.
  intros Hday. destruct (validDay_dayName day Hday) as (d & Hd & ->).
  rewrite (adjustDayOfWeek_dayName d a), (adjustDayOfWeek_dayName d 0),
    (adjustDayOfWeek_dayName d (a + 7)), (adjustDayOfWeek_dayName d (a + b))
    by assumption.
  pose proof (shiftDay_range d a) as Hr.
  rewrite adjustDayOfWeek_dayName by assumption.
  unfold shiftDay in *. repeat split.
  - now apply dayName_valid.
  - now rewrite Z.add_0_r, Z.mod_small.
  - f_equal. rewrite Z.add_assoc.
    replace (d + a + 7) with (d + a + 1 * 7) by lia. apply Z.mod_add. lia.
  - f_equal. rewrite Z.add_mod_idemp_l by lia. f_equal. lia.
Qed.

(** X6. getNextDay of a weekday name is the name one day later, Monday after
    Sunday: what adjustDayOfWeek returns for a change of one day.  Of a
    string that is no weekday name it is Monday. *)
Theorem getNextDay_is_one_day_later (day : string) :
  (validDay day -> getNextDay day = adjustDayOfWeek day 1) /\
  (~ validDay day -> getNextDay day = "Monday").
Proof.
  split.
  - intros Hday. destruct (validDay_dayName day Hday) as (d & Hd & ->).
    each_day Hd; reflexivity.
  - intros Hday. unfold getNextDay. now rewrite indexOf_absent.
Qed.

(** X7. The two numberings of the weekdays agree modulo 7: the number that
    convertDayStringToNumber gives a name (Monday 1 to Sunday 7), reduced
    modulo 7, is the index at which convertNumberToDayString (Sunday 0 to
    Saturday 6) holds that name.  Outside 0 to 6, so also at Sunday's
    number 7, convertNumberToDayString has no name. *)
Theorem day_numberings_agree :
  (forall day n, convertDayStringToNumber day = Ok n ->
     convertNumberToDayString (n mod 7) = Some day) /\
  (forall index, index < 0 \/ 7 <= index ->
     convertNumberToDayString index = None).
Proof.
  split.
  - intros day n H. pose proof (validDay_of_number day n H) as Hday.
    destruct (validDay_dayName day Hday) as (d & Hd & ->).
    rewrite convertDayStringToNumber_dayName in H by assumption.
    inversion H; subst. each_day Hd; reflexivity.
  - intros index H. unfold convertNumberToDayString.
    destruct (Z.ltb_spec index 0); [reflexivity|].
    apply nth_error_None. cbn [List.length]. lia.
Qed.

(** ** The merge and the validation of a batch *)

Lemma combineFrom_head (rest : list OpeningHoursSpecification) :
  forall cur, exists c tl,
    combineFrom cur rest = withCloses cur c :: tl.
Proof.
  induction rest as [|next rest IH]; intros cur; cbn [combineFrom].
  - exists (closes cur), []. now destruct cur.
  - destruct (_ && _).
    + destruct (IH (withCloses cur
                      (if timeIsBefore (closes next) (closes cur)
                       then closes cur else closes next))) as (c & tl & ->).
      exists c, tl. reflexivity.
    + exists (closes cur), (combineFrom next rest). now destruct cur.
Qed.

Lemma combineFrom_apart (rest : list OpeningHoursSpecification) :
  forall cur, Sorted (fun a b => mergeable a b = false) (combineFrom cur rest).
Proof.
  induction rest as [|next rest IH]; intros cur; cbn [combineFrom].
  - repeat constructor.
  - fold (mergeable cur next). destruct (mergeable cur next) eqn:Hm.
    + apply IH.
    + constructor; [apply IH|].
      destruct (combineFrom_head rest next) as (c & tl & ->).
      constructor. exact Hm.
Qed.

Lemma combineFrom_fixed (rest : list OpeningHoursSpecification) :
  forall cur,
    Sorted (fun a b => mergeable a b = false) (cur :: rest) ->
    combineFrom cur rest = cur :: rest.
Proof.
  induction rest as [|next rest IH]; intros cur H; [reflexivity|].
  inversion H as [|? ? Hrest Hhd]; subst. inversion Hhd as [|? ? Hm]; subst.
  cbn [combineFrom]. fold (mergeable cur next). rewrite Hm.
  now rewrite IH.
Qed.

(** X8. combineAdjacentRanges is idempotent on every list of entries: in
    what it returns no entry is adjacent to the next one on its weekday, so
    that a second pass finds nothing to merge. *)
Theorem combineAdjacentRanges_idempotent (hours : list OpeningHoursSpecification) :
  combineAdjacentRanges (combineAdjacentRanges hours) = combineAdjacentRanges hours
  /\ Sorted (fun a b => mergeable a b = false) (combineAdjacentRanges hours).
Proof.
  assert (H : Sorted (fun a b => mergeable a b = false)
                     (combineAdjacentRanges hours)).
  { destruct hours as [|first rest]; [constructor|apply combineFrom_apart]. }
  split; [|exact H].
  destruct (combineAdjacentRanges hours) as [|first rest]; [reflexivity|].
  now apply combineFrom_fixed.
Qed.

Lemma flatMapR_keep {A : Type} (bad : A -> bool) (err : A -> Error) (l out : list A) :
  flatMapR (fun x => if bad x then Err (err x) else Ok [x]) l = Ok out ->
  out = l /\ Forall (fun x => bad x = false) l.
Proof.
  revert out. induction l as [|x rest IH]; intros out; cbn [flatMapR].
  - intros H. inversion H. split; [reflexivity|constructor].
  - destruct (bad x) eqn:Hx; [discriminate|]. cbn [rbind].
    destruct (flatMapR _ rest) as [zs|]; [|discriminate]. cbn [rbind app].
    intros H. inversion H; subst. destruct (IH zs eq_refl) as [-> Hall].
    split; [reflexivity|]. now constructor.
Qed.

(** X9. When preprocessOpeningHours returns, it returns the entries of
    normalizeAndSplitDays as they are, one per weekday of each entry given,
    in the order given, none dropped and none changed; each of them closes
    neither before nor at the very time it opens. *)
Theorem preprocessOpeningHours_keeps_entries (hours : list OpeningHoursInput)
  (preprocessed : list OpeningHoursSpecification) :
  preprocessOpeningHours hours = Ok preprocessed ->
  preprocessed = normalizeAndSplitDays hours /\
  Forall (fun spec => timeIsBefore (closes spec) (opens spec) = false /\
                      closes spec <> opens spec)
         preprocessed.
Proof.
  unfold preprocessOpeningHours. intros H.
  apply (flatMapR_keep
           (fun spec => timeIsBefore (closes spec) (opens spec)
                        || String.eqb (closes spec) (opens spec))
           (fun spec => InvalidTimeRange (dayOfWeek spec) (opens spec) (closes spec)))
    in H.
  destruct H as [-> Hall]. split; [reflexivity|].
  eapply Forall_impl; [|exact Hall]. cbn beta. intros spec Hspec.
  apply orb_false_iff in Hspec. destruct Hspec as [H1 H2].
  split; [exact H1|]. now apply String.eqb_neq.
Qed.


(** ** The object and its engine *)

(** X10. The constructor keeps the service in the zone of the machine: the
    zone it is given only says how to read the initial hours.  When it
    returns, the object is in a reachable state; without initial hours, or
    with an empty list of them, it returns the fresh object whatever zone it
    is given. *)
Theorem constructor_keeps_machine_zone (envTimezone : string)
  (initialHours : option (list OpeningHoursInput)) (timezone : option string) :
  (forall s, newService envTimezone initialHours timezone = Ok s ->
             userTimezone s = envTimezone /\ reachable s) /\
  newService envTimezone None timezone = Ok (freshService envTimezone) /\
  newService envTimezone (Some []) timezone = Ok (freshService envTimezone).
Proof.
  split; [|split; reflexivity].
  intros s. unfold newService.
  destruct initialHours as [[|spec rest]|];
    try (intros H; inversion H; subst; split; [reflexivity|apply reach_fresh]).
  destruct (setOpeningHours _ _ _) as [[[]|e] s'] eqn:Hset; [|discriminate].
  intros H. inversion H; subst. split.
  - apply setOpeningHours_invariant in Hset. now destruct Hset as [_ ->].
  - eapply reach_set; [apply reach_fresh|exact Hset].
Qed.

Lemma pushRange_first (day : string) (r : OpenRange)
  (table : list (string * list OpenRange)) (key : string) :
  (exists ranges rest, table = (key, ranges) :: rest) ->
  exists ranges rest, pushRange day r table = (key, ranges) :: rest.
Proof.
  intros (ranges & rest & ->). cbn [pushRange].
  destruct (String.eqb key day); eauto.
Qed.

Lemma groupByDay_first (hours : list OpeningHoursSpecification) :
  exists ranges rest,
    groupByDay hours = mkPerDay "OpenRangePerDay" "Monday" ranges :: rest.
Proof.
  unfold groupByDay.
  assert (H : exists ranges rest,
             fold_left
               (fun table spec =>
                  pushRange (dayOfWeek spec)
                            (mkRange (opens spec) (closes spec)) table)
               hours emptyWeek = ("Monday", ranges) :: rest).
  { assert (H0 : exists ranges rest, emptyWeek = ("Monday", ranges) :: rest)
      by (cbn; eauto).
    revert H0. generalize emptyWeek.
    induction hours as [|spec hours IH]; intros table H0; cbn [fold_left];
      [exact H0|].
    apply IH. now apply pushRange_first. }
  destruct H as (ranges & rest & ->). cbn [map]. eauto.
Qed.

Lemma hoursString_not_empty (hours : list OpeningHoursSpecification) :
  String.eqb (hoursString (groupByDay hours)) "" = false.
Proof.
  destruct (groupByDay_first hours) as (ranges & rest & ->).
  unfold hoursString. cbn [map perday_dayOfWeek convertDayOfWeekToShortForm].
  cbn [String.eqb Ascii.eqb Bool.eqb]. cbn [join].
  destruct (map _ rest); reflexivity.
Qed.

Lemma engineFor_string (hours : list OpeningHoursSpecification) :
  engineFor hours = opening_hours (hoursString (groupByDay hours)).
Proof. unfold engineFor. now rewrite hoursString_not_empty. Qed.

(** X11. After every mutating call that returns, the engine of the object is
    the one compiled from the schedule string of the stored entries: that
    string names Monday first and is never empty, so that the fallback of
    generateOpeningHoursInstance to a closed week is never taken. *)
Theorem engine_follows_schedule (s s' : Service) :
  (forall hours, hoursString (groupByDay hours) <> "") /\
  ((exists hours timezone, setOpeningHours hours timezone s = (Ok tt, s')) \/
   (exists hours timezone, addOpeningHoursBatch hours timezone s = (Ok tt, s')) \/
   (exists day o c timezone, addOpeningHour day o c timezone s = (Ok tt, s')) \/
   (exists day timezone, removeOpeningHoursForDay day timezone s = (Ok tt, s')) ->
   openingHoursInstance s' =
   opening_hours (hoursString (groupByDay (openingHours s')))).
Proof.
  split.
  - intros hours. apply String.eqb_neq, hoursString_not_empty.
  - assert (Hset : forall hours timezone,
               setOpeningHours hours timezone s = (Ok tt, s') ->
               openingHoursInstance s' =
               opening_hours (hoursString (groupByDay (openingHours s')))).
    { intros hours timezone. rewrite setOpeningHours_run.
      destruct (normalize _ _ _); [|discriminate].
      intros H. inversion H; subst. cbn. apply engineFor_string. }
    assert (Hadd : forall hours timezone,
               addOpeningHoursBatch hours timezone s = (Ok tt, s') ->
               openingHoursInstance s' =
               opening_hours (hoursString (groupByDay (openingHours s')))).
    { intros hours timezone. rewrite addOpeningHoursBatch_run.
      match goal with |- match ?r with _ => _ end = _ -> _ => destruct r end;
        [|discriminate].
      intros H. inversion H; subst. cbn. apply engineFor_string. }
    intros [(hours & tz & H)|[(hours & tz & H)|[(day & o & c & tz & H)
                                               |(day & tz & H)]]].
    + now apply (Hset hours tz).
    + now apply (Hadd hours tz).
    + rewrite addOpeningHour_run in H. now apply (Hadd _ _ H).
    + rewrite removeOpeningHoursForDay_run in H.
      match type of H with match ?r with _ => _ end = _ => destruct r end;
        [|discriminate].
      now apply (Hset _ _ H).
Qed.

(** ** Validation *)

Lemma validateOpeningHours_run (hours : option (list OpeningHoursInput))
  (s : Service) :
  validateOpeningHours hours s =
  (Ok (validates match hours with
                 | Some hours => hours
                 | None => map toInput (openingHours s)
                 end), s).
Proof.
  unfold validateOpeningHours, validates, mbind, tryCatch, liftR.
  destruct hours as [hours|]; cbn.
  - destruct (preprocessOpeningHours hours) as [pre|]; cbn; [|reflexivity].
    destruct (checkIntegrity pre) as [[]|]; reflexivity.
  - destruct (preprocessOpeningHours _) as [pre|]; cbn; [|reflexivity].
    destruct (checkIntegrity pre) as [[]|]; reflexivity.
Qed.

(** X12. In every reachable state validateOpeningHours, called without
    argument, answers true: the stored schedule passes the checks it was
    stored under. *)
Theorem stored_schedule_validates (s : Service) :
  reachable s -> validateOpeningHours None s = (Ok true, s).
Proof.
  intros H. apply reachable_invariant in H.
  destruct H as [(slots & Hs & Hcan) _].
  rewrite validateOpeningHours_run. unfold validates.
  rewrite Hs, preprocess_canonical by assumption. cbn [rbind].
  replace (checkIntegrity (map render slots)) with (@Ok unit tt); [reflexivity|].
  symmetry. apply checkIntegrity_render; [now apply canonical_ok|].
  now apply canonical_integral.
Qed.

Lemma split_colon_absent (t : string) :
  contains ":" t = false -> convertTimeToMinutes t = None.
Proof.
  intros H. unfold convertTimeToMinutes, parseTime.
  rewrite split_no_sep by assumption. cbn [map].
  now destruct (Number t).
Qed.

(** X13. validateOpeningHours looks neither at the weekday of an entry nor at
    whether its opening time can be read: it answers true for one entry with
    any string as weekday when its times are in order, and for one entry
    whose opening time has no colon, and so no minutes, whatever time of the
    data model it closes at. *)
Theorem validateOpeningHours_overlooks (s : Service) (type day : string) :
  (forall a b, 0 <= a < b -> b <= 1440 ->
     validateOpeningHours
       (Some [mkInput type (OneDay day) (formatHHmm a) (formatCloses b)]) s
     = (Ok true, s)) /\
  (forall o b, contains ":" o = false -> 0 <= b <= 1440 ->
     validateOpeningHours (Some [mkInput type (OneDay day) o (formatCloses b)]) s
     = (Ok true, s)).
Proof.
  split.
  - intros a b Ha Hb. rewrite validateOpeningHours_run.
    unfold validates, preprocessOpeningHours.
    cbn [normalizeAndSplitDays flat_map in_dayOfWeek map app flatMapR in_type
         in_opens in_closes opens closes dayOfWeek].
    unfold timeIsBefore.
    rewrite minutes_formatCloses, minutes_formatHHmm by lia. cbn [js_lt].
    replace (b <? a) with false by (symmetry; apply Z.ltb_ge; lia).
    rewrite <- (formatCloses_opens a), formatCloses_eqb by lia.
    replace (b =? a) with false by (symmetry; apply Z.eqb_neq; lia).
    cbn [orb rbind app checkIntegrity hd_error]. unfold checkEntry.
    cbn [opens closes dayOfWeek].
    rewrite formatCloses_sentinel by lia.
    replace (a =? 1440) with false by (symmetry; apply Z.eqb_neq; lia).
    rewrite !minutes_formatCloses by lia. cbn [js_le js_lt].
    replace (b <=? a) with false by (symmetry; apply Z.leb_gt; lia).
    replace (1440 <? b) with false by (symmetry; apply Z.ltb_ge; lia).
    reflexivity.
  - intros o b Ho Hb. rewrite validateOpeningHours_run.
    unfold validates, preprocessOpeningHours.
    cbn [normalizeAndSplitDays flat_map in_dayOfWeek map app flatMapR in_type
         in_opens in_closes opens closes dayOfWeek].
    pose proof (split_colon_absent o Ho) as Hnan.
    unfold timeIsBefore. rewrite Hnan, minutes_formatCloses by assumption.
    cbn [js_lt].
    replace (String.eqb (formatCloses b) o) with false.
    2:{ symmetry. apply String.eqb_neq. intros <-.
        rewrite minutes_formatCloses in Hnan by assumption. discriminate. }
    cbn [orb rbind app checkIntegrity hd_error]. unfold checkEntry.
    cbn [opens closes dayOfWeek]. rewrite Hnan, minutes_formatCloses by assumption.
    replace (String.eqb o "24:00") with false.
    2:{ symmetry. apply String.eqb_neq. intros ->. discriminate. }
    cbn [js_le js_lt].
    replace (1440 <? b) with false by (symmetry; apply Z.ltb_ge; lia).
    reflexivity.
Qed.







(** ** What the mutating calls throw *)

Lemma flatMapR_app_error {A B : Type} (f : A -> result (list B))
  (l1 l2 : list A) (x : A) (r : list B) (e : Error) :
  flatMapR f l1 = Ok r -> f x = Err e -> flatMapR f (l1 ++ x :: l2) = Err e.
Proof.
  revert r. induction l1 as [|y l1 IH]; intros r H1 Hx; cbn [app flatMapR].
  - now rewrite Hx.
  - cbn [flatMapR] in H1. destruct (f y) as [ys|]; [|discriminate].
    cbn [rbind] in *. destruct (flatMapR f l1) as [zs|] eqn:Hl1; [|discriminate].
    now rewrite (IH zs eq_refl Hx).
Qed.

Lemma convertAndSplitEntry_unknown_day (spec : OpeningHoursSpecification)
  (fromTimezone toTimezone : string) :
  ~ validDay (dayOfWeek spec) ->
  convertAndSplitEntry spec fromTimezone toTimezone
  = Err (InvalidWeekday (dayOfWeek spec)).
Proof.
  intros H. unfold convertAndSplitEntry, convertTimeWithDayChange.
  destruct (parseTime (opens spec)).
  now rewrite convertDayStringToNumber_invalid.
Qed.

(** X14. An entry whose weekday, once normalized, is neither one of the
    seven names nor a property name inherited from Object.prototype makes
    setOpeningHours, addOpeningHoursBatch and addOpeningHour throw the
    invalid-weekday error for that name and leave the object as it was,
    when the times of the batch are within the input domain, the batch
    passes the check of the time ranges and the entries before it can be
    converted. *)
Theorem unknown_weekday_rejected (s : Service) :
  (forall hours timezone earlier spec later converted,
      preprocessOpeningHours hours = Ok (earlier ++ spec :: later) ->
      Forall (fun entry => plainTime (opens entry) /\ plainTime (closes entry))
             (earlier ++ spec :: later) ->
      convertAll earlier (zoneOr timezone s) (userTimezone s) = Ok converted ->
      unknownDay (dayOfWeek spec) ->
      setOpeningHours hours timezone s
      = (Err (InvalidWeekday (dayOfWeek spec)), s) /\
      addOpeningHoursBatch hours timezone s
      = (Err (InvalidWeekday (dayOfWeek spec)), s)) /\
  (forall day o c timezone,
      unknownDay (normalizeDayOfWeek day) ->
      plainTime o -> plainTime c ->
      timeIsBefore c o = false -> c <> o ->
      addOpeningHour day o c timezone s
      = (Err (InvalidWeekday (normalizeDayOfWeek day)), s)).
Proof.
  assert (Hbatch : forall hours timezone earlier spec later converted,
      preprocessOpeningHours hours = Ok (earlier ++ spec :: later) ->
      convertAll earlier (zoneOr timezone s) (userTimezone s) = Ok converted ->
      ~ validDay (dayOfWeek spec) ->
      setOpeningHours hours timezone s
      = (Err (InvalidWeekday (dayOfWeek spec)), s) /\
      addOpeningHoursBatch hours timezone s
      = (Err (InvalidWeekday (dayOfWeek spec)), s)).
  { intros hours timezone earlier spec later converted Hpre Hconv Hday.
    rewrite setOpeningHours_run, addOpeningHoursBatch_run. unfold normalize.
    rewrite Hpre. cbn [rbind]. unfold convertAll in *.
    rewrite (flatMapR_app_error _ earlier later spec converted _ Hconv
               (convertAndSplitEntry_unknown_day spec _ _ Hday)).
    split; reflexivity. }
  split.
  - intros hours timezone earlier spec later converted Hpre _ Hconv [Hday _].
    now apply (Hbatch hours timezone earlier spec later converted).
  - intros day o c timezone [Hday _] _ _ Hbefore Hne. rewrite addOpeningHour_run.
    apply (Hbatch _ _ [] (mkSpec "OpeningHoursSpecification"
                                 (normalizeDayOfWeek day) o c) [] []);
      [|reflexivity|exact Hday].
    unfold preprocessOpeningHours.
    cbn [normalizeAndSplitDays flat_map in_dayOfWeek map app flatMapR in_type
         in_opens in_closes opens closes dayOfWeek].
    apply String.eqb_neq in Hne. now rewrite Hbefore, Hne.
Qed.

Lemma preprocess_thrown (hours : list OpeningHoursInput) (e : Error) :
  preprocessOpeningHours hours = Err e -> thrownByNormalizer e.
Proof.
  unfold preprocessOpeningHours.
  induction (normalizeAndSplitDays hours) as [|spec rest IH]; cbn [flatMapR];
    [discriminate|].
  destruct (_ || _).
  - cbn [rbind]. intros H. inversion H. exact I.
  - cbn [rbind]. destruct (flatMapR _ rest); [discriminate|].
    cbn [rbind]. intros H. inversion H; subst. now apply IH.
Qed.

Lemma convertTimeWithDayChange_thrown (time day fromTimezone toTimezone : string)
  (e : Error) :
  convertTimeWithDayChange time day fromTimezone toTimezone = Err e ->
  thrownByNormalizer e.
Proof.
  unfold convertTimeWithDayChange, convertDayStringToNumber.
  destruct (parseTime time) as [h mi]. destruct (_ <? 0).
  - cbn [rbind]. intros H. inversion H. exact I.
  - cbn [rbind].
    destruct h, mi, (zoneOffset fromTimezone), (zoneOffset toTimezone);
      intros H; inversion H; exact I.
Qed.

Lemma convertAll_thrown (specs : list OpeningHoursSpecification)
  (fromTimezone toTimezone : string) (e : Error) :
  convertAll specs fromTimezone toTimezone = Err e -> thrownByNormalizer e.
Proof.
  unfold convertAll. induction specs as [|spec rest IH]; cbn [flatMapR];
    [discriminate|].
  destruct (convertAndSplitEntry spec fromTimezone toTimezone) as [out|e1] eqn:H1.
  - cbn [rbind]. destruct (flatMapR _ rest); [discriminate|].
    cbn [rbind]. intros H. inversion H; subst. now apply IH.
  - cbn [rbind]. intros H. inversion H; subst. revert H1.
    unfold convertAndSplitEntry.
    destruct (convertTimeWithDayChange (opens spec) _ _ _) as [oc|eo] eqn:Ho.
    + cbn [rbind].
      destruct (convertTimeWithDayChange (closes spec) _ _ _) as [cc|ec] eqn:Hc.
      * cbn [rbind]. destruct (String.eqb _ _); [discriminate|].
        destruct (_ && _); [discriminate|].
        destruct (_ && _); [discriminate|].
        destruct (String.eqb _ _); discriminate.
      * cbn [rbind]. intros H1. inversion H1; subst.
        eapply convertTimeWithDayChange_thrown; eassumption.
    + cbn [rbind]. intros H1. inversion H1; subst.
      eapply convertTimeWithDayChange_thrown; eassumption.
Qed.

Lemma checkIntegrity_render_thrown (l : list Slot) (e : Error) :
  Forall slotOk l -> checkIntegrity (map render l) = Err e ->
  thrownByNormalizer e.
Proof.
  induction 1 as [|x rest Hx Hrest IH]; cbn [map checkIntegrity]; [discriminate|].
  rewrite hd_error_map, checkEntry_render; [|assumption|].
  2:{ destruct Hrest; cbn; [exact I|assumption]. }
  destruct (_ <=? _).
  - cbn [rbind]. intros H. inversion H. exact I.
  - destruct (hd_error rest) as [y|].
    + destruct (_ && _); cbn [rbind].
      * intros H. inversion H. exact I.
      * exact IH.
    + cbn [rbind]. exact IH.
Qed.

Lemma combine_render_thrown (l : list Slot) (e : Error) :
  Forall slotOk l -> combineAndCheckIntegrity (map render l) = Err e ->
  thrownByNormalizer e.
Proof.
  intros Hok. rewrite combineAndCheckIntegrity_render by assumption.
  destruct (checkIntegrity _) as [[]|e'] eqn:Hcheck; [discriminate|].
  cbn [rbind]. intros H. inversion H; subst.
  apply (checkIntegrity_render_thrown _ _
           (proj2 (combineAdjacentRanges_render (sortSlots l)
                     (sortSlots_ok l Hok))) Hcheck).
Qed.

Lemma normalize_thrown (hours : list OpeningHoursInput)
  (fromTimezone toTimezone : string) (e : Error) :
  normalize hours fromTimezone toTimezone = Err e -> thrownByNormalizer e.
Proof.
  unfold normalize.
  destruct (preprocessOpeningHours hours) as [pre|e1] eqn:Hpre.
  - cbn [rbind].
    destruct (convertAll pre fromTimezone toTimezone) as [conv|e2] eqn:Hconv.
    + cbn [rbind]. apply convertAll_shape in Hconv.
      destruct Hconv as (_ & slots & -> & Hok). now apply combine_render_thrown.
    + cbn [rbind]. intros H. inversion H; subst.
      eapply convertAll_thrown; eassumption.
  - cbn [rbind]. intros H. inversion H; subst.
    eapply preprocess_thrown; eassumption.
Qed.

Lemma filter_map_swap {A B : Type} (f : A -> B) (P : B -> bool) (l : list A) :
  filter P (map f l) = map f (filter (fun x => P (f x)) l).
Proof.
  induction l as [|x l IH]; cbn [map filter]; [reflexivity|].
  destruct (P (f x)); cbn [map]; now rewrite IH.
Qed.

Lemma Forall_filter {A : Type} (Q : A -> Prop) (P : A -> bool) (l : list A) :
  Forall Q l -> Forall Q (filter P l).
Proof.
  induction 1 as [|x l Hx _ IH]; cbn [filter]; [constructor|].
  destruct (P x); [now constructor|assumption].
Qed.

Lemma viewIn_shape (timezone : string) (s : Service) :
  serviceInvariant s ->
  match viewIn timezone s with
  | Ok hours => exists slots, hours = map render slots /\ canonicalSlots slots
  | Err e => thrownByNormalizer e
  end.
Proof.
  intros [(slots & Hs & Hcan) _]. unfold viewIn.
  destruct (negb _); [|now exists slots].
  destruct (convertAll _ _ _) as [conv|e] eqn:Hconv.
  - cbn [rbind]. apply convertAll_shape in Hconv.
    destruct Hconv as (_ & slots1 & -> & Hok).
    destruct (combineAndCheckIntegrity _) as [combined|e] eqn:Hcomb.
    + apply combineAndCheckIntegrity_canonical in Hcomb; [|assumption].
      destruct Hcomb as [-> Hcan']. eauto.
    + now apply (combine_render_thrown slots1).
  - cbn [rbind]. eapply convertAll_thrown; eassumption.
Qed.

(** X15. In every reachable state, what setOpeningHours,
    addOpeningHoursBatch, addOpeningHour, removeOpeningHoursForDay and
    exportOpeningHours throw is an invalid weekday, an invalid time value,
    an invalid time range or an overlap: the two checks of checkIntegrity
    for an entry that opens at 24:00 and for one that closes after 24:00
    never fire on converted entries. *)
Theorem converted_entries_keep_day_bounds (s s' : Service) (e : Error) :
  reachable s ->
  (exists hours timezone, setOpeningHours hours timezone s = (Err e, s')) \/
  (exists hours timezone, addOpeningHoursBatch hours timezone s = (Err e, s')) \/
  (exists day o c timezone, addOpeningHour day o c timezone s = (Err e, s')) \/
  (exists day timezone, removeOpeningHoursForDay day timezone s = (Err e, s')) \/
  (exists timezone, exportOpeningHours timezone s = (Err e, s')) ->
  thrownByNormalizer e.
Proof.
  intros Hreach. apply reachable_invariant in Hreach.
  pose proof Hreach as [(slots0 & Hs0 & Hcan0) _].
  assert (Hset : forall hours timezone,
             setOpeningHours hours timezone s = (Err e, s') ->
             thrownByNormalizer e).
  { intros hours timezone. rewrite setOpeningHours_run.
    destruct (normalize _ _ _) eqn:Hn; intros H; inversion H; subst.
    eapply normalize_thrown; eassumption. }
  assert (Hadd : forall hours timezone,
             addOpeningHoursBatch hours timezone s = (Err e, s') ->
             thrownByNormalizer e).
  { intros hours timezone. rewrite addOpeningHoursBatch_run.
    destruct (preprocessOpeningHours hours) as [pre|e1] eqn:Hpre; cbn [rbind].
    - destruct (convertAll pre _ _) as [conv|e2] eqn:Hconv; cbn [rbind].
      + apply convertAll_shape in Hconv. destruct Hconv as (_ & slots1 & -> & Hok).
        rewrite Hs0, <- map_app.
        destruct (combineAndCheckIntegrity _) eqn:Hcomb;
          intros H; inversion H; subst.
        apply (combine_render_thrown (slots0 ++ slots1)); [|assumption].
        apply Forall_app. split; [now apply canonical_ok|assumption].
      + intros H. inversion H; subst. eapply convertAll_thrown; eassumption.
    - intros H. inversion H; subst. eapply preprocess_thrown; eassumption. }
  intros [(hours & tz & H)|[(hours & tz & H)|[(day & o & c & tz & H)
         |[(day & tz & H)|(tz & H)]]]].
  - now apply (Hset hours tz).
  - now apply (Hadd hours tz).
  - rewrite addOpeningHour_run in H. now apply (Hadd _ _ H).
  - rewrite removeOpeningHoursForDay_run in H.
    pose proof (viewIn_shape (zoneOr tz s) s Hreach) as Hview.
    destruct (viewIn (zoneOr tz s) s) as [hours|e1]; cbn [rbind] in H.
    + destruct Hview as (slots & -> & Hcan).
      rewrite filter_map_swap in H.
      destruct (combineAndCheckIntegrity _) as [combined|e2] eqn:Hcomb.
      * now apply (Hset _ _ H).
      * inversion H; subst. revert Hcomb. apply combine_render_thrown.
        apply Forall_filter. now apply canonical_ok.
    + now inversion H; subst.
  - rewrite exportOpeningHours_run in H. inversion H; subst.
    destruct (convertAll _ _ _) as [conv|e1] eqn:Hconv; cbn [rbind] in *.
    + apply convertAll_shape in Hconv. destruct Hconv as (_ & slots1 & -> & Hok).
      now apply (combine_render_thrown slots1).
    + match goal with H1 : Err _ = Err _ |- _ => inversion H1; subst end.
      eapply convertAll_thrown; eassumption.
Qed.


(** ** Removing a weekday, and the views by weekday *)

Lemma StronglySorted_filter {A : Type} (R : A -> A -> Prop) (P : A -> bool)
  (l : list A) :
  StronglySorted R l -> StronglySorted R (filter P l).
Proof.
  induction 1 as [|x l Hl IH Hx]; cbn [filter]; [constructor|].
  destruct (P x); [|exact IH]. constructor; [exact IH|].
  now apply Forall_filter.
Qed.

Lemma strongly_sorted_canonical (l : list Slot) :
  StronglySorted followsValid l -> Forall slotValid l -> canonicalSlots l.
Proof.
  intros Hs Hv. split; [exact Hv|].
  apply StronglySorted_Sorted in Hs.
  induction Hs as [|x l Hl IH Hx]; constructor.
  - apply IH. now inversion Hv.
  - destruct Hx as [|y l' Hxy]; constructor. apply Hxy.
Qed.

Lemma canonical_filter (P : Slot -> bool) (l : list Slot) :
  canonicalSlots l -> canonicalSlots (filter P l).
Proof.
  intros Hcan. apply strongly_sorted_canonical.
  - now apply StronglySorted_filter, canonical_strongly_sorted.
  - apply Forall_filter, Hcan.
Qed.

Lemma removeOpeningHoursForDay_own (s : Service) (day : string) :
  steady (userTimezone s) ->
  serviceInvariant s ->
  let remaining :=
    filter (fun spec => negb (String.eqb (dayOfWeek spec) day)) (openingHours s) in
  removeOpeningHoursForDay day (Some (userTimezone s)) s
  = (Ok tt, mkService remaining (userTimezone s) (engineFor remaining)).
Proof.
  intros Hsteady [(slots & Hs & Hcan) Hz] remaining.
  rewrite removeOpeningHoursForDay_run. cbn [zoneOr]. rewrite viewIn_own.
  cbn [rbind]. fold remaining.
  assert (Hrem : exists kept, remaining = map render kept /\ canonicalSlots kept
                              /\ (kept <> [] -> slots <> [])).
  { unfold remaining. rewrite Hs, filter_map_swap. eexists.
    split; [reflexivity|]. split; [now apply canonical_filter|].
    intros Hne ->. now apply Hne. }
  destruct Hrem as (kept & -> & Hcank & Hne).
  rewrite combineAndCheckIntegrity_id by assumption.
  rewrite setOpeningHours_run. cbn [zoneOr].
  destruct (normalize_canonical_id kept (userTimezone s) Hsteady Hcank) as [-> _];
    [|reflexivity].
  intros Hk. apply Hz. rewrite Hs. specialize (Hne Hk).
  destruct slots; [congruence|discriminate].
Qed.

(** X16. When no clock changes in the reference week, neither that of the
    zone of the object nor that of the machine (no start or end of daylight
    time), then in every reachable state removeOpeningHoursForDay in the
    zone of the object (by default or by name) returns, for every string
    given as weekday: it stores the entries of the other weekdays as they
    were, in their order, and none of that weekday; a string that is no
    weekday of the schedule leaves the schedule as it was. *)
Theorem removeOpeningHoursForDay_keeps_other_days (s : Service) (day : string) :
  steady (userTimezone s) ->
  reachable s ->
  let remaining :=
    filter (fun spec => negb (String.eqb (dayOfWeek spec) day)) (openingHours s) in
  let s' := mkService remaining (userTimezone s) (engineFor remaining) in
  removeOpeningHoursForDay day None s = (Ok tt, s') /\
  removeOpeningHoursForDay day (Some (userTimezone s)) s = (Ok tt, s') /\
  (rangesOf day (openingHours s) = [] -> remaining = openingHours s).
Proof.
  intros Hsteady Hreach remaining s'. apply reachable_invariant in Hreach.
  pose proof (removeOpeningHoursForDay_own s day Hsteady Hreach) as Hrun.
  cbv zeta in Hrun. fold remaining in Hrun. fold s' in Hrun.
  split; [|split; [exact Hrun|]].
  - rewrite <- Hrun. rewrite !removeOpeningHoursForDay_run. reflexivity.
  - unfold remaining, rangesOf. generalize (openingHours s).
    induction l as [|spec l IH]; cbn [filter map]; [reflexivity|].
    destruct (String.eqb (dayOfWeek spec) day); cbn [negb map]; [discriminate|].
    intros H. now rewrite IH.
Qed.

Lemma rangesOf_unknown (day : string) (slots : list Slot) :
  Forall slotOk slots -> ~ validDay day -> rangesOf day (map render slots) = [].
Proof.
  intros Hok Hday. unfold rangesOf.
  induction Hok as [|x rest Hx _ IH]; cbn [map filter]; [reflexivity|].
  destruct (String.eqb_spec (dayOfWeek (render x)) day) as [Heq|_]; [|exact IH].
  exfalso. apply Hday. rewrite <- Heq. apply dayName_valid, Hx.
Qed.

Lemma getOpenRangeForDay_own (s : Service) (day : string) :
  serviceInvariant s ->
  getOpenRangeForDay day None s
  = (Ok (mkPerDay "OpenRangePerDay" day (rangesOf day (openingHours s))), s).
Proof.
  intros [(slots & Hs & Hcan) _].
  unfold getOpenRangeForDay, mbind, orUserTimezone, getUserTimezone.
  rewrite getOpenRangePerDay_run. cbn [zoneOr]. rewrite viewIn_own.
  rewrite groupByDay_valid by (rewrite Hs; now apply canonical_days_valid).
  unfold mret. f_equal. f_equal.
  unfold weekDays. cbn [map find perday_dayOfWeek].
  repeat (match goal with
          | |- context [String.eqb ?d day] =>
              destruct (String.eqb_spec d day) as [<-|?]; [reflexivity|]
          end).
  rewrite Hs, rangesOf_unknown; [reflexivity|now apply canonical_ok|].
  unfold validDay, weekDays. cbn [In]. intuition congruence.
Qed.

(** X17. In every reachable state getOpenRangeForDay in the zone of the
    object returns, for every string given as weekday, the record of that
    string with the ranges of the stored entries of that weekday, in their
    order; for a string that is none of the seven names these are none. *)
Theorem open_range_for_day (s : Service) (day : string) :
  reachable s ->
  getOpenRangeForDay day None s
  = (Ok (mkPerDay "OpenRangePerDay" day (rangesOf day (openingHours s))), s) /\
  getOpenRangeForDay day (Some (userTimezone s)) s
  = (Ok (mkPerDay "OpenRangePerDay" day (rangesOf day (openingHours s))), s) /\
  (~ validDay day -> rangesOf day (openingHours s) = []).
Proof.
  intros Hreach. apply reachable_invariant in Hreach.
  pose proof (getOpenRangeForDay_own s day Hreach) as Hrun.
  destruct Hreach as [(slots & Hs & Hcan) _].
  split; [exact Hrun|]. split.
  - rewrite <- Hrun. unfold getOpenRangeForDay, mbind, orUserTimezone.
    reflexivity.
  - intros Hday. rewrite Hs. apply rangesOf_unknown; [|assumption].
    now apply canonical_ok.
Qed.

(** X18. In every reachable state getDaysWithoutOpeningHours returns, in the
    order of the week, the weekdays for which the schedule holds no entry: a
    string is among them exactly when it is a weekday name for which
    getOpenRangeForDay returns no range. *)
Theorem days_without_hours (s : Service) :
  reachable s ->
  let days :=
    filter (fun day => match rangesOf day (openingHours s) with
                       | [] => true
                       | _ :: _ => false
                       end)
           ["Monday"; "Tuesday"; "Wednesday"; "Thursday"; "Friday";
            "Saturday"; "Sunday"] in
  getDaysWithoutOpeningHours s = (Ok days, s) /\
  forall day,
    In day days <->
    validDay day /\
    getOpenRangeForDay day None s = (Ok (mkPerDay "OpenRangePerDay" day []), s).
Proof.
  intros Hreach days. apply reachable_invariant in Hreach. split.
  - unfold getDaysWithoutOpeningHours, mbind, getOpeningHours, mret.
    f_equal. f_equal. apply filter_ext. intros day. unfold rangesOf.
    induction (openingHours s) as [|spec l IH]; cbn [map existsb filter];
      [reflexivity|].
    rewrite String.eqb_sym.
    destruct (String.eqb (dayOfWeek spec) day); cbn [orb negb map];
      [reflexivity|exact IH].
  - intros day. unfold days. rewrite filter_In.
    rewrite (getOpenRangeForDay_own s day Hreach). fold weekDays.
    fold (validDay day).
    destruct (rangesOf day (openingHours s)) as [|r rest].
    + tauto.
    + split; [intros [_ H]; discriminate|].
      intros [_ H]. inversion H.
Qed.

Lemma filter_day_render (d : Z) (slots : list Slot) :
  0 <= d < 7 -> Forall slotOk slots ->
  map (fun range => mkSpec "OpeningHoursSpecification" (dayName d)
                           (open range) (range_closes range))
      (rangesOf (dayName d) (map render slots))
  = map render (filter (fun x => slotDay x =? d) slots).
Proof.
  intros Hd Hok. unfold rangesOf.
  induction Hok as [|x rest Hx _ IH]; cbn [map filter]; [reflexivity|].
  cbn [render dayOfWeek]. rewrite dayName_eqb by (assumption || apply Hx).
  destruct (Z.eqb_spec (slotDay x) d) as [Heq|_]; [|exact IH].
  cbn [map]. rewrite IH. f_equal. cbn [open range_closes opens closes].
  unfold render. now rewrite Heq.
Qed.

Lemma filter_from_day (d : Z) (slots : list Slot) :
  StronglySorted (fun x y => slotDay x <= slotDay y) slots ->
  filter (fun x => d <=? slotDay x) slots
  = filter (fun x => slotDay x =? d) slots
    ++ filter (fun x => d + 1 <=? slotDay x) slots.
Proof.
  induction 1 as [|x rest Hrest IH Hx]; cbn [filter]; [reflexivity|].
  destruct (Z.leb_spec d (slotDay x)) as [Hle|Hlt].
  - destruct (Z.eqb_spec (slotDay x) d) as [Heq|Hne].
    + replace (d + 1 <=? slotDay x) with false by (symmetry; apply Z.leb_gt; lia).
      cbn [app]. now rewrite IH.
    + replace (d + 1 <=? slotDay x) with true by (symmetry; apply Z.leb_le; lia).
      rewrite IH.
      replace (filter (fun y => slotDay y =? d) rest) with (@nil Slot);
        [reflexivity|].
      symmetry. clear IH Hrest. induction Hx as [|y rest Hy _ IH];
        cbn [filter]; [reflexivity|].
      replace (slotDay y =? d) with false by (symmetry; apply Z.eqb_neq; lia).
      exact IH.
  - replace (slotDay x =? d) with false by (symmetry; apply Z.eqb_neq; lia).
    replace (d + 1 <=? slotDay x) with false by (symmetry; apply Z.leb_gt; lia).
    exact IH.
Qed.

Lemma filter_all {A : Type} (P : A -> bool) (l : list A) :
  Forall (fun x => P x = true) l -> filter P l = l.
Proof.
  induction 1 as [|x l Hx _ IH]; cbn [filter]; [reflexivity|].
  now rewrite Hx, IH.
Qed.

Lemma filter_none {A : Type} (P : A -> bool) (l : list A) :
  Forall (fun x => P x = false) l -> filter P l = [].
Proof.
  induction 1 as [|x l Hx _ IH]; cbn [filter]; [reflexivity|].
  now rewrite Hx, IH.
Qed.

Lemma days_in_order (slots : list Slot) :
  canonicalSlots slots ->
  StronglySorted (fun x y => slotDay x <= slotDay y) slots.
Proof.
  intros H. apply canonical_strongly_sorted in H.
  apply (StronglySorted_weaken followsValid); [|exact H].
  intros x y (_ & _ & Hf). unfold follows in Hf. lia.
Qed.

Lemma by_day_concat (slots : list Slot) :
  canonicalSlots slots ->
  flat_map (fun d => filter (fun x => slotDay x =? d) slots) [0; 1; 2; 3; 4; 5; 6]
  = slots.
Proof.
  intros Hcan. pose proof (days_in_order slots Hcan) as Hs.
  destruct Hcan as [Hv _].
  assert (H0 : filter (fun x => 0 <=? slotDay x) slots = slots).
  { apply filter_all. eapply Forall_impl; [|exact Hv].
    intros x Hx. apply Z.leb_le, Hx. }
  assert (H7 : filter (fun x => 7 <=? slotDay x) slots = []).
  { apply filter_none. eapply Forall_impl; [|exact Hv].
    intros x Hx. apply Z.leb_gt, Hx. }
  transitivity (filter (fun x => 0 <=? slotDay x) slots); [|exact H0].
  rewrite (filter_from_day 0), (filter_from_day 1), (filter_from_day 2),
    (filter_from_day 3), (filter_from_day 4), (filter_from_day 5),
    (filter_from_day 6) by assumption.
  cbn [Z.add Pos.add Pos.succ flat_map]. rewrite H7. reflexivity.
Qed.

(** X19. In every reachable state the view by weekday loses nothing:
    reading the ranges of getOpenRangePerDay back as entries, record after
    record, gives the stored schedule, entry for entry and in its order. *)
Theorem open_ranges_read_back (s : Service) :
  reachable s ->
  exists perDay,
    getOpenRangePerDay None s = (Ok perDay, s) /\
    ungroup perDay = openingHours s.
Proof.
  intros Hreach. apply reachable_invariant in Hreach.
  destruct Hreach as [(slots & Hs & Hcan) _].
  rewrite getOpenRangePerDay_run. cbn [zoneOr]. rewrite viewIn_own.
  eexists. split; [reflexivity|].
  rewrite groupByDay_valid by (rewrite Hs; now apply canonical_days_valid).
  rewrite Hs. unfold ungroup, weekDays.
  cbn [map flat_map perday_dayOfWeek openRange].
  pose proof (canonical_ok slots Hcan) as Hok.
  change "Monday" with (dayName 0). change "Tuesday" with (dayName 1).
  change "Wednesday" with (dayName 2). change "Thursday" with (dayName 3).
  change "Friday" with (dayName 4). change "Saturday" with (dayName 5).
  change "Sunday" with (dayName 6).
  rewrite !filter_day_render by (assumption || lia).
  rewrite app_nil_r, <- !map_app. f_equal.
  etransitivity; [|apply (by_day_concat slots Hcan)].
  cbn [flat_map]. now rewrite app_nil_r.
Qed.

(** X20. When no clock changes in the reference week, neither that of the
    zone of the object nor that of the machine (no start or end of daylight
    time), then in every reachable state and for every zone the view by
    weekday in that zone is the export into that zone, grouped by weekday:
    it returns when the export returns, with the same entries, and throws
    what the export throws. *)
Theorem open_ranges_group_export (s : Service) (timezone : string) :
  steady (userTimezone s) ->
  reachable s ->
  getOpenRangePerDay (Some timezone) s =
  (match fst (exportOpeningHours (Some timezone) s) with
   | Ok exported => Ok (groupByDay exported)
   | Err e => Err e
   end, s).
Proof.
  intros Hsteady Hreach. apply reachable_invariant in Hreach.
  destruct Hreach as [(slots & Hs & Hcan) Hz].
  rewrite getOpenRangePerDay_run, exportOpeningHours_run.
  cbn [zoneOr fst]. unfold viewIn.
  destruct (String.eqb_spec timezone (userTimezone s)) as [->|Hne];
    cbn [negb]; [|reflexivity].
  rewrite Hs.
  destruct (normalize_canonical_id slots (userTimezone s) Hsteady Hcan) as [_ ->];
    [|reflexivity].
  intros Hk. apply Hz. rewrite Hs. destruct slots; [congruence|discriminate].
Qed.


(** ** The open time of the week *)

Lemma totalMinutes_positive (x : Slot) (rest : list Slot) :
  Forall slotValid (x :: rest) -> 0 < totalMinutes (x :: rest).
Proof.
  revert x. induction rest as [|y rest IH]; intros x Hv;
    inversion Hv as [|? ? Hx Hrest]; subst; cbn [totalMinutes fold_right].
  - unfold slotValid in Hx. lia.
  - specialize (IH y Hrest). cbn [totalMinutes fold_right] in IH.
    unfold slotValid in Hx. lia.
Qed.





Lemma openAtMinute_render (l : list Slot) (p : Z) :
  Forall slotOk l -> openAtMinute (map render l) p <-> covers l p.
Proof.
  intros Hok. rewrite Forall_forall in Hok. unfold openAtMinute, covers. split.
  - intros (spec & d & o & c & Hin & Hd & Ho & Hc & Hp).
    apply in_map_iff in Hin. destruct Hin as (x & <- & Hx).
    exists x. split; [exact Hx|]. specialize (Hok x Hx).
    rewrite minutes_opens_render in Ho by assumption.
    rewrite minutes_closes_render in Hc by assumption.
    cbn [render dayOfWeek] in Hd.
    rewrite convertDayStringToNumber_dayName in Hd by apply Hok.
    inversion Hd; inversion Ho; inversion Hc; subst.
    unfold covered, slotStart, slotEnd. lia.
  - intros (x & Hx & Hp). specialize (Hok x Hx).
    exists (render x), (slotDay x + 1), (slotOpens x), (slotCloses x).
    split; [now apply in_map|].
    split; [apply convertDayStringToNumber_dayName, Hok|].
    split; [now apply minutes_opens_render|].
    split; [now apply minutes_closes_render|].
    unfold covered, slotStart, slotEnd in Hp. lia.
Qed.

(** X22. Export moves the open time of the week by the difference of the
    two offsets, minute for minute.  Let the reference week lie within one
    month and let the zone of the object and the zone asked for be known,
    with fixed offsets between UTC-12:00 and UTC+14:00: no clock changes in
    the reference week, theirs or that of the machine.  In every reachable
    state whose schedule has no two entries one minute apart across a
    midnight, the export returns, and a minute of the week lies in an
    exported entry exactly when the minute that many earlier lies in a
    stored entry. *)
Theorem export_moves_open_time (s : Service) (zoneB : string) (offA offB : Z) :
  weekWithinMonth ->
  steady (userTimezone s) -> steady zoneB ->
  zoneOffset (userTimezone s) = Some offA -> offsetInRange offA ->
  zoneOffset zoneB = Some offB -> offsetInRange offB ->
  reachable s ->
  (forall a b, In a (openingHours s) -> In b (openingHours s) ->
               ~ oneMinuteApartAcrossMidnight a b) ->
  exists exported,
    exportOpeningHours (Some zoneB) s = (Ok exported, s) /\
    forall p, openAtMinute exported p
              <-> openAtMinute (openingHours s) (p - (offB - offA)).
Proof.
  intros Hlin HsA HsB HA HrA HB HrB Hreach Hnear.
  apply reachable_invariant in Hreach.
  destruct Hreach as [(slots & Hs & Hcan) _].
  assert (Hfit : calendarFits (offB - offA))
    by (unfold offsetInRange in *; split; [exact Hlin|lia]).
  assert (Hn : noIsolatedGap (covers slots)).
  { apply canonical_noIsolatedGap; [assumption|].
    intros x y Hx Hy Hxy. destruct Hcan as [Hv _]. rewrite Forall_forall in Hv.
    apply (Hnear (render x) (render y)).
    - rewrite Hs. now apply in_map.
    - rewrite Hs. now apply in_map.
    - apply render_nearMiss; auto. }
  destruct (converted_leg (offB - offA) slots Hfit Hcan Hn) as (Hcan1 & Hcov1 & _).
  set (there := combineSlots
                  (sortSlots (flat_map (convertSlot (offB - offA)) slots))) in *.
  exists (map render there). split.
  - rewrite exportOpeningHours_run. cbn [zoneOr]. rewrite Hs.
    rewrite (export_render slots (userTimezone s) zoneB offA offB);
      try assumption; [reflexivity|apply Hcan].
  - intros p. rewrite Hs.
    rewrite !openAtMinute_render by now apply canonical_ok.
    apply Hcov1.
Qed.

(** X23. Whatever exportOpeningHours returns, in whatever state and for
    whatever zone, is a canonical schedule: every entry opens before it
    closes, no later than 24:00, and the entries stand in the order of the
    week, each closing no later than the next one of its weekday opens. *)
Theorem exported_schedule_is_canonical (s s' : Service)
  (timezone : option string) (exported : list OpeningHoursSpecification) :
  exportOpeningHours timezone s = (Ok exported, s') ->
  Forall entryWellFormed exported /\ StronglySorted entriesInOrder exported.
Proof.
  rewrite exportOpeningHours_run.
  destruct (convertAll _ _ _) as [conv|] eqn:Hconv; [|discriminate].
  cbn [rbind]. apply convertAll_shape in Hconv.
  destruct Hconv as (_ & slots & -> & Hok).
  destruct (combineAndCheckIntegrity _) as [combined|] eqn:Hcomb; [|discriminate].
  intros H. inversion H; subst.
  apply combineAndCheckIntegrity_canonical in Hcomb; [|assumption].
  destruct Hcomb as [-> Hcan]. apply canonicalHours_properties. now eexists.
Qed.

(** X24. In every reachable state addOpeningHoursBatch with an empty batch
    returns and keeps the stored schedule, whatever zone it is given, a zone
    the timezone library rejects included. *)
Theorem empty_batch_keeps_schedule (s : Service) (timezone : option string) :
  reachable s ->
  addOpeningHoursBatch [] timezone s =
  (Ok tt, mkService (openingHours s) (userTimezone s)
                    (engineFor (openingHours s))).
Proof.
  intros Hreach. apply reachable_invariant in Hreach.
  destruct Hreach as [(slots & Hs & Hcan) _].
  rewrite addOpeningHoursBatch_run. cbn [preprocessOpeningHours
    normalizeAndSplitDays flat_map flatMapR rbind convertAll].
  unfold preprocessOpeningHours, convertAll. cbn [normalizeAndSplitDays flat_map
    flatMapR rbind]. rewrite app_nil_r, Hs.
  now rewrite combineAndCheckIntegrity_id.
Qed.


(** ** Adding a weekday and removing it again *)

Lemma covered_day (x : Slot) (p : Z) :
  slotValid x -> covered x p -> (p mod 10080) / 1440 = slotDay x.
Proof. unfold slotValid, covered, slotStart, slotEnd. intros Hx Hp. lia_div. Qed.

Lemma covers_filter (P : Slot -> bool) (l : list Slot) (p : Z) :
  covers (filter P l) p <-> exists x, In x l /\ P x = true /\ covered x p.
Proof.
  unfold covers. split.
  - intros (x & Hin & Hp). apply filter_In in Hin. exists x. tauto.
  - intros (x & Hin & HP & Hp). exists x. split; [|exact Hp].
    apply filter_In. tauto.
Qed.

Lemma filter_render_day (keep : bool) (d : Z) (slots : list Slot) :
  0 <= d < 7 -> Forall slotOk slots ->
  filter (fun spec => if keep then String.eqb (dayOfWeek spec) (dayName d)
                      else negb (String.eqb (dayOfWeek spec) (dayName d)))
         (map render slots)
  = map render (filter (fun x => if keep then slotDay x =? d
                                 else negb (slotDay x =? d)) slots).
Proof.
  intros Hd Hok. rewrite filter_map_swap. f_equal.
  apply filter_ext_in. intros x Hx. rewrite Forall_forall in Hok.
  cbn [render dayOfWeek]. rewrite dayName_eqb by (assumption || apply (Hok x Hx)).
  reflexivity.
Qed.

Lemma other_days_only (d : Z) (slots : list Slot) :
  0 <= d < 7 -> Forall slotOk slots ->
  rangesOf (dayName d) (map render slots) = [] ->
  Forall (fun y => slotDay y <> d) slots.
Proof.
  intros Hd Hok. unfold rangesOf.
  induction Hok as [|y rest Hy _ IH]; cbn [map filter]; [constructor|].
  cbn [render dayOfWeek]. rewrite dayName_eqb by (assumption || apply Hy).
  destruct (Z.eqb_spec (slotDay y) d); [discriminate|].
  intros H. constructor; [assumption|now apply IH].
Qed.

(** The schedule once a slot on a weekday of its own is added. *)
Lemma added_on_free_day (slots : list Slot) (x : Slot) :
  canonicalSlots slots -> slotValid x ->
  Forall (fun y => slotDay y <> slotDay x) slots ->
  let added := combineSlots (sortSlots (slots ++ [x])) in
  canonicalSlots added /\
  filter (fun y => slotDay y =? slotDay x) added = [x] /\
  filter (fun y => negb (slotDay y =? slotDay x)) added = slots.
Proof.
  intros Hcan Hx Hfree added.
  pose proof (canonical_strongly_sorted slots Hcan) as Hs.
  pose proof Hcan as [Hv _].
  rewrite Forall_forall in Hfree.
  assert (Hvall : Forall slotValid (slots ++ [x])).
  { apply Forall_app. split; [exact Hv|]. constructor; [exact Hx|constructor]. }
  destruct (pipeline_touching (slots ++ [x])) as [Hcana Hcov].
  - exact Hvall.
  - apply StronglySorted_app.
    + apply (StronglySorted_weaken followsValid); [|exact Hs].
      intros y z (_ & _ & Hf). left. unfold follows, before in *. lia.
    + constructor; constructor.
    + intros y z Hy [<-|[]]. specialize (Hfree y Hy).
      unfold separate, before. lia.
  - intros y z Hy Hz Hday Hgap. exfalso.
    apply in_app_iff in Hy. apply in_app_iff in Hz.
    rewrite Forall_forall in Hv.
    destruct Hy as [Hy|[<-|[]]], Hz as [Hz|[<-|[]]].
    + destruct (StronglySorted_In followsValid slots y z Hs Hy Hz)
        as [->|[(Hvy & Hvz & Hf)|(Hvz & Hvy & Hf)]];
        [specialize (Hv z Hz)|..]; unfold slotValid, follows in *; lia.
    + apply (Hfree y Hy). exact Hday.
    + apply (Hfree z Hz). now symmetry.
    + unfold slotValid in Hx. lia.
  - fold added in Hcana, Hcov.
    pose proof (canonical_strongly_sorted added Hcana) as Hsa.
    pose proof Hcana as [Hva _].
    assert (Hcovx : forall p, covers added p <-> covers slots p \/ covered x p).
    { intros p. rewrite Hcov, covers_app, covers_cons, covers_nil. tauto. }
    split; [exact Hcana|]. split.
    + apply canonical_unique.
      * now apply Forall_filter.
      * now apply StronglySorted_filter.
      * constructor; [exact Hx|constructor].
      * constructor; constructor.
      * intros p. rewrite covers_filter, covers_cons, covers_nil. split.
        -- intros (y & Hy & Hday & Hp). apply Z.eqb_eq in Hday.
           assert (Hc : covers added p) by (exists y; now split).
           apply Hcovx in Hc. destruct Hc as [(z & Hz & Hpz)|Hc]; [|now left].
           exfalso. apply (Hfree z Hz). rewrite Forall_forall in Hv, Hva.
           rewrite <- (covered_day z p (Hv z Hz) Hpz).
           rewrite <- Hday. apply (covered_day y p (Hva y Hy) Hp).
        -- intros [Hp|[]].
           destruct (proj2 (Hcovx p) (or_intror Hp)) as (y & Hy & Hpy).
           exists y. split; [exact Hy|]. split; [|exact Hpy].
           apply Z.eqb_eq. rewrite Forall_forall in Hva.
           rewrite <- (covered_day y p (Hva y Hy) Hpy).
           apply (covered_day x p Hx Hp).
    + apply canonical_unique.
      * now apply Forall_filter.
      * now apply StronglySorted_filter.
      * exact Hv.
      * exact Hs.
      * intros p. rewrite covers_filter. split.
        -- intros (y & Hy & Hday & Hp). apply negb_true_iff, Z.eqb_neq in Hday.
           assert (Hc : covers added p) by (exists y; now split).
           apply Hcovx in Hc. destruct Hc as [Hc|Hc]; [exact Hc|].
           exfalso. apply Hday. rewrite Forall_forall in Hva.
           rewrite <- (covered_day y p (Hva y Hy) Hp).
           apply (covered_day x p Hx Hc).
        -- intros (z & Hz & Hpz).
           destruct (proj2 (Hcovx p) (or_introl (ex_intro _ z (conj Hz Hpz))))
             as (y & Hy & Hpy).
           exists y. split; [exact Hy|]. split; [|exact Hpy].
           apply negb_true_iff, Z.eqb_neq. rewrite Forall_forall in Hv, Hva.
           rewrite <- (covered_day y p (Hva y Hy) Hpy).
           rewrite (covered_day z p (Hv z Hz) Hpz). now apply Hfree.
Qed.

(** X25. When no clock changes in the reference week, neither that of the
    zone of the object nor that of the machine (no start or end of daylight
    time), then in every reachable state held in a zone the timezone library
    knows, hours added in that zone on a weekday that had none are stored as
    the one entry of that weekday, and removing that weekday afterwards
    gives back the schedule as it was before, entry for entry. *)
Theorem added_weekday_removed_again (s : Service) (day : string) (a b : Z) :
  steady (userTimezone s) ->
  reachable s -> zoneOffset (userTimezone s) <> None ->
  validDay day -> rangesOf day (openingHours s) = [] ->
  0 <= a < b -> b <= 1440 ->
  exists s1 s2,
    addOpeningHour day (formatHHmm a) (formatCloses b) None s = (Ok tt, s1) /\
    rangesOf day (openingHours s1) = [mkRange (formatHHmm a) (formatCloses b)] /\
    removeOpeningHoursForDay day None s1 = (Ok tt, s2) /\
    openingHours s2 = openingHours s.
Proof.
  intros Hsteady Hreach Hzone Hday Hnone Ha Hb.
  apply reachable_invariant in Hreach.
  destruct Hreach as [(slots & Hs & Hcan) _].
  destruct (validDay_dayName day Hday) as (d & Hd & ->).
  set (x := mkSlot d a b).
  assert (Hx : slotValid x) by (unfold slotValid; cbn; lia).
  assert (Hcanx : canonicalSlots [x]).
  { split; [constructor; [exact Hx|constructor]|constructor; constructor]. }
  pose proof (canonical_ok slots Hcan) as Hok.
  rewrite Hs in Hnone. apply other_days_only in Hnone; [|assumption..].
  destruct (added_on_free_day slots x Hcan Hx Hnone) as (Hcana & Hone & Hrest).
  set (added := combineSlots (sortSlots (slots ++ [x]))) in *.
  change (slotDay x) with d in Hone, Hrest.
  set (s1 := mkService (map render added) (userTimezone s)
                       (engineFor (map render added))).
  assert (Hadd : addOpeningHour (dayName d) (formatHHmm a) (formatCloses b) None s
                 = (Ok tt, s1)).
  { rewrite addOpeningHour_run, addOpeningHoursBatch_run. cbn [zoneOr].
    change [mkInput "OpeningHoursSpecification" (OneDay (dayName d))
                    (formatHHmm a) (formatCloses b)]
      with (map toInput (map render [x])).
    rewrite preprocess_canonical by assumption. cbn [rbind].
    rewrite convertAll_same_zone by assumption. cbn [rbind].
    rewrite Hs, <- map_app.
    rewrite combineAndCheckIntegrity_render.
    2:{ apply Forall_app. split; [assumption|now apply canonical_ok]. }
    fold added.
    replace (checkIntegrity (map render added)) with (@Ok unit tt); [reflexivity|].
    symmetry. apply checkIntegrity_render; [now apply canonical_ok|].
    now apply canonical_integral. }
  assert (Hinv1 : serviceInvariant s1).
  { split; [now exists added|]. intros _. exact Hzone. }
  pose proof (removeOpeningHoursForDay_own s1 (dayName d) Hsteady Hinv1) as Hrem.
  cbn [s1 openingHours userTimezone] in Hrem.
  rewrite (filter_render_day false d added Hd (canonical_ok added Hcana)) in Hrem.
  cbn match in Hrem. rewrite Hrest in Hrem.
  exists s1. eexists. split; [exact Hadd|]. split; [|split].
  - cbn [s1 openingHours]. unfold rangesOf.
    rewrite (filter_render_day true d added Hd (canonical_ok added Hcana)).
    cbn match. rewrite Hone. reflexivity.
  - rewrite <- Hrem. rewrite !removeOpeningHoursForDay_run. reflexivity.
  - cbn [openingHours]. now rewrite Hs.
Qed.


(** ** The queries answered by the engine *)

(** X26. At every date one of the two windows is empty: openMinutesWindow
    is 0 when the engine is closed at the date and closeMinutesWindow is 0
    when it is open, whatever the clock reads.  So isOpenForDuration and
    isClosedForDuration never both hold of a duration of one minute or more
    at one date. *)
Theorem open_and_closed_windows `{OpeningHoursInstance Engine} (s : Service)
  (date now1 now2 now3 now4 : Z) :
  (openMinutesWindow date now1 now2 s = (Ok 0, s) \/
   closeMinutesWindow date now3 now4 s = (Ok 0, s)) /\
  (forall duration, 0 < duration ->
     isOpenForDuration duration date now1 now2 s = (Ok true, s) ->
     isClosedForDuration duration date now3 now4 s = (Ok false, s)).
Proof.
  unfold isOpenForDuration, isClosedForDuration, openMinutesWindow,
    closeMinutesWindow, isClosedAt, isOpenAt, getOpeningHoursInstance, mbind, mret.
  destruct (instanceGetState (openingHoursInstance s) date); cbn [negb].
  - split; [now right|]. intros duration Hd _.
    replace (duration <=? 0) with false by (symmetry; apply Z.leb_gt; lia).
    reflexivity.
  - split; [now left|]. intros duration Hd.
    replace (duration <=? 0) with false by (symmetry; apply Z.leb_gt; lia).
    discriminate.
Qed.

Lemma getNextChange_run `{OpeningHoursInstance Engine} (date : Z) (s : Service) :
  getNextChange date s =
  (Ok match instanceGetNextChange (openingHoursInstance s) date with
      | Some nextChangeRaw =>
          Some (mkNextChange nextChangeRaw
                  (if instanceGetState (openingHoursInstance s) date
                   then StateClose else StateOpen))
      | None => None
      end, s).
Proof.
  unfold getNextChange, getOpeningHoursInstance, mbind, mret.
  now destruct (instanceGetNextChange (openingHoursInstance s) date).
Qed.

(** X27. With an engine whose state at the instant of its next change is
    the opposite of its state now, the loops of getNextOpeningTime and
    getNextClosingTime end after at most one further question to the engine:
    getNextOpeningTime returns the next change when the engine is closed
    now and the change after the next when it is open, getNextClosingTime
    the other way round; each returns null when the engine has no such
    change. *)
Theorem next_opening_and_closing_time `{OpeningHoursInstance Engine}
  (s : Service) (now : Z) (fuel : nat) :
  let engine := openingHoursInstance s in
  let next := instanceGetNextChange engine now in
  let afterNext := match next with
                   | Some t => instanceGetNextChange engine t
                   | None => None
                   end in
  (forall t, next = Some t ->
             instanceGetState engine t = negb (instanceGetState engine now)) ->
  getNextOpeningTime (S fuel) now s
  = (Ok (Some (if instanceGetState engine now then afterNext else next)), s) /\
  getNextClosingTime (S fuel) now s
  = (Ok (Some (if instanceGetState engine now then next else afterNext)), s).
Proof.
  intros engine next afterNext Hflip.
  unfold getNextOpeningTime, getNextClosingTime, mbind.
  rewrite getNextChange_run. fold engine. fold next.
  unfold afterNext. destruct next as [t|] eqn:Hnext.
  - specialize (Hflip t eq_refl).
    destruct (instanceGetState engine now) eqn:Hnow;
      cbn [changeAfter change_state change_date mbind negb] in *;
      unfold mbind; rewrite getNextChange_run; fold engine; rewrite Hflip;
      destruct (instanceGetNextChange engine t); destruct fuel;
      split; reflexivity.
  - destruct (instanceGetState engine now); split; reflexivity.
Qed.

Lemma changeAfter_answer `{OpeningHoursInstance Engine} (s : Service)
  (wanted : bool) (fuel : nat) :
  forall (nextChange : option NextChange) (t : Z),
    (forall change, nextChange = Some change ->
       exists t0,
         instanceGetNextChange (openingHoursInstance s) t0
         = Some (change_date change) /\
         change_state change
         = if instanceGetState (openingHoursInstance s) t0
           then StateClose else StateOpen) ->
    changeAfter fuel (if wanted then StateClose else StateOpen) nextChange s
    = (Ok (Some (Some t)), s) ->
    exists t0,
      instanceGetNextChange (openingHoursInstance s) t0 = Some t /\
      instanceGetState (openingHoursInstance s) t0 = negb wanted.
Proof.
  induction fuel as [|fuel IH]; intros nextChange t Hnext;
    (destruct nextChange as [change|]; cbn [changeAfter]; [|discriminate]);
    destruct (Hnext change eq_refl) as (t0 & Ht0 & Hstate);
    destruct (change_state change) eqn:Hcs, wanted;
    unfold mret; try discriminate;
    try (intros Heq; inversion Heq; subst; exists t0; split; [exact Ht0|];
         destruct (instanceGetState (openingHoursInstance s) t0);
         [discriminate || reflexivity|discriminate || reflexivity]).
  - unfold mbind. rewrite getNextChange_run. apply IH.
    intros change' Hc.
    destruct (instanceGetNextChange (openingHoursInstance s) (change_date change))
      as [raw|] eqn:Hraw; [|discriminate].
    inversion Hc; subst. exists (change_date change). now split.
  - unfold mbind. rewrite getNextChange_run. apply IH.
    intros change' Hc.
    destruct (instanceGetNextChange (openingHoursInstance s) (change_date change))
      as [raw|] eqn:Hraw; [|discriminate].
    inversion Hc; subst. exists (change_date change). now split.
Qed.

(** X28. Whatever the engine, a date that getNextOpeningTime returns is the
    next change of an instant at which the engine is closed, and a date that
    getNextClosingTime returns the next change of an instant at which it is
    open. *)
Theorem returned_time_is_a_change `{OpeningHoursInstance Engine} (s : Service)
  (now t : Z) (fuel : nat) :
  (getNextOpeningTime fuel now s = (Ok (Some (Some t)), s) ->
   exists t0, instanceGetNextChange (openingHoursInstance s) t0 = Some t /\
              instanceGetState (openingHoursInstance s) t0 = false) /\
  (getNextClosingTime fuel now s = (Ok (Some (Some t)), s) ->
   exists t0, instanceGetNextChange (openingHoursInstance s) t0 = Some t /\
              instanceGetState (openingHoursInstance s) t0 = true).
Proof.
  assert (Hfirst : forall change,
             match instanceGetNextChange (openingHoursInstance s) now with
             | Some nextChangeRaw =>
                 Some (mkNextChange nextChangeRaw
                         (if instanceGetState (openingHoursInstance s) now
                          then StateClose else StateOpen))
             | None => None
             end = Some change ->
             exists t0,
               instanceGetNextChange (openingHoursInstance s) t0
               = Some (change_date change) /\
               change_state change
               = if instanceGetState (openingHoursInstance s) t0
                 then StateClose else StateOpen).
  { intros change Hc.
    destruct (instanceGetNextChange (openingHoursInstance s) now) as [raw|] eqn:Hraw;
      [|discriminate].
    inversion Hc; subst. exists now. now split. }
  unfold getNextOpeningTime, getNextClosingTime, mbind.
  rewrite getNextChange_run. split; intros Hrun.
  - apply (changeAfter_answer s true fuel _ t Hfirst Hrun).
  - apply (changeAfter_answer s false fuel _ t Hfirst Hrun).
Qed.


(** ** The order of the entries given *)

Lemma flatMapR_perm {A B : Type} (f : A -> result (list B)) (l l' : list A) :
  Permutation l l' ->
  forall r, flatMapR f l = Ok r ->
            exists r', flatMapR f l' = Ok r' /\ Permutation r r'.
Proof.
  induction 1 as [|x l l' Hperm IH|x y l|l l' l'' _ IH1 _ IH2]; intros r;
    cbn [flatMapR].
  - intros H. inversion H. exists []. split; [reflexivity|constructor].
  - destruct (f x) as [ys|]; [|discriminate]. cbn [rbind].
    destruct (flatMapR f l) as [zs|]; [|discriminate]. cbn [rbind].
    intros H. inversion H; subst. destruct (IH zs eq_refl) as (zs' & -> & Hp).
    exists (ys ++ zs'). split; [reflexivity|]. now apply Permutation_app_head.
  - destruct (f y) as [ys|]; [|discriminate]. cbn [rbind].
    destruct (f x) as [xs|]; [|discriminate]. cbn [rbind].
    destruct (flatMapR f l) as [zs|]; [|discriminate]. cbn [rbind].
    intros H. inversion H; subst. exists (xs ++ ys ++ zs).
    split; [reflexivity|]. apply Permutation_app_swap_app.
  - intros H. destruct (IH1 r H) as (r' & H' & Hp).
    destruct (IH2 r' H') as (r'' & H'' & Hp').
    exists r''. split; [exact H''|]. now apply (Permutation_trans Hp).
Qed.

Lemma sorted_perm_unique (l1 : list Slot) :
  forall l2,
    StronglySorted keyLe l1 -> StronglySorted keyLe l2 -> Permutation l1 l2 ->
    (forall x y, In x l1 -> In y l1 ->
                 slotDay x = slotDay y -> slotOpens x = slotOpens y -> x = y) ->
    l1 = l2.
Proof.
  induction l1 as [|x1 r1 IH]; intros l2 Hs1 Hs2 Hperm Hinj.
  - apply Permutation_nil in Hperm. now subst.
  - destruct l2 as [|x2 r2].
    + apply Permutation_sym, Permutation_nil in Hperm. discriminate.
    + inversion Hs1 as [|? ? Hr1 Hx1]; subst.
      inversion Hs2 as [|? ? Hr2 Hx2]; subst.
      rewrite Forall_forall in Hx1, Hx2.
      assert (Hin1 : In x1 (x2 :: r2))
        by (apply (Permutation_in _ Hperm); now left).
      assert (Hin2 : In x2 (x1 :: r1))
        by (apply (Permutation_in _ (Permutation_sym Hperm)); now left).
      assert (Heq : x1 = x2).
      { destruct Hin1 as [->|Hin1]; [reflexivity|].
        destruct Hin2 as [->|Hin2]; [reflexivity|].
        specialize (Hx1 x2 Hin2). specialize (Hx2 x1 Hin1).
        apply Hinj; [now left|now right|..]; unfold keyLe in *; lia. }
      subst x2. f_equal. apply IH; try assumption.
      * now apply Permutation_cons_inv in Hperm.
      * intros x y Hx Hy. apply Hinj; now right.
Qed.

Lemma distinct_starts (slots : list Slot) :
  Forall slotOk slots ->
  NoDup (map (fun spec => (dayOfWeek spec, opens spec)) (map render slots)) ->
  forall x y, In x slots -> In y slots ->
              slotDay x = slotDay y -> slotOpens x = slotOpens y -> x = y.
Proof.
  induction 1 as [|z rest Hz Hrest IH]; cbn [map]; intros Hnd x y Hx Hy Hd Ho;
    [contradiction|].
  inversion Hnd as [|? ? Hnotin Hnd']; subst.
  assert (Hkey : forall u, In u rest -> slotDay u = slotDay z ->
                           slotOpens u = slotOpens z -> False).
  { intros u Hu Hud Huo. apply Hnotin. apply in_map_iff.
    exists (render u). split; [|now apply in_map].
    cbn [render dayOfWeek opens]. now rewrite Hud, Huo. }
  destruct Hx as [<-|Hx], Hy as [<-|Hy].
  - reflexivity.
  - exfalso. apply (Hkey y Hy); now symmetry.
  - exfalso. now apply (Hkey x Hx).
  - now apply IH.
Qed.

(** X29. setOpeningHours does not depend on the order in which the entries
    are given, as long as no two converted entries start at the same time of
    the same weekday: the same entries in another order give the same
    outcome, stored schedule or error, and the same state. *)
Theorem setOpeningHours_any_order (s : Service)
  (hours hours' : list OpeningHoursInput) (timezone : option string)
  (preprocessed converted : list OpeningHoursSpecification) :
  Permutation hours hours' ->
  preprocessOpeningHours hours = Ok preprocessed ->
  convertAll preprocessed (zoneOr timezone s) (userTimezone s) = Ok converted ->
  NoDup (map (fun spec => (dayOfWeek spec, opens spec)) converted) ->
  setOpeningHours hours' timezone s = setOpeningHours hours timezone s.
Proof.
  intros Hperm Hpre Hconv Hnd.
  assert (Hpre' : exists pre', preprocessOpeningHours hours' = Ok pre' /\
                               Permutation preprocessed pre').
  { unfold preprocessOpeningHours in *.
    apply (flatMapR_perm _ (normalizeAndSplitDays hours)); [|exact Hpre].
    unfold normalizeAndSplitDays. now apply Permutation_flat_map. }
  destruct Hpre' as (pre' & Hpre' & Hp1).
  destruct (flatMapR_perm _ _ _ Hp1 _ Hconv) as (conv' & Hconv' & Hp2).
  fold (convertAll pre' (zoneOr timezone s) (userTimezone s)) in Hconv'.
  rewrite !setOpeningHours_run. unfold normalize.
  rewrite Hpre, Hpre'. cbn [rbind]. rewrite Hconv, Hconv'. cbn [rbind].
  apply convertAll_shape in Hconv. destruct Hconv as (_ & slots & -> & Hok).
  apply Permutation_sym, Permutation_map_inv in Hp2.
  destruct Hp2 as (slots' & -> & Hp3).
  assert (Hok' : Forall slotOk slots')
    by (apply (Permutation_Forall Hp3); exact Hok).
  rewrite !combineAndCheckIntegrity_render by assumption.
  replace (sortSlots slots') with (sortSlots slots); [reflexivity|].
  apply sorted_perm_unique.
  - apply Sorted_StronglySorted; [intros x y z; apply keyLe_trans|].
    apply sortSlots_sorted.
  - apply Sorted_StronglySorted; [intros x y z; apply keyLe_trans|].
    apply sortSlots_sorted.
  - apply (Permutation_trans (Permutation_sym (sortSlots_perm slots))).
    apply (Permutation_trans Hp3). apply sortSlots_perm.
  - intros x y Hx Hy. apply (distinct_starts slots Hok Hnd);
      apply (Permutation_in _ (Permutation_sym (sortSlots_perm slots)));
      assumption.
Qed.


(** ** What an addition stores *)

(** Slots of which any two lie two minutes or more apart on a weekday, or on
    different weekdays, are a canonical schedule once sorted. *)
Lemma sorted_apart_canonical (l : list Slot) :
  Forall slotValid l ->
  StronglySorted (fun x y => follows x y \/ follows y x) l ->
  canonicalSlots (sortSlots l).
Proof.
  intros Hv Hs.
  pose proof (sortSlots_perm l) as Hperm.
  apply (StronglySorted_perm (fun x y => follows x y \/ follows y x)
           l (sortSlots l)) in Hs; [|tauto|exact Hperm].
  apply (Permutation_Forall Hperm) in Hv.
  pose proof (sortSlots_sorted l) as Hk.
  apply Sorted_StronglySorted in Hk; [|intros x y z; apply keyLe_trans].
  apply strongly_sorted_canonical; [|exact Hv]. clear Hperm.
  induction (sortSlots l) as [|x rest IH]; [constructor|].
  inversion Hv as [|? ? Hx Hvr]; subst.
  inversion Hs as [|? ? Hsr Hxs]; subst.
  inversion Hk as [|? ? Hkr Hxk]; subst.
  constructor; [now apply IH|].
  rewrite Forall_forall in *. intros y Hy.
  specialize (Hvr y Hy). specialize (Hxs y Hy). specialize (Hxk y Hy).
  split; [exact Hx|]. split; [exact Hvr|].
  unfold follows, keyLe, slotValid in *. lia.
Qed.

(** X30. When no clock changes in the reference week, neither that of the
    zone of the object nor that of the machine (no start or end of daylight
    time), then in every reachable state held in a zone the timezone library
    knows, addOpeningHour in that zone with a range of the data model that
    lies two minutes or more away from every stored entry of its weekday
    returns, and stores the entries there were and the new one, none merged
    and none changed. *)
Theorem addOpeningHour_apart_is_stored (s : Service) (day : string) (a b : Z) :
  steady (userTimezone s) ->
  reachable s -> zoneOffset (userTimezone s) <> None ->
  validDay day -> 0 <= a < b -> b <= 1440 ->
  (forall spec, In spec (openingHours s) -> dayOfWeek spec = day ->
     exists o c, convertTimeToMinutes (opens spec) = Some o /\
                 convertTimeToMinutes (closes spec) = Some c /\
                 (c + 2 <= a \/ b + 2 <= o)) ->
  exists s1,
    addOpeningHour day (formatHHmm a) (formatCloses b) None s = (Ok tt, s1) /\
    Permutation (openingHours s1)
                (mkSpec "OpeningHoursSpecification" day
                        (formatHHmm a) (formatCloses b) :: openingHours s).
Proof.
  intros Hsteady Hreach Hzone Hday Ha Hb Hfar. apply reachable_invariant in Hreach.
  destruct Hreach as [(slots & Hs & Hcan) _].
  destruct (validDay_dayName day Hday) as (d & Hd & ->).
  set (x := mkSlot d a b).
  assert (Hx : slotValid x) by (unfold slotValid; cbn; lia).
  assert (Hcanx : canonicalSlots [x]).
  { split; [constructor; [exact Hx|constructor]|constructor; constructor]. }
  pose proof (canonical_ok slots Hcan) as Hok.
  pose proof Hcan as [Hv _].
  assert (Hsorted : canonicalSlots (sortSlots (slots ++ [x]))).
  { apply sorted_apart_canonical.
    - apply Forall_app. split; [exact Hv|]. constructor; [exact Hx|constructor].
    - apply StronglySorted_app.
      + apply (StronglySorted_weaken followsValid);
          [|now apply canonical_strongly_sorted].
        intros y z (_ & _ & Hf). now left.
      + constructor; constructor.
      + intros y z Hy [<-|[]]. rewrite Forall_forall in Hv, Hok.
        destruct (Z.eq_dec (slotDay y) d) as [Heq|Hne].
        * destruct (Hfar (render y)) as (o & c & Ho & Hc & Hgap).
          -- rewrite Hs. now apply in_map.
          -- cbn [render dayOfWeek]. now rewrite Heq.
          -- rewrite minutes_opens_render in Ho by now apply Hok.
             rewrite minutes_closes_render in Hc by now apply Hok.
             inversion Ho; inversion Hc; subst.
             unfold follows. cbn [x slotDay slotOpens slotCloses]. lia.
        * unfold follows. cbn [x slotDay slotOpens slotCloses]. lia. }
  eexists. split.
  - rewrite addOpeningHour_run, addOpeningHoursBatch_run. cbn [zoneOr].
    change [mkInput "OpeningHoursSpecification" (OneDay (dayName d))
                    (formatHHmm a) (formatCloses b)]
      with (map toInput (map render [x])).
    rewrite preprocess_canonical by assumption. cbn [rbind].
    rewrite convertAll_same_zone by assumption. cbn [rbind].
    rewrite Hs, <- map_app.
    rewrite combineAndCheckIntegrity_render.
    2:{ apply Forall_app. split; [assumption|now apply canonical_ok]. }
    rewrite combineSlots_canonical by assumption.
    replace (checkIntegrity (map render (sortSlots (slots ++ [x]))))
      with (@Ok unit tt); [reflexivity|].
    symmetry. apply checkIntegrity_render; [now apply canonical_ok|].
    now apply canonical_integral.
  - cbn [openingHours]. rewrite Hs.
    change (mkSpec "OpeningHoursSpecification" (dayName d)
                   (formatHHmm a) (formatCloses b) :: map render slots)
      with (map render (x :: slots)).
    apply Permutation_map.
    apply (Permutation_trans (Permutation_sym (sortSlots_perm (slots ++ [x])))).
    apply Permutation_sym, Permutation_cons_append.
Qed.

End Collaborators.

(** ** Examples, on a service in UTC *)

Notation "'utcService'" := (freshService string exampleEngine "UTC").
Notation "'setHours'" := (setOpeningHours exampleZones exampleDateOf exampleClock string exampleEngine).
Notation "'addHour'" := (addOpeningHour exampleZones exampleDateOf exampleClock string exampleEngine).
Notation "'exportHours'" := (exportOpeningHours exampleZones exampleDateOf exampleClock string).
Notation "'reachableEx'" := (reachable exampleZones exampleDateOf exampleClock string exampleEngine).

Lemma exampleClock_steady (zone : string) :
  steady exampleClock zone.
Proof. repeat split. Defined.

(** Monday 09:00-12:00 and Monday 11:59-15:00 share the minute from 11:59
    to 12:00; neither setOpeningHours, given both, nor addOpeningHour, given
    the second when the first is stored, throws: each stores the single
    entry Monday 09:00-15:00. *)
Theorem one_minute_overlap_is_merged :
  setHours [entry "Monday" "09:00" "12:00"; entry "Monday" "11:59" "15:00"]
      (Some "UTC") utcService
  = (Ok tt,
     mkService string [stored "Monday" "09:00" "15:00"] "UTC"
       "Mo 09:00-15:00; Tu off; We off; Th off; Fr off; Sa off; Su off") /\
  addHour "Monday" "11:59" "15:00" (Some "UTC")
      (mkService string [stored "Monday" "09:00" "12:00"] "UTC"
         "Mo 09:00-12:00; Tu off; We off; Th off; Fr off; Sa off; Su off")
  = (Ok tt,
     mkService string [stored "Monday" "09:00" "15:00"] "UTC"
       "Mo 09:00-15:00; Tu off; We off; Th off; Fr off; Sa off; Su off").
Proof. split; vm_compute; reflexivity. Qed.

Lemma failed_mutation_keeps_state_witness :
  snd (addHour "Monday" "23:00" "02:00" (Some "UTC") utcService) = utcService.
Proof.
  apply (proj1 (proj2 (failed_mutation_keeps_state
                         exampleZones exampleDateOf exampleClock string exampleEngine
                         utcService
                         (snd (addHour "Monday" "23:00" "02:00" (Some "UTC")
                                       utcService))
                         (InvalidTimeRange "Monday" "23:00" "02:00")))
           "Monday" "23:00" "02:00" (Some "UTC")).
  vm_compute. reflexivity.
Defined.

Lemma closes_not_after_opens_rejected_witness :
  addHour "Monday" "23:00" "02:00" (Some "UTC") utcService
  = (Err (InvalidTimeRange "Monday" "23:00" "02:00"), utcService).
Proof.
  apply (proj2 (closes_not_after_opens_rejected
                  exampleZones exampleDateOf exampleClock string exampleEngine utcService)
           "Monday" "23:00" "02:00" (Some "UTC")).
  - exists 1380. split; [lia|reflexivity].
  - exists 120. split; [lia|reflexivity].
  - reflexivity.
Defined.

Lemma unrecognized_zone_or_late_hour_not_rejected_as_such :
  exampleZones "Invalid/Timezone" = None /\
  fst (setHours [] (Some "Invalid/Timezone") utcService) = Ok tt /\
  fst (exportHours (Some "Invalid/Timezone") utcService) = Ok [] /\
  fst (setHours [entry "Monday" "09:00" "25:00"] (Some "UTC") utcService)
  = Err (InvalidTimeRange "Monday" "09:00" "01:00").
Proof. repeat split. Qed.

(** An hour above 24 is set modulo 24: 00:30-25:00 is stored as
    00:30-01:00. *)
Example late_hour_is_wrapped :
  setHours [entry "Monday" "00:30" "25:00"] (Some "UTC") utcService
  = (Ok tt,
     mkService string [stored "Monday" "00:30" "01:00"] "UTC"
       "Mo 00:30-01:00; Tu off; We off; Th off; Fr off; Sa off; Su off").
Proof. vm_compute. reflexivity. Qed.

Notation "'weekService'" :=
  (mkService string
     [stored "Monday" "09:00" "12:00"; stored "Monday" "13:00" "17:00";
      stored "Sunday" "10:00" "24:00"]
     "UTC"
     "Mo 09:00-12:00,13:00-17:00; Tu off; We off; Th off; Fr off; Sa off; Su 10:00-24:00").

Lemma weekService_reachable : reachableEx weekService.
Proof.
  apply (reach_set exampleZones exampleDateOf exampleClock string exampleEngine utcService _
           [entry "Sunday" "10:00" "24:00"; entry "Monday" "13:00" "17:00";
            entry "Monday" "09:00" "12:00"] (Some "UTC")).
  - apply reach_fresh.
  - vm_compute. reflexivity.
Defined.

(** Times as the examples write them are plain: two fields of two digits. *)
Lemma plainTime_of_digits (h mi : string) :
  plainNumber h -> plainNumber mi ->
  split ":"%char (h ++ ":" ++ mi)%string = [h; mi] ->
  plainTime (h ++ ":" ++ mi)%string.
Proof. intros Hh Hmi Hs. unfold plainTime. rewrite Hs. split; now left. Defined.

Lemma unreadable_time_or_zone_rejected_witness :
  setHours [entry "Monday" "invalid-time" "12:00"] (Some "UTC") utcService
  = (Err InvalidTimeValue, utcService) /\
  addHour "Monday" "09:00" "17:00" (Some "Invalid/Timezone") utcService
  = (Err InvalidTimeValue, utcService) /\
  removeOpeningHoursForDay exampleZones exampleDateOf exampleClock string
    exampleEngine "Monday" (Some "Invalid/Timezone") weekService
  = (Err InvalidTimeValue, weekService).
Proof.
  assert (H12 : plainTime "12:00").
  { apply (plainTime_of_digits "12" "00");
      [split; [cbn; lia|discriminate]..|reflexivity]. }
  assert (H09 : plainTime "09:00").
  { apply (plainTime_of_digits "09" "00");
      [split; [cbn; lia|discriminate]..|reflexivity]. }
  assert (H17 : plainTime "17:00").
  { apply (plainTime_of_digits "17" "00");
      [split; [cbn; lia|discriminate]..|reflexivity]. }
  split; [|split].
  - apply (proj1 (unreadable_time_or_zone_rejected
                    exampleZones exampleDateOf exampleClock string exampleEngine
                    utcService)
             [entry "Monday" "invalid-time" "12:00"] (Some "UTC")
             [stored "Monday" "invalid-time" "12:00"]).
    + reflexivity.
    + repeat constructor.
    + constructor; [|constructor]. split; [|exact H12].
      right. exists "v"%char. split; reflexivity.
    + left. exists (stored "Monday" "invalid-time" "12:00").
      split; [now left|]. left. exact I.
  - apply (proj1 (proj2 (unreadable_time_or_zone_rejected
                           exampleZones exampleDateOf exampleClock string
                           exampleEngine utcService))
             "Monday" "09:00" "17:00" (Some "Invalid/Timezone")).
    + unfold validDay. cbn. tauto.
    + exact H09.
    + exact H17.
    + reflexivity.
    + right. right. reflexivity.
  - apply (proj1 (proj2 (proj2 (proj2 (unreadable_time_or_zone_rejected
                           exampleZones exampleDateOf exampleClock string
                           exampleEngine weekService))))
             "Monday" "Invalid/Timezone").
    + exact weekService_reachable.
    + discriminate.
    + reflexivity.
Defined.

Lemma overlapping_entries_rejected_witness :
  exists e,
    addOpeningHoursBatch exampleZones exampleDateOf exampleClock string exampleEngine
      [entry "Monday" "11:00" "15:00"] (Some "UTC") weekService
    = (Err e, weekService) /\
    isOverlapError e.
Proof.
  assert (Hshare : shareTwoMinutes (stored "Monday" "09:00" "12:00")
                                   (stored "Monday" "11:00" "15:00")).
  { split; [reflexivity|]. exists 540, 720, 660, 900.
    repeat (split; [reflexivity|]). lia. }
  assert (Htwo : twoOf (stored "Monday" "09:00" "12:00")
                       (stored "Monday" "11:00" "15:00")
                       (openingHours string weekService
                        ++ [stored "Monday" "11:00" "15:00"])).
  { exists [], [stored "Monday" "13:00" "17:00"; stored "Sunday" "10:00" "24:00"], [].
    reflexivity. }
  destruct (proj1 (proj2 (overlapping_entries_rejected
                     exampleZones exampleDateOf exampleClock string exampleEngine weekService
                     [entry "Monday" "11:00" "15:00"] (Some "UTC")
                     [stored "Monday" "11:00" "15:00"]
                     [stored "Monday" "11:00" "15:00"]
                     (stored "Monday" "09:00" "12:00")
                     (stored "Monday" "11:00" "15:00")
                     weekService_reachable eq_refl eq_refl Hshare)) Htwo)
    as (e & Hrun & He).
  exists e. split; [exact Hrun|]. apply He.
  constructor; [|constructor].
  split; [discriminate|]. exists 660, 900.
  split; [reflexivity|]. split; [reflexivity|]. lia.
Defined.

Lemma stored_schedule_is_canonical_witness :
  Forall entryWellFormed (openingHours string weekService) /\
  StronglySorted entriesInOrder (openingHours string weekService).
Proof.
  apply (stored_schedule_is_canonical
           exampleZones exampleDateOf exampleClock string exampleEngine weekService).
  exact weekService_reachable.
Defined.

Lemma normalizer_is_idempotent_witness :
  exportHours None weekService = (Ok (openingHours string weekService), weekService).
Proof.
  apply (normalizer_is_idempotent
           exampleZones exampleDateOf exampleClock string exampleEngine weekService).
  - apply exampleClock_steady.
  - exact weekService_reachable.
Defined.

(** A service of a machine in New York, set to Monday 02:30-24:00 in a week
    without a change of clock, and asked for its schedule in the week in
    which daylight time starts: the export into the internal zone opens at
    03:30, and the Normalizer run on the stored schedule stores that. *)
Notation "'nightService'" :=
  (mkService string [stored "Monday" "02:30" "24:00"] "America/New_York"
     "Mo 02:30-24:00; Tu off; We off; Th off; Fr off; Sa off; Su off").

Lemma export_moves_opening_when_daylight_time_starts :
  reachable exampleZones exampleDateOf exampleClock string exampleEngine
    nightService /\
  exportOpeningHours exampleZones exampleDateOf springClock string None nightService
  = (Ok [stored "Monday" "03:30" "24:00"], nightService) /\
  normalize exampleZones exampleDateOf springClock
    (map toInput (openingHours string nightService))
    "America/New_York" "America/New_York"
  = Ok [stored "Monday" "03:30" "24:00"].
Proof.
  split; [|split; vm_compute; reflexivity].
  apply (reach_set exampleZones exampleDateOf exampleClock string exampleEngine
           (freshService string exampleEngine "America/New_York") _
           [entry "Monday" "02:30" "24:00"] None);
    [apply reach_fresh|vm_compute; reflexivity].
Qed.





Lemma open_ranges_per_day_witness :
  getOpenRangePerDay exampleZones exampleDateOf exampleClock string None weekService
  = (Ok [mkPerDay "OpenRangePerDay" "Monday"
           [mkRange "09:00" "12:00"; mkRange "13:00" "17:00"];
         mkPerDay "OpenRangePerDay" "Tuesday" [];
         mkPerDay "OpenRangePerDay" "Wednesday" [];
         mkPerDay "OpenRangePerDay" "Thursday" [];
         mkPerDay "OpenRangePerDay" "Friday" [];
         mkPerDay "OpenRangePerDay" "Saturday" [];
         mkPerDay "OpenRangePerDay" "Sunday" [mkRange "10:00" "24:00"]],
     weekService).
Proof.
  apply (open_ranges_per_day
           exampleZones exampleDateOf exampleClock string exampleEngine weekService).
  exact weekService_reachable.
Defined.

Notation "'gapService'" :=
  (mkService string
     [stored "Monday" "23:00" "23:59"; stored "Tuesday" "00:00" "01:00"]
     "UTC"
     "Mo 23:00-23:59; Tu 00:00-01:00; We off; Th off; Fr off; Sa off; Su off").

Lemma exampleDateOf_withinMonth : weekWithinMonth exampleDateOf.
Proof. intros i j _ _. unfold exampleDateOf. lia. Defined.

(** Monday 23:00-23:59 and Tuesday 00:00-01:00, one minute apart across
    midnight, are one range in a zone two hours ahead; coming back, the range
    is split at midnight and Monday closes at 24:00. *)
Lemma round_trip_closes_one_minute_gap :
  reachableEx gapService /\
  weekWithinMonth exampleDateOf /\
  exportHours (Some "Etc/GMT-2") gapService
  = (Ok [stored "Tuesday" "01:00" "03:00"], gapService) /\
  normalize exampleZones exampleDateOf exampleClock
    (map toInput [stored "Tuesday" "01:00" "03:00"]) "Etc/GMT-2" "UTC"
  = Ok [stored "Monday" "23:00" "24:00"; stored "Tuesday" "00:00" "01:00"] /\
  normalize exampleZones exampleDateOf exampleClock
    (map toInput [stored "Tuesday" "01:00" "03:00"]) "Etc/GMT-2" "UTC"
  <> Ok (openingHours string gapService).
Proof.
  split; [|split; [exact exampleDateOf_withinMonth|]].
  - apply (reach_set exampleZones exampleDateOf exampleClock string exampleEngine utcService _
             [entry "Monday" "23:00" "23:59"; entry "Tuesday" "00:00" "01:00"]
             (Some "UTC")); [apply reach_fresh|vm_compute; reflexivity].
  - split; [vm_compute; reflexivity|].
    split; [vm_compute; reflexivity|]. vm_compute. discriminate.
Qed.

(** The day offset is a difference of days of the month. In a reference
    week that runs over the end of a month, Thursday 21:00-23:00 exported two
    hours east closes, not on Friday, but on Tuesday: 1 - 31 = -30 days on. *)
Example day_offset_over_month_end :
  exportOpeningHours exampleZones monthEndDateOf exampleClock string (Some "Etc/GMT-2")
    (mkService string [stored "Thursday" "21:00" "23:00"] "UTC"
       "Mo off; Tu off; We off; Th 21:00-23:00; Fr off; Sa off; Su off")
  = (Ok [stored "Tuesday" "00:00" "01:00"; stored "Thursday" "23:00" "24:00"],
     mkService string [stored "Thursday" "21:00" "23:00"] "UTC"
       "Mo off; Tu off; We off; Th 21:00-23:00; Fr off; Sa off; Su off").
Proof. vm_compute. reflexivity. Qed.

Lemma round_trip_restores_schedule_witness :
  exists exported,
    exportHours (Some "America/New_York") weekService = (Ok exported, weekService) /\
    normalize exampleZones exampleDateOf exampleClock (map toInput exported)
      "America/New_York" "UTC"
    = Ok (openingHours string weekService) /\
    (converted <- convertAll exampleZones exampleDateOf exampleClock exported
                    "America/New_York" "UTC" ;;
     combineAndCheckIntegrity converted)
    = Ok (openingHours string weekService).
Proof.
  apply (round_trip_restores_schedule exampleZones exampleDateOf exampleClock string
           exampleEngine weekService "America/New_York" 0 (-240)).
  - exact exampleDateOf_withinMonth.
  - apply exampleClock_steady.
  - apply exampleClock_steady.
  - reflexivity.
  - unfold offsetInRange. lia.
  - reflexivity.
  - unfold offsetInRange. lia.
  - exact weekService_reachable.
  - intros a b Ha Hb [_ Hgap]. cbn in Ha, Hb.
    destruct Ha as [<-|[<-|[<-|[]]]]; destruct Hb as [<-|[<-|[<-|[]]]];
      destruct Hgap as [[H1 H2]|[H1 H2]]; discriminate.
Defined.


(** ** The further properties, on the examples *)

Lemma timeIsBefore_orders_times_witness :
  timeIsBefore (formatCloses 540) (formatCloses 1440) = true.
Proof.
  apply (proj1 timeIsBefore_orders_times 540 1440); lia.
Defined.

Lemma areTimesAdjacent_symmetric_witness :
  exists a b, convertTimeToMinutes "12:00" = Some a /\
              convertTimeToMinutes "11:59" = Some b /\ -1 <= a - b <= 1.
Proof.
  apply (proj2 areTimesAdjacent_symmetric "12:00" "11:59"). reflexivity.
Defined.

Lemma normalizeDayOfWeek_strips_address_witness :
  normalizeDayOfWeek "https://schema.org/Monday" = "Monday".
Proof.
  apply (proj1 (normalizeDayOfWeek_strips_address "Monday")). reflexivity.
Defined.

Lemma adjustDayOfWeek_moves_around_week_witness :
  validDay (adjustDayOfWeek "Sunday" 1) /\
  adjustDayOfWeek "Sunday" 0 = "Sunday" /\
  adjustDayOfWeek "Sunday" (1 + 7) = adjustDayOfWeek "Sunday" 1 /\
  adjustDayOfWeek (adjustDayOfWeek "Sunday" 1) (-2) = adjustDayOfWeek "Sunday" (1 + -2).
Proof.
  apply (adjustDayOfWeek_moves_around_week "Sunday" 1 (-2)).
  unfold validDay. cbn. tauto.
Defined.

Lemma getNextDay_is_one_day_later_witness :
  getNextDay "Sunday" = adjustDayOfWeek "Sunday" 1.
Proof.
  apply (proj1 (getNextDay_is_one_day_later "Sunday")).
  unfold validDay. cbn. tauto.
Defined.

Lemma day_numberings_agree_witness :
  convertNumberToDayString (7 mod 7) = Some "Sunday".
Proof.
  apply (proj1 day_numberings_agree "Sunday" 7). reflexivity.
Defined.

Lemma preprocessOpeningHours_keeps_entries_witness :
  [stored "Monday" "09:00" "12:00"; stored "Tuesday" "09:00" "12:00"]
  = normalizeAndSplitDays
      [mkInput "OpeningHoursSpecification"
               (ManyDays ["Monday"; "https://schema.org/Tuesday"])
               "09:00" "12:00"] /\
  Forall (fun spec => timeIsBefore (closes spec) (opens spec) = false /\
                      closes spec <> opens spec)
         [stored "Monday" "09:00" "12:00"; stored "Tuesday" "09:00" "12:00"].
Proof.
  apply (preprocessOpeningHours_keeps_entries
           [mkInput "OpeningHoursSpecification"
                    (ManyDays ["Monday"; "https://schema.org/Tuesday"])
                    "09:00" "12:00"]).
  vm_compute. reflexivity.
Defined.

Lemma constructor_keeps_machine_zone_witness :
  userTimezone string
    (mkService string [stored "Monday" "07:00" "10:00"] "UTC"
       "Mo 07:00-10:00; Tu off; We off; Th off; Fr off; Sa off; Su off") = "UTC" /\
  reachableEx
    (mkService string [stored "Monday" "07:00" "10:00"] "UTC"
       "Mo 07:00-10:00; Tu off; We off; Th off; Fr off; Sa off; Su off").
Proof.
  apply (proj1 (constructor_keeps_machine_zone
                  exampleZones exampleDateOf exampleClock string exampleEngine "UTC"
                  (Some [entry "Monday" "09:00" "12:00"]) (Some "Etc/GMT-2"))).
  vm_compute. reflexivity.
Defined.

Lemma engine_follows_schedule_witness :
  openingHoursInstance string weekService
  = exampleEngine (hoursString (groupByDay (openingHours string weekService))).
Proof.
  apply (proj2 (engine_follows_schedule
                  exampleZones exampleDateOf exampleClock string exampleEngine
                  utcService weekService)).
  left.
  exists [entry "Sunday" "10:00" "24:00"; entry "Monday" "13:00" "17:00";
          entry "Monday" "09:00" "12:00"], (Some "UTC").
  vm_compute. reflexivity.
Defined.

Lemma stored_schedule_validates_witness :
  validateOpeningHours string None weekService = (Ok true, weekService).
Proof.
  apply (stored_schedule_validates
           exampleZones exampleDateOf exampleClock string exampleEngine weekService).
  exact weekService_reachable.
Defined.

Lemma validateOpeningHours_overlooks_witness :
  validateOpeningHours string
    (Some [mkInput "OpeningHoursSpecification" (OneDay "Funday")
                   (formatHHmm 540) (formatCloses 720)])
    utcService
  = (Ok true, utcService) /\
  validateOpeningHours string
    (Some [mkInput "OpeningHoursSpecification" (OneDay "Funday")
                   "nine" (formatCloses 720)])
    utcService
  = (Ok true, utcService).
Proof.
  split.
  - apply (proj1 (validateOpeningHours_overlooks
                    string utcService "OpeningHoursSpecification" "Funday"));
      lia.
  - apply (proj2 (validateOpeningHours_overlooks
                    string utcService "OpeningHoursSpecification" "Funday"));
      [reflexivity|lia].
Defined.

Lemma unknown_weekday_rejected_witness :
  addHour "Funday" "09:00" "12:00" (Some "UTC") utcService
  = (Err (InvalidWeekday (normalizeDayOfWeek "Funday")), utcService).
Proof.
  apply (proj2 (unknown_weekday_rejected
                  exampleZones exampleDateOf exampleClock string exampleEngine
                  utcService)).
  - split; cbn; intuition discriminate.
  - apply (plainTime_of_digits "09" "00");
      [split; [cbn; lia|discriminate]..|reflexivity].
  - apply (plainTime_of_digits "12" "00");
      [split; [cbn; lia|discriminate]..|reflexivity].
  - reflexivity.
  - discriminate.
Defined.

Lemma converted_entries_keep_day_bounds_witness :
  thrownByNormalizer (OverlapError "Monday" "09:00" "12:00" "11:00" "15:00").
Proof.
  apply (converted_entries_keep_day_bounds
           exampleZones exampleDateOf exampleClock string exampleEngine
           weekService weekService).
  - exact weekService_reachable.
  - right. left. exists [entry "Monday" "11:00" "15:00"], (Some "UTC").
    vm_compute. reflexivity.
Defined.

Lemma removeOpeningHoursForDay_keeps_other_days_witness :
  removeOpeningHoursForDay exampleZones exampleDateOf exampleClock string exampleEngine
    "Monday" None weekService
  = (Ok tt,
     mkService string [stored "Sunday" "10:00" "24:00"] "UTC"
       "Mo off; Tu off; We off; Th off; Fr off; Sa off; Su 10:00-24:00").
Proof.
  apply (removeOpeningHoursForDay_keeps_other_days
           exampleZones exampleDateOf exampleClock string exampleEngine
           weekService "Monday").
  - apply exampleClock_steady.
  - exact weekService_reachable.
Defined.

Lemma open_range_for_day_witness :
  getOpenRangeForDay exampleZones exampleDateOf exampleClock string "Monday" None weekService
  = (Ok (mkPerDay "OpenRangePerDay" "Monday"
           [mkRange "09:00" "12:00"; mkRange "13:00" "17:00"]), weekService).
Proof.
  apply (open_range_for_day
           exampleZones exampleDateOf exampleClock string exampleEngine weekService "Monday").
  exact weekService_reachable.
Defined.

Lemma open_ranges_read_back_witness :
  exists perDay,
    getOpenRangePerDay exampleZones exampleDateOf exampleClock string None weekService
    = (Ok perDay, weekService) /\
    ungroup perDay = openingHours string weekService.
Proof.
  apply (open_ranges_read_back
           exampleZones exampleDateOf exampleClock string exampleEngine weekService).
  exact weekService_reachable.
Defined.

Lemma open_ranges_group_export_witness :
  getOpenRangePerDay exampleZones exampleDateOf exampleClock string (Some "Etc/GMT-2")
    weekService
  = (match fst (exportHours (Some "Etc/GMT-2") weekService) with
     | Ok exported => Ok (groupByDay exported)
     | Err e => Err e
     end, weekService).
Proof.
  apply (open_ranges_group_export
           exampleZones exampleDateOf exampleClock string exampleEngine weekService
           "Etc/GMT-2").
  - apply exampleClock_steady.
  - exact weekService_reachable.
Defined.


Lemma export_moves_open_time_witness :
  exists exported,
    exportHours (Some "Etc/GMT-2") weekService = (Ok exported, weekService) /\
    forall p, openAtMinute exported p
              <-> openAtMinute (openingHours string weekService) (p - (120 - 0)).
Proof.
  apply (export_moves_open_time exampleZones exampleDateOf exampleClock string
           exampleEngine weekService "Etc/GMT-2" 0 120).
  - exact exampleDateOf_withinMonth.
  - apply exampleClock_steady.
  - apply exampleClock_steady.
  - reflexivity.
  - unfold offsetInRange. lia.
  - reflexivity.
  - unfold offsetInRange. lia.
  - exact weekService_reachable.
  - intros a b Ha Hb [_ Hgap]. cbn in Ha, Hb.
    destruct Ha as [<-|[<-|[<-|[]]]]; destruct Hb as [<-|[<-|[<-|[]]]];
      destruct Hgap as [[H1 H2]|[H1 H2]]; discriminate.
Defined.

Lemma exported_schedule_is_canonical_witness :
  Forall entryWellFormed
    [stored "Monday" "00:00" "02:00"; stored "Monday" "11:00" "14:00";
     stored "Monday" "15:00" "19:00"; stored "Sunday" "12:00" "24:00"] /\
  StronglySorted entriesInOrder
    [stored "Monday" "00:00" "02:00"; stored "Monday" "11:00" "14:00";
     stored "Monday" "15:00" "19:00"; stored "Sunday" "12:00" "24:00"].
Proof.
  apply (exported_schedule_is_canonical exampleZones exampleDateOf exampleClock string
           weekService weekService (Some "Etc/GMT-2")).
  vm_compute. reflexivity.
Defined.

Lemma empty_batch_keeps_schedule_witness :
  addOpeningHoursBatch exampleZones exampleDateOf exampleClock string exampleEngine
    [] (Some "Invalid/Timezone") weekService
  = (Ok tt, weekService).
Proof.
  apply (empty_batch_keeps_schedule
           exampleZones exampleDateOf exampleClock string exampleEngine weekService
           (Some "Invalid/Timezone")).
  exact weekService_reachable.
Defined.

Lemma added_weekday_removed_again_witness :
  exists s1 s2,
    addHour "Tuesday" (formatHHmm 540) (formatCloses 1440) None weekService
    = (Ok tt, s1) /\
    rangesOf "Tuesday" (openingHours string s1)
    = [mkRange (formatHHmm 540) (formatCloses 1440)] /\
    removeOpeningHoursForDay exampleZones exampleDateOf exampleClock string exampleEngine
      "Tuesday" None s1 = (Ok tt, s2) /\
    openingHours string s2 = openingHours string weekService.
Proof.
  apply (added_weekday_removed_again
           exampleZones exampleDateOf exampleClock string exampleEngine weekService
           "Tuesday" 540 1440).
  - apply exampleClock_steady.
  - exact weekService_reachable.
  - discriminate.
  - unfold validDay. cbn. tauto.
  - reflexivity.
  - lia.
  - lia.
Defined.

(** At 10:00 of the first day the example engine is open; it closes at
    17:00 and opens again at 09:00 of the second day. *)
Lemma open_and_closed_windows_witness :
  isClosedForDuration string 30 36000000 36000000 36000000 utcService
  = (Ok false, utcService).
Proof.
  apply (proj2 (open_and_closed_windows string utcService
                  36000000 36000000 36000000 36000000 36000000) 30).
  - lia.
  - vm_compute. reflexivity.
Defined.

Lemma next_opening_and_closing_time_witness :
  getNextOpeningTime string 1 36000000 utcService
  = (Ok (Some (Some 118800000)), utcService) /\
  getNextClosingTime string 1 36000000 utcService
  = (Ok (Some (Some 61200000)), utcService).
Proof.
  assert (Hflip : forall t,
             instanceGetNextChange (openingHoursInstance string utcService)
                                   36000000 = Some t ->
             instanceGetState (openingHoursInstance string utcService) t
             = negb (instanceGetState (openingHoursInstance string utcService)
                                      36000000)).
  { intros t Ht. vm_compute in Ht. inversion Ht. vm_compute. reflexivity. }
  exact (next_opening_and_closing_time string utcService 36000000 0 Hflip).
Defined.

Lemma returned_time_is_a_change_witness :
  exists t0,
    instanceGetNextChange (openingHoursInstance string utcService) t0
    = Some 118800000 /\
    instanceGetState (openingHoursInstance string utcService) t0 = false.
Proof.
  apply (proj1 (returned_time_is_a_change string utcService
                  36000000 118800000 1)).
  vm_compute. reflexivity.
Defined.

Lemma days_without_hours_witness :
  getDaysWithoutOpeningHours string weekService
  = (Ok ["Tuesday"; "Wednesday"; "Thursday"; "Friday"; "Saturday"], weekService).
Proof.
  apply (days_without_hours
           exampleZones exampleDateOf exampleClock string exampleEngine weekService).
  exact weekService_reachable.
Defined.

Lemma setOpeningHours_any_order_witness :
  setHours [entry "Monday" "09:00" "12:00"; entry "Monday" "13:00" "17:00"]
    (Some "UTC") utcService
  = setHours [entry "Monday" "13:00" "17:00"; entry "Monday" "09:00" "12:00"]
      (Some "UTC") utcService.
Proof.
  apply (setOpeningHours_any_order
           exampleZones exampleDateOf exampleClock string exampleEngine utcService
           [entry "Monday" "13:00" "17:00"; entry "Monday" "09:00" "12:00"]
           [entry "Monday" "09:00" "12:00"; entry "Monday" "13:00" "17:00"]
           (Some "UTC")
           [stored "Monday" "13:00" "17:00"; stored "Monday" "09:00" "12:00"]
           [stored "Monday" "13:00" "17:00"; stored "Monday" "09:00" "12:00"]).
  - apply perm_swap.
  - reflexivity.
  - reflexivity.
  - constructor; [|constructor; [|constructor]].
    + cbn. intros [H|[]]. discriminate.
    + intros [].
Defined.

Lemma addOpeningHour_apart_is_stored_witness :
  exists s1,
    addHour "Monday" (formatHHmm 1080) (formatCloses 1200) None weekService
    = (Ok tt, s1) /\
    Permutation (openingHours string s1)
                (mkSpec "OpeningHoursSpecification" "Monday"
                        (formatHHmm 1080) (formatCloses 1200)
                 :: openingHours string weekService).
Proof.
  apply (addOpeningHour_apart_is_stored
           exampleZones exampleDateOf exampleClock string exampleEngine weekService
           "Monday" 1080 1200).
  - apply exampleClock_steady.
  - exact weekService_reachable.
  - discriminate.
  - unfold validDay. cbn. tauto.
  - lia.
  - lia.
  - intros spec Hin Hday. cbn in Hin.
    destruct Hin as [<-|[<-|[<-|[]]]].
    + exists 540, 720. repeat split; try reflexivity. lia.
    + exists 780, 1020. repeat split; try reflexivity. lia.
    + discriminate.
Defined.
